(** * Fusion+ Monad Bridge: HTLC contracts, bridge contracts and the
      off-chain monitor and resolver, embedded in Rocq.

    The Solidity contracts are embedded as functions in a state-and-revert
    monad over the contract's storage, the external world (token ledgers and
    native balances, kept abstract) and the event log.  The TypeScript
    services are embedded as functions in a state-and-exception monad over
    the service's fields and the RPC world. *)

From Stdlib Require Import ZArith Lia Bool.
From stdpp Require Import base option list gmap strings pretty.

Local Open Scope Z_scope.

(** ** Solidity values *)

Definition address := Z.
Definition bytes32 := Z.
Definition uint256 := Z.

Definition MAX_UINT256 : Z := 2 ^ 256 - 1.

(** One argument of [abi.encodePacked]. *)
Inductive abi : Type :=
| AAddr (a : address)
| AUint (u : uint256)
| AB32 (b : bytes32).

(** The two hash builtins, applied to the argument list of
    [abi.encodePacked].  They are the only parts of the EVM left abstract. *)
Class Hashes : Type := {
  keccak256 : list abi -> bytes32;
  sha256 : list abi -> bytes32
}.

(** Reasons for which a call reverts. *)
Inductive Error : Type :=
| Require (reason : string)
| Custom (name : string) (args : list Z)
| Panic (code : Z)
| NotPayable.

Inductive result (A : Type) : Type :=
| Ok (a : A)
| Revert (e : Error).
Arguments Ok {A} a.
Arguments Revert {A} e.

Definition is_ok {A} (r : result A) : bool :=
  match r with Ok _ => true | Revert _ => false end.

(** Calls that leave the contract: native value sent with a call, and the
    ERC20 entry points used through SafeERC20. *)
Inductive ExtCall : Type :=
| EthSend (from to : address) (value : uint256)
| Erc20Transfer (token from to : address) (value : uint256)
| Erc20TransferFrom (token operator from to : address) (value : uint256)
| Erc20Approve (token owner spender : address) (value : uint256).

(** The world outside the contracts under study.  [ext_call c w = None]
    when the call fails (it reverts, or an ERC20 returns false). *)
Class Extern : Type := {
  World : Type;
  ext_call : ExtCall -> World -> option World
}.

(** Events of all contracts. *)
Inductive Event : Type :=
(* HTLC *)
| EvLocked (sender receiver : address) (amount : uint256) (token : address)
| EvClaimed (receiver : address) (secret : bytes32)
| EvRefunded (sender : address)
(* MonadHTLC / EthereumHTLC *)
| HTLCCreated (contractId : bytes32) (sender receiver token : address)
    (amount : uint256) (hashlock : bytes32) (timelock : uint256)
| HTLCWithdrawn (contractId secret : bytes32)
| HTLCRefunded (contractId : bytes32)
(* MonadBridge *)
| IncomingOrderProcessed (ethereumOrderHash monadOrderHash : bytes32)
    (monadReceiver tokenIn tokenOut : address) (amountIn amountOut : uint256)
    (hashlock : bytes32) (timelock : uint256)
| IncomingOrderFulfilled (ethereumOrderHash monadOrderHash secret : bytes32)
    (fulfiller : address)
| OutgoingOrderCreated (orderHash : bytes32) (maker tokenIn tokenOut : address)
    (amountIn amountOut : uint256) (hashlock : bytes32) (timelock : uint256)
    (targetChainId : uint256) (ethereumReceiver : address)
(* FusionMonadAdapter *)
| CrossChainOrderCreated (orderHash : bytes32) (maker tokenIn tokenOut : address)
    (amountIn amountOut : uint256) (hashlock : bytes32) (timelock : uint256)
    (targetChainId : uint256) (monadReceiver : address)
| CrossChainOrderFulfilled (orderHash secret : bytes32) (fulfiller : address)
| CrossChainOrderRefunded (orderHash : bytes32) (maker : address)
(* both bridges *)
| SecretGenerated (orderHash secret : bytes32).

(** Call context: [address(this)], [msg.*] and [block.*]. *)
Record Ctx : Type := mkCtx {
  this : address;
  msg_sender : address;
  msg_value : uint256;
  block_timestamp : uint256;
  block_difficulty : uint256
}.

(** ** The contract monad *)

Section SolMonad.
Context {EX : Extern}.

(** What a call can read and write: the storage of the contract(s), the
    outside world and the log of emitted events (emitter, event). *)
Record Machine (S : Type) : Type := mkMachine {
  storage : S;
  world : World;
  log : list (address * Event)
}.
Arguments mkMachine {S}.
Arguments storage {S}.
Arguments world {S}.
Arguments log {S}.

(** A revert discards every change, so a reverted call carries no state.
    External calls are taken not to call back into the contracts under
    study, so the [nonReentrant] guard of OpenZeppelin, which every entry
    point below carries, never fires and is not written out. *)
Definition Sol (S A : Type) : Type := Machine S -> result (A * Machine S).

Definition ret {S A} (a : A) : Sol S A := fun m => Ok (a, m).

Definition bind {S A B} (c : Sol S A) (k : A -> Sol S B) : Sol S B :=
  fun m => match c m with
           | Ok (a, m') => k a m'
           | Revert e => Revert e
           end.

Definition revert {S A} (e : Error) : Sol S A := fun _ => Revert e.

Definition require {S} (cond : bool) (reason : string) : Sol S unit :=
  if cond then ret tt else revert (Require reason).

Definition load {S} : Sol S S := fun m => Ok (storage m, m).

Definition store {S} (s : S) : Sol S unit :=
  fun m => Ok (tt, mkMachine s (world m) (log m)).

Definition emit {S} (c : Ctx) (e : Event) : Sol S unit :=
  fun m => Ok (tt, mkMachine (storage m) (world m) (log m ++ [(this c, e)])).

(** An external call whose failure reverts the caller (SafeERC20, or a
    call carrying value into a payable function). *)
Definition external {S} (c : ExtCall) : Sol S unit :=
  fun m => match ext_call c (world m) with
           | Some w => Ok (tt, mkMachine (storage m) w (log m))
           | None => Revert (Custom "ExternalCallFailed" [])
           end.

(** A low-level [addr.call{value: v}("")]: failure is returned, not raised. *)
Definition low_level_call {S} (c : ExtCall) : Sol S bool :=
  fun m => match ext_call c (world m) with
           | Some w => Ok (true, mkMachine (storage m) w (log m))
           | None => Ok (false, m)
           end.

(** Checked arithmetic of Solidity 0.8. *)
Definition checked_add {S} (a b : uint256) : Sol S uint256 :=
  if a + b <=? MAX_UINT256 then ret (a + b) else revert (Panic 17).

(** Entry of a function that is not [payable]. *)
Definition nonpayable {S} (c : Ctx) : Sol S unit :=
  if msg_value c =? 0 then ret tt else revert NotPayable.

(** Entry of a [payable] function: the value sent arrives with the call. *)
Definition payable {S} (c : Ctx) : Sol S unit :=
  if msg_value c =? 0 then ret tt
  else external (EthSend (msg_sender c) (this c) (msg_value c)).

(** Run a call of another contract whose storage is the second component
    of a deployment's storage. *)
Definition call_snd {S1 S2 A} (c : Sol S2 A) : Sol (S1 * S2) A :=
  fun m =>
    match c (mkMachine (snd (storage m)) (world m) (log m)) with
    | Ok (a, m') =>
        Ok (a, mkMachine (fst (storage m), storage m') (world m') (log m'))
    | Revert e => Revert e
    end.

(** Run a call of the contract whose storage is the first component. *)
Definition call_fst {S1 S2 A} (c : Sol S1 A) : Sol (S1 * S2) A :=
  fun m =>
    match c (mkMachine (fst (storage m)) (world m) (log m)) with
    | Ok (a, m') =>
        Ok (a, mkMachine (storage m', snd (storage m)) (world m') (log m'))
    | Revert e => Revert e
    end.
End SolMonad.

Arguments mkMachine {EX S}.
Arguments storage {EX S}.
Arguments world {EX S}.
Arguments log {EX S}.

Notation "'let*' x ':=' c 'in' k" := (bind c (fun x => k))
  (at level 10, x name, c at level 100, k at level 200).
Notation "c1 '>>>' c2" := (bind c1 (fun _ => c2))
  (at level 100, c2 at level 200, right associativity).

(** ** HTLC.sol: one escrow per deployed contract *)

Module HTLC.
Section HTLC.
Context {HS : Hashes} {EX : Extern}.

Inductive State : Type := Empty | Locked | Claimed | Refunded.

Definition State_eqb (a b : State) : bool :=
  match a, b with
  | Empty, Empty | Locked, Locked | Claimed, Claimed | Refunded, Refunded => true
  | _, _ => false
  end.

Definition State_index (s : State) : Z :=
  match s with Empty => 0 | Locked => 1 | Claimed => 2 | Refunded => 3 end.

Record Storage : Type := mkStorage {
  sender : address;
  receiver : address;
  hashlock : bytes32;
  timelock : uint256;
  token : address;
  lockedAmount : uint256;
  state : State
}.

Definition set_locked (s : Storage) (amount : uint256) (st : State) : Storage :=
  mkStorage (sender s) (receiver s) (hashlock s) (timelock s) (token s) amount st.

Definition constructor (c : Ctx) (_receiver : address) (_hashlock : bytes32)
    (_timelock : uint256) (_token : address) : result Storage :=
  if _receiver =? 0 then Revert (Custom "InvalidReceiver" [])
  else if _hashlock =? 0 then Revert (Custom "InvalidHashlock" [])
  else if _timelock <=? block_timestamp c then Revert (Custom "TimelockInPast" [])
  else Ok (mkStorage (msg_sender c) _receiver _hashlock _timelock _token 0 Empty).

Definition WrongState (expected actual : State) : Error :=
  Custom "WrongState" [State_index expected; State_index actual].

Definition lock (c : Ctx) : Sol Storage unit :=
  payable c >>>
  let* s := load in
  if negb (token s =? 0) then revert (WrongState Empty (state s))
  else if negb (State_eqb (state s) Empty) then revert (WrongState Empty (state s))
  else if msg_value c =? 0 then revert (Custom "ZeroAmount" [])
  else
    store (set_locked s (msg_value c) Locked) >>>
    emit c (EvLocked (msg_sender c) (receiver s) (msg_value c) 0).

Definition lockERC20 (c : Ctx) (amount : uint256) : Sol Storage unit :=
  nonpayable c >>>
  let* s := load in
  if token s =? 0 then revert (WrongState Empty (state s))
  else if negb (State_eqb (state s) Empty) then revert (WrongState Empty (state s))
  else if amount =? 0 then revert (Custom "ZeroAmount" [])
  else
    store (set_locked s amount Locked) >>>
    external (Erc20TransferFrom (token s) (this c) (msg_sender c) (this c) amount) >>>
    emit c (EvLocked (msg_sender c) (receiver s) amount (token s)).

(** The call that pays [amount] out of the escrow to [to]. *)
Definition payout (c : Ctx) (s : Storage) (to : address) (amount : uint256) : ExtCall :=
  if token s =? 0 then EthSend (this c) to amount
  else Erc20Transfer (token s) (this c) to amount.

Definition claim (c : Ctx) (secret : bytes32) : Sol Storage unit :=
  nonpayable c >>>
  let* s := load in
  if negb (State_eqb (state s) Locked) then revert (Custom "NotLocked" [])
  else if negb (sha256 [AB32 secret] =? hashlock s) then revert (Custom "WrongHashlock" [])
  else
    let amount := lockedAmount s in
    store (set_locked s 0 Claimed) >>>
    (if token s =? 0 then
       let* ok := low_level_call (EthSend (this c) (receiver s) amount) in
       require ok "ETH transfer failed"
     else external (Erc20Transfer (token s) (this c) (receiver s) amount)) >>>
    emit c (EvClaimed (receiver s) secret).

Definition refund (c : Ctx) : Sol Storage unit :=
  nonpayable c >>>
  let* s := load in
  if negb (State_eqb (state s) Locked) then revert (Custom "NotLocked" [])
  else if block_timestamp c <? timelock s
  then revert (Custom "TimelockNotExpired" [block_timestamp c; timelock s])
  else
    let amount := lockedAmount s in
    store (set_locked s 0 Refunded) >>>
    (if token s =? 0 then
       let* ok := low_level_call (EthSend (this c) (sender s) amount) in
       require ok "ETH refund failed"
     else external (Erc20Transfer (token s) (this c) (sender s) amount)) >>>
    emit c (EvRefunded (sender s)).

Definition getState (s : Storage) : State := state s.

(** The state-changing entry points of the contract, and a call of one. *)
Inductive Call : Type :=
| Lock
| LockERC20 (amount : uint256)
| Claim (secret : bytes32)
| Refund.

Definition call (c : Ctx) (op : Call) : Sol Storage unit :=
  match op with
  | Lock => lock c
  | LockERC20 amount => lockERC20 c amount
  | Claim secret => claim c secret
  | Refund => refund c
  end.
End HTLC.
End HTLC.

(** ** Solidity mappings: every key is set, unset ones hold the zero value *)

Definition mapping_get {V : Type} (zero : V) (m : gmap Z V) (k : Z) : V :=
  default zero (m !! k).

(** ** IHTLC.sol: the interface both hash-time-locked escrows implement *)

Module IHTLC.
Record HTLCData : Type := mkHTLCData {
  sender : address;
  receiver : address;
  token : address;
  amount : uint256;
  hashlock : bytes32;
  timelock : uint256;
  withdrawn : bool;
  refunded : bool;
  createdAt : uint256
}.

(** The value of an unset mapping entry. *)
Definition HTLCData_zero : HTLCData :=
  mkHTLCData 0 0 0 0 0 0 false false 0.

Class Impl {EX : Extern} : Type := {
  HStore : Type;
  newContract : Ctx -> address -> bytes32 -> uint256 -> Sol HStore bytes32;
  newContractERC20 :
    Ctx -> address -> bytes32 -> uint256 -> address -> uint256 -> Sol HStore bytes32;
  withdraw : Ctx -> bytes32 -> bytes32 -> Sol HStore unit;
  refund : Ctx -> bytes32 -> Sol HStore unit;
  getContract : HStore -> bytes32 -> HTLCData
}.
End IHTLC.

(** ** MonadHTLC.sol *)

Module MonadHTLC.
Import IHTLC.

(** [mapping(bytes32 => HTLCData) public contracts] is the whole storage. *)
Abbreviation Storage := (gmap Z HTLCData).

Section MonadHTLC.
Context {HS : Hashes} {EX : Extern}.

Definition contracts (s : Storage) (id : bytes32) : HTLCData :=
  mapping_get HTLCData_zero s id.

Definition _contractExists (s : Storage) (_contractId : bytes32) : bool :=
  negb (sender (contracts s _contractId) =? 0).

Definition fundsSent (c : Ctx) : Sol Storage unit :=
  require (0 <? msg_value c) "funds must be sent".

Definition futureTimelock (c : Ctx) (_time : uint256) : Sol Storage unit :=
  require (block_timestamp c <? _time) "timelock time must be in the future".

Definition contractExists (_contractId : bytes32) : Sol Storage unit :=
  let* s := load in
  require (_contractExists s _contractId) "contract does not exist".

Definition hashlockMatches (_contractId _secret : bytes32) : Sol Storage unit :=
  let* s := load in
  require (hashlock (contracts s _contractId) =? keccak256 [AB32 _secret])
    "hashlock hash does not match".

Definition withdrawable (c : Ctx) (_contractId : bytes32) : Sol Storage unit :=
  let* s := load in
  require (receiver (contracts s _contractId) =? msg_sender c)
    "withdrawable: not receiver" >>>
  require (Bool.eqb (withdrawn (contracts s _contractId)) false)
    "withdrawable: already withdrawn" >>>
  require (block_timestamp c <? timelock (contracts s _contractId))
    "withdrawable: timelock time must be in the future".

Definition refundable (c : Ctx) (_contractId : bytes32) : Sol Storage unit :=
  let* s := load in
  require (sender (contracts s _contractId) =? msg_sender c)
    "refundable: not sender" >>>
  require (Bool.eqb (refunded (contracts s _contractId)) false)
    "refundable: already refunded" >>>
  require (Bool.eqb (withdrawn (contracts s _contractId)) false)
    "refundable: already withdrawn" >>>
  require (timelock (contracts s _contractId) <=? block_timestamp c)
    "refundable: timelock not yet passed".

Definition newContract (c : Ctx) (_receiver : address) (_hashlock : bytes32)
    (_timelock : uint256) : Sol Storage bytes32 :=
  payable c >>>
  fundsSent c >>>
  futureTimelock c _timelock >>>
  let contractId :=
    keccak256 [AAddr (msg_sender c); AAddr _receiver; AUint (msg_value c);
               AB32 _hashlock; AUint _timelock; AUint (block_timestamp c)] in
  let* s := load in
  require (negb (_contractExists s contractId)) "contract already exists" >>>
  store (<[contractId :=
            mkHTLCData (msg_sender c) _receiver 0 (msg_value c) _hashlock _timelock
              false false (block_timestamp c)]> s) >>>
  emit c (HTLCCreated contractId (msg_sender c) _receiver 0 (msg_value c)
            _hashlock _timelock) >>>
  ret contractId.

Definition newContractERC20 (c : Ctx) (_receiver : address) (_hashlock : bytes32)
    (_timelock : uint256) (_token : address) (_amount : uint256)
    : Sol Storage bytes32 :=
  nonpayable c >>>
  futureTimelock c _timelock >>>
  require (0 <? _amount) "token amount must be greater than 0" >>>
  require (negb (_token =? 0)) "token address cannot be zero" >>>
  let contractId :=
    keccak256 [AAddr (msg_sender c); AAddr _receiver; AAddr _token; AUint _amount;
               AB32 _hashlock; AUint _timelock; AUint (block_timestamp c)] in
  let* s := load in
  require (negb (_contractExists s contractId)) "contract already exists" >>>
  store (<[contractId :=
            mkHTLCData (msg_sender c) _receiver _token _amount _hashlock _timelock
              false false (block_timestamp c)]> s) >>>
  external (Erc20TransferFrom _token (this c) (msg_sender c) (this c) _amount) >>>
  emit c (HTLCCreated contractId (msg_sender c) _receiver _token _amount
            _hashlock _timelock) >>>
  ret contractId.

Definition set_withdrawn (h : HTLCData) : HTLCData :=
  mkHTLCData (sender h) (receiver h) (token h) (amount h) (hashlock h) (timelock h)
    true (refunded h) (createdAt h).

Definition set_refunded (h : HTLCData) : HTLCData :=
  mkHTLCData (sender h) (receiver h) (token h) (amount h) (hashlock h) (timelock h)
    (withdrawn h) true (createdAt h).

(** The call that pays an escrow's amount to [to]. *)
Definition payout (c : Ctx) (h : HTLCData) (to : address) : ExtCall :=
  if token h =? 0 then EthSend (this c) to (amount h)
  else Erc20Transfer (token h) (this c) to (amount h).

Definition withdraw (c : Ctx) (_contractId _secret : bytes32) : Sol Storage unit :=
  nonpayable c >>>
  contractExists _contractId >>>
  hashlockMatches _contractId _secret >>>
  withdrawable c _contractId >>>
  let* s := load in
  let htlc := set_withdrawn (contracts s _contractId) in
  store (<[_contractId := htlc]> s) >>>
  (if token htlc =? 0 then
     let* success := low_level_call (EthSend (this c) (receiver htlc) (amount htlc)) in
     require success "Native token transfer failed"
   else external (Erc20Transfer (token htlc) (this c) (receiver htlc) (amount htlc))) >>>
  emit c (HTLCWithdrawn _contractId _secret).

Definition refund (c : Ctx) (_contractId : bytes32) : Sol Storage unit :=
  nonpayable c >>>
  contractExists _contractId >>>
  refundable c _contractId >>>
  let* s := load in
  let htlc := set_refunded (contracts s _contractId) in
  store (<[_contractId := htlc]> s) >>>
  (if token htlc =? 0 then
     let* success := low_level_call (EthSend (this c) (sender htlc) (amount htlc)) in
     require success "Native token refund failed"
   else external (Erc20Transfer (token htlc) (this c) (sender htlc) (amount htlc))) >>>
  emit c (HTLCRefunded _contractId).

Definition getContract (s : Storage) (_contractId : bytes32) : HTLCData :=
  contracts s _contractId.

Definition isWithdrawable (c : Ctx) (s : Storage) (_contractId : bytes32) : result bool :=
  if _contractExists s _contractId then
    let htlc := contracts s _contractId in
    Ok (negb (withdrawn htlc) && negb (refunded htlc)
        && (block_timestamp c <? timelock htlc))
  else Revert (Require "contract does not exist").

Definition isRefundable (c : Ctx) (s : Storage) (_contractId : bytes32) : result bool :=
  if _contractExists s _contractId then
    let htlc := contracts s _contractId in
    Ok (negb (withdrawn htlc) && negb (refunded htlc)
        && (timelock htlc <=? block_timestamp c))
  else Revert (Require "contract does not exist").

(** An escrow is still locked when it is neither withdrawn nor refunded
    (the test of [isWithdrawable] and [isRefundable]). *)
Definition still_locked (h : HTLCData) : bool :=
  negb (withdrawn h) && negb (refunded h).

Definition getRemainingTime (c : Ctx) (s : Storage) (_contractId : bytes32)
    : result uint256 :=
  if _contractExists s _contractId then
    let htlc := contracts s _contractId in
    if timelock htlc <=? block_timestamp c then Ok 0
    else Ok (timelock htlc - block_timestamp c)
  else Revert (Require "contract does not exist").

(** The identifier [newContract] derives from its arguments and the block. *)
Definition native_id (c : Ctx) (_receiver : address) (_hashlock : bytes32)
    (_timelock : uint256) : bytes32 :=
  keccak256 [AAddr (msg_sender c); AAddr _receiver; AUint (msg_value c);
             AB32 _hashlock; AUint _timelock; AUint (block_timestamp c)].

(** The identifier [newContractERC20] derives. *)
Definition erc20_id (c : Ctx) (_receiver : address) (_hashlock : bytes32)
    (_timelock : uint256) (_token : address) (_amount : uint256) : bytes32 :=
  keccak256 [AAddr (msg_sender c); AAddr _receiver; AAddr _token; AUint _amount;
             AB32 _hashlock; AUint _timelock; AUint (block_timestamp c)].

Definition impl : Impl :=
  Build_Impl EX Storage newContract newContractERC20 withdraw refund getContract.
End MonadHTLC.
End MonadHTLC.

(** ** FusionMonadAdapter.sol *)

Module FusionMonadAdapter.

Record CrossChainOrder : Type := mkCrossChainOrder {
orderHash : bytes32;
tokenIn : address;
tokenOut : address;
amountIn : uint256;
amountOut : uint256;
hashlock : bytes32;
timelock : uint256;
maker : address;
monadReceiver : address;
chainId : uint256;
isActive : bool;
isFulfilled : bool;
createdAt : uint256;
htlcContractId : bytes32
}.

Definition CrossChainOrder_zero : CrossChainOrder :=
mkCrossChainOrder 0 0 0 0 0 0 0 0 0 0 false false 0 0.

Record Storage : Type := mkStorage {
orders : gmap Z CrossChainOrder;
userOrders : gmap Z (list bytes32);
supportedChains : gmap Z bool;
chainRelayers : gmap Z address;
htlcContract : address;
defaultTimelock : uint256;
minTimelock : uint256;
maxTimelock : uint256;
owner : address
}.

Definition set_orders (s : Storage) (o : gmap Z CrossChainOrder)
  (u : gmap Z (list bytes32)) : Storage :=
mkStorage o u (supportedChains s) (chainRelayers s) (htlcContract s)
  (defaultTimelock s) (minTimelock s) (maxTimelock s) (owner s).

Definition set_supportedChains (s : Storage) (m : gmap Z bool) : Storage :=
mkStorage (orders s) (userOrders s) m (chainRelayers s) (htlcContract s)
  (defaultTimelock s) (minTimelock s) (maxTimelock s) (owner s).

Definition set_timelocks (s : Storage) (mn mx df : uint256) : Storage :=
mkStorage (orders s) (userOrders s) (supportedChains s) (chainRelayers s)
  (htlcContract s) df mn mx (owner s).

Definition hours : Z := 3600.
Definition days : Z := 86400.

(** State left by the constructor, deployed by [msg.sender]. *)
Definition constructor (c : Ctx) (_htlcContract : address) : result Storage :=
if _htlcContract =? 0 then Revert (Require "Invalid HTLC contract address")
else Ok (mkStorage ∅ ∅ (<[11155111 := true]> (<[1 := true]> ∅)) ∅ _htlcContract
           (24 * hours) (1 * hours) (7 * days) (msg_sender c)).

Section FusionMonadAdapter.
Context {HS : Hashes} {EX : Extern} {EthereumHTLC : IHTLC.Impl}.

(** Storage of the deployment: the adapter and the EthereumHTLC it drives. *)
Definition Deployment : Type := (Storage * IHTLC.HStore)%type.

Definition self : Sol Deployment Storage := call_fst load.

(** Context of a call made by the adapter into its HTLC contract. *)
Definition htlc_ctx (c : Ctx) (s : Storage) (value : uint256) : Ctx :=
  mkCtx (htlcContract s) (this c) value (block_timestamp c) (block_difficulty c).

Definition _storeSecretForRelayer (c : Ctx) (orderHash secret : bytes32)
    : Sol Deployment unit :=
  emit c (SecretGenerated orderHash secret).

Definition createCrossChainOrder (c : Ctx) (tokenIn tokenOut : address)
    (amountIn amountOut : uint256) (monadReceiver : address)
    (targetChainId customTimelock : uint256) : Sol Deployment bytes32 :=
  nonpayable c >>>
  let* s := self in
  require (mapping_get false (supportedChains s) targetChainId)
    "Unsupported target chain" >>>
  require ((0 <? amountIn) && (0 <? amountOut)) "Invalid amounts" >>>
  require (negb (monadReceiver =? 0)) "Invalid receiver address" >>>
  require (negb (tokenIn =? 0)) "Invalid input token" >>>
  require (negb (tokenOut =? 0)) "Invalid output token" >>>
  let timelock := if customTimelock =? 0 then defaultTimelock s else customTimelock in
  require ((minTimelock s <=? timelock) && (timelock <=? maxTimelock s))
    "Invalid timelock" >>>
  let secret :=
    keccak256 [AAddr (msg_sender c); AUint (block_timestamp c);
               AUint (block_difficulty c); AUint amountIn; AUint amountOut] in
  let hashlock := keccak256 [AB32 secret] in
  let* deadline := checked_add (block_timestamp c) timelock in
  let orderHash :=
    keccak256 [AAddr (msg_sender c); AAddr tokenIn; AAddr tokenOut; AUint amountIn;
               AUint amountOut; AB32 hashlock; AUint deadline; AUint targetChainId;
               AAddr monadReceiver] in
  require (maker (mapping_get CrossChainOrder_zero (orders s) orderHash) =? 0)
    "Order already exists" >>>
  let* htlcContractId :=
    (if tokenIn =? 0 then
       require (msg_value c =? amountIn) "Incorrect ETH amount" >>>
       call_snd (IHTLC.newContract (htlc_ctx c s amountIn) (this c) hashlock deadline)
     else
       external (Erc20TransferFrom tokenIn (this c) (msg_sender c) (this c) amountIn) >>>
       external (Erc20Approve tokenIn (this c) (htlcContract s) amountIn) >>>
       call_snd (IHTLC.newContractERC20 (htlc_ctx c s 0) (this c) hashlock deadline
                   tokenIn amountIn)) in
  call_fst (store (set_orders s
    (<[orderHash :=
        mkCrossChainOrder orderHash tokenIn tokenOut amountIn amountOut hashlock
          deadline (msg_sender c) monadReceiver targetChainId true false
          (block_timestamp c) htlcContractId]> (orders s))
    (<[msg_sender c :=
        mapping_get [] (userOrders s) (msg_sender c) ++ [orderHash]]>
       (userOrders s)))) >>>
  emit c (CrossChainOrderCreated orderHash (msg_sender c) tokenIn tokenOut amountIn
            amountOut hashlock deadline targetChainId monadReceiver) >>>
  _storeSecretForRelayer c orderHash secret >>>
  ret orderHash.

Definition set_fulfilled (o : CrossChainOrder) : CrossChainOrder :=
  mkCrossChainOrder (orderHash o) (tokenIn o) (tokenOut o) (amountIn o) (amountOut o)
    (hashlock o) (timelock o) (maker o) (monadReceiver o) (chainId o) false true
    (createdAt o) (htlcContractId o).

Definition set_inactive (o : CrossChainOrder) : CrossChainOrder :=
  mkCrossChainOrder (orderHash o) (tokenIn o) (tokenOut o) (amountIn o) (amountOut o)
    (hashlock o) (timelock o) (maker o) (monadReceiver o) (chainId o) false
    (isFulfilled o) (createdAt o) (htlcContractId o).

Definition fulfillOrder (c : Ctx) (_orderHash secret : bytes32) : Sol Deployment unit :=
  nonpayable c >>>
  let* s := self in
  let order := mapping_get CrossChainOrder_zero (orders s) _orderHash in
  require (negb (maker order =? 0)) "Order does not exist" >>>
  require (isActive order) "Order is not active" >>>
  require (keccak256 [AB32 secret] =? hashlock order) "Invalid secret" >>>
  call_fst (store (set_orders s (<[_orderHash := set_fulfilled order]> (orders s))
                     (userOrders s))) >>>
  call_snd (IHTLC.withdraw (htlc_ctx c s 0) (htlcContractId order) secret) >>>
  emit c (CrossChainOrderFulfilled _orderHash secret (msg_sender c)).

Definition refund (c : Ctx) (_orderHash : bytes32) : Sol Deployment unit :=
  nonpayable c >>>
  let* s := self in
  let order := mapping_get CrossChainOrder_zero (orders s) _orderHash in
  require (negb (maker order =? 0)) "Order does not exist" >>>
  require (maker order =? msg_sender c) "Only maker can refund" >>>
  require (negb (isFulfilled order)) "Order already fulfilled" >>>
  require (timelock order <=? block_timestamp c) "Timelock not expired" >>>
  call_fst (store (set_orders s (<[_orderHash := set_inactive order]> (orders s))
                     (userOrders s))) >>>
  call_snd (IHTLC.refund (htlc_ctx c s 0) (htlcContractId order)) >>>
  emit c (CrossChainOrderRefunded _orderHash (msg_sender c)).

(** The escrow contract as the adapter calls it from a state [m]. *)
Definition escrow_side (m : Machine Deployment) : Machine IHTLC.HStore :=
  mkMachine (snd (storage m)) (world m) (log m).

Definition getOrder (s : Storage) (orderHash : bytes32) : CrossChainOrder :=
  mapping_get CrossChainOrder_zero (orders s) orderHash.

Definition getUserOrders (s : Storage) (user : address) : list bytes32 :=
  mapping_get [] (userOrders s) user.

Definition onlyOwner (c : Ctx) : Sol Deployment unit :=
  let* s := self in
  require (owner s =? msg_sender c) "Ownable: caller is not the owner".

Definition addSupportedChain (c : Ctx) (chainId : uint256) : Sol Deployment unit :=
  nonpayable c >>>
  onlyOwner c >>>
  let* s := self in
  call_fst (store (set_supportedChains s (<[chainId := true]> (supportedChains s)))).

Definition removeSupportedChain (c : Ctx) (chainId : uint256) : Sol Deployment unit :=
  nonpayable c >>>
  onlyOwner c >>>
  let* s := self in
  call_fst (store (set_supportedChains s (<[chainId := false]> (supportedChains s)))).

Definition updateTimelockParams (c : Ctx) (_minTimelock _maxTimelock _defaultTimelock : uint256)
    : Sol Deployment unit :=
  nonpayable c >>>
  onlyOwner c >>>
  require (_minTimelock <? _maxTimelock) "Invalid timelock range" >>>
  require ((_minTimelock <=? _defaultTimelock) && (_defaultTimelock <=? _maxTimelock))
    "Invalid default timelock" >>>
  let* s := self in
  call_fst (store (set_timelocks s _minTimelock _maxTimelock _defaultTimelock)).
Definition pause (c : Ctx) : Sol Deployment unit :=
  nonpayable c >>>
  onlyOwner c.

(** The calls of the adapter's own functions that change state. *)
Inductive Call : Type :=
| CreateCrossChainOrder (tokenIn tokenOut : address) (amountIn amountOut : uint256)
    (monadReceiver : address) (targetChainId customTimelock : uint256)
| FulfillOrder (orderHash secret : bytes32)
| Refund (orderHash : bytes32)
| AddSupportedChain (chainId : uint256)
| RemoveSupportedChain (chainId : uint256)
| UpdateTimelockParams (_minTimelock _maxTimelock _defaultTimelock : uint256)
| Pause.

Definition call (c : Ctx) (op : Call) : Sol Deployment unit :=
  match op with
  | CreateCrossChainOrder tokenIn tokenOut amountIn amountOut monadReceiver
      targetChainId customTimelock =>
      createCrossChainOrder c tokenIn tokenOut amountIn amountOut monadReceiver
        targetChainId customTimelock >>>
      ret tt
  | FulfillOrder orderHash secret => fulfillOrder c orderHash secret
  | Refund orderHash => refund c orderHash
  | AddSupportedChain chainId => addSupportedChain c chainId
  | RemoveSupportedChain chainId => removeSupportedChain c chainId
  | UpdateTimelockParams mn mx df => updateTimelockParams c mn mx df
  | Pause => pause c
  end.
End FusionMonadAdapter.
End FusionMonadAdapter.

(** ** MonadBridge.sol *)

Module MonadBridge.

Module IncomingOrder.
Record t : Type := mk {
  ethereumOrderHash : bytes32;
  tokenIn : address;
  tokenOut : address;
  amountIn : uint256;
  amountOut : uint256;
  hashlock : bytes32;
  timelock : uint256;
  ethereumMaker : address;
  monadReceiver : address;
  fulfilled : bool;
  refunded : bool;
  createdAt : uint256;
  htlcContractId : bytes32;
  fulfiller : address
}.
Definition zero : t := mk 0 0 0 0 0 0 0 0 0 false false 0 0 0.
End IncomingOrder.

Module OutgoingOrder.
Record t : Type := mk {
  orderHash : bytes32;
  tokenIn : address;
  tokenOut : address;
  amountIn : uint256;
  amountOut : uint256;
  hashlock : bytes32;
  timelock : uint256;
  maker : address;
  ethereumReceiver : address;
  isActive : bool;
  targetChainId : uint256;
  htlcContractId : bytes32
}.
Definition zero : t := mk 0 0 0 0 0 0 0 0 0 false 0 0.
End OutgoingOrder.

Record Storage : Type := mkStorage {
incomingOrders : gmap Z IncomingOrder.t;
outgoingOrders : gmap Z OutgoingOrder.t;
userIncomingOrders : gmap Z (list bytes32);
userOutgoingOrders : gmap Z (list bytes32);
supportedChains : gmap Z bool;
chainRelayers : gmap Z address;
authorizedRelayers : gmap Z bool;
htlcContract : address;
defaultTimelock : uint256;
minTimelock : uint256;
maxTimelock : uint256;
owner : address
}.

Definition set_incoming (s : Storage) (o : gmap Z IncomingOrder.t)
  (u : gmap Z (list bytes32)) : Storage :=
mkStorage o (outgoingOrders s) u (userOutgoingOrders s) (supportedChains s)
  (chainRelayers s) (authorizedRelayers s) (htlcContract s) (defaultTimelock s)
  (minTimelock s) (maxTimelock s) (owner s).

Definition set_outgoing (s : Storage) (o : gmap Z OutgoingOrder.t)
  (u : gmap Z (list bytes32)) : Storage :=
mkStorage (incomingOrders s) o (userIncomingOrders s) u (supportedChains s)
  (chainRelayers s) (authorizedRelayers s) (htlcContract s) (defaultTimelock s)
  (minTimelock s) (maxTimelock s) (owner s).

Definition set_authorizedRelayers (s : Storage) (a : gmap Z bool) : Storage :=
mkStorage (incomingOrders s) (outgoingOrders s) (userIncomingOrders s)
  (userOutgoingOrders s) (supportedChains s) (chainRelayers s) a (htlcContract s)
  (defaultTimelock s) (minTimelock s) (maxTimelock s) (owner s).

Definition set_timelocks (s : Storage) (mn mx df : uint256) : Storage :=
mkStorage (incomingOrders s) (outgoingOrders s) (userIncomingOrders s)
  (userOutgoingOrders s) (supportedChains s) (chainRelayers s)
  (authorizedRelayers s) (htlcContract s) df mn mx (owner s).

Definition hours : Z := 3600.
Definition days : Z := 86400.

Definition constructor (c : Ctx) (_htlcContract : address) : result Storage :=
if _htlcContract =? 0 then Revert (Require "Invalid HTLC contract address")
else Ok (mkStorage ∅ ∅ ∅ ∅ (<[11155111 := true]> (<[1 := true]> ∅)) ∅ ∅ _htlcContract
           (24 * hours) (1 * hours) (7 * days) (msg_sender c)).

Section MonadBridge.
Context {HS : Hashes} {EX : Extern}.

(** Storage of the deployment: the bridge and the MonadHTLC it drives. *)
Definition Deployment : Type := (Storage * MonadHTLC.Storage)%type.

Definition self : Sol Deployment Storage := call_fst load.

Definition htlc_ctx (c : Ctx) (s : Storage) (value : uint256) : Ctx :=
  mkCtx (htlcContract s) (this c) value (block_timestamp c) (block_difficulty c).

Definition onlyOwner (c : Ctx) : Sol Deployment unit :=
  let* s := self in
  require (owner s =? msg_sender c) "Ownable: caller is not the owner".

(** [incomingOrders[h]] of a deployment. *)
Definition incoming (m : Machine Deployment) (h : bytes32) : IncomingOrder.t :=
  mapping_get IncomingOrder.zero (incomingOrders (fst (storage m))) h.

(** [outgoingOrders[h]] of a deployment. *)
Definition outgoing (m : Machine Deployment) (h : bytes32) : OutgoingOrder.t :=
  mapping_get OutgoingOrder.zero (outgoingOrders (fst (storage m))) h.

Definition getUserOutgoingOrders (s : Storage) (user : address) : list bytes32 :=
  mapping_get [] (userOutgoingOrders s) user.

Definition onlyAuthorizedRelayer (c : Ctx) : Sol Deployment unit :=
  let* s := self in
  require (mapping_get false (authorizedRelayers s) (msg_sender c))
    "Not authorized relayer".

Definition setRelayerAuthorization (c : Ctx) (relayer : address) (authorized : bool)
    : Sol Deployment unit :=
  nonpayable c >>>
  onlyOwner c >>>
  let* s := self in
  call_fst (store (set_authorizedRelayers s
                     (<[relayer := authorized]> (authorizedRelayers s)))).

Definition updateTimelockParams (c : Ctx) (_minTimelock _maxTimelock _defaultTimelock : uint256)
    : Sol Deployment unit :=
  nonpayable c >>>
  onlyOwner c >>>
  require (_minTimelock <? _maxTimelock) "Invalid timelock range" >>>
  require ((_minTimelock <=? _defaultTimelock) && (_defaultTimelock <=? _maxTimelock))
    "Invalid default timelock" >>>
  let* s := self in
  call_fst (store (set_timelocks s _minTimelock _maxTimelock _defaultTimelock)).

Definition processEthereumOrder (c : Ctx) (ethereumOrderHash : bytes32)
    (tokenIn tokenOut : address) (amountIn amountOut : uint256) (hashlock : bytes32)
    (timelock : uint256) (ethereumMaker monadReceiver : address)
    : Sol Deployment unit :=
  nonpayable c >>>
  onlyAuthorizedRelayer c >>>
  let* s := self in
  require (negb (ethereumOrderHash =? 0)) "Invalid Ethereum order hash" >>>
  require (IncomingOrder.ethereumOrderHash
             (mapping_get IncomingOrder.zero (incomingOrders s) ethereumOrderHash) =? 0)
    "Order already processed" >>>
  require (negb (monadReceiver =? 0)) "Invalid receiver address" >>>
  require (negb (tokenOut =? 0)) "Invalid output token" >>>
  require (0 <? amountOut) "Invalid output amount" >>>
  require (block_timestamp c <? timelock) "Invalid timelock" >>>
  let monadOrderHash :=
    keccak256 [AB32 ethereumOrderHash; AAddr tokenOut; AUint amountOut;
               AAddr monadReceiver; AUint (block_timestamp c)] in
  call_fst (store (set_incoming s
    (<[ethereumOrderHash :=
        IncomingOrder.mk ethereumOrderHash tokenIn tokenOut amountIn amountOut
          hashlock timelock ethereumMaker monadReceiver false false
          (block_timestamp c) 0 0]> (incomingOrders s))
    (<[monadReceiver :=
        mapping_get [] (userIncomingOrders s) monadReceiver ++ [ethereumOrderHash]]>
       (userIncomingOrders s)))) >>>
  emit c (IncomingOrderProcessed ethereumOrderHash monadOrderHash monadReceiver
            tokenIn tokenOut amountIn amountOut hashlock timelock).

Definition set_fulfilled (o : IncomingOrder.t) (by_ : address) (id : bytes32)
    : IncomingOrder.t :=
  IncomingOrder.mk (IncomingOrder.ethereumOrderHash o) (IncomingOrder.tokenIn o)
    (IncomingOrder.tokenOut o) (IncomingOrder.amountIn o) (IncomingOrder.amountOut o)
    (IncomingOrder.hashlock o) (IncomingOrder.timelock o)
    (IncomingOrder.ethereumMaker o) (IncomingOrder.monadReceiver o) true
    (IncomingOrder.refunded o) (IncomingOrder.createdAt o) id by_.

Definition fulfillIncomingOrder (c : Ctx) (ethereumOrderHash secret : bytes32)
    : Sol Deployment unit :=
  nonpayable c >>>
  let* s := self in
  let order := mapping_get IncomingOrder.zero (incomingOrders s) ethereumOrderHash in
  require (negb (IncomingOrder.ethereumOrderHash order =? 0)) "Order does not exist" >>>
  require (negb (IncomingOrder.fulfilled order)) "Order already fulfilled" >>>
  require (negb (IncomingOrder.refunded order)) "Order already refunded" >>>
  require (block_timestamp c <? IncomingOrder.timelock order) "Order expired" >>>
  require (keccak256 [AB32 secret] =? IncomingOrder.hashlock order) "Invalid secret" >>>
  let* htlcContractId :=
    (if IncomingOrder.tokenOut order =? 0 then
       require (msg_value c =? IncomingOrder.amountOut order)
         "Incorrect native token amount" >>>
       call_snd (MonadHTLC.newContract (htlc_ctx c s (IncomingOrder.amountOut order))
                   (IncomingOrder.monadReceiver order) (IncomingOrder.hashlock order)
                   (IncomingOrder.timelock order))
     else
       external (Erc20TransferFrom (IncomingOrder.tokenOut order) (this c)
                   (msg_sender c) (this c) (IncomingOrder.amountOut order)) >>>
       external (Erc20Approve (IncomingOrder.tokenOut order) (this c) (htlcContract s)
                   (IncomingOrder.amountOut order)) >>>
       call_snd (MonadHTLC.newContractERC20 (htlc_ctx c s 0)
                   (IncomingOrder.monadReceiver order) (IncomingOrder.hashlock order)
                   (IncomingOrder.timelock order) (IncomingOrder.tokenOut order)
                   (IncomingOrder.amountOut order))) in
  call_fst (store (set_incoming s
    (<[ethereumOrderHash := set_fulfilled order (msg_sender c) htlcContractId]>
       (incomingOrders s))
    (userIncomingOrders s))) >>>
  emit c (IncomingOrderFulfilled ethereumOrderHash ethereumOrderHash secret
            (msg_sender c)).

Definition _storeSecretForRelayer (c : Ctx) (orderHash secret : bytes32)
    : Sol Deployment unit :=
  emit c (SecretGenerated orderHash secret).

Definition createOutgoingOrder (c : Ctx) (tokenIn tokenOut : address)
    (amountIn amountOut : uint256) (ethereumReceiver : address)
    (targetChainId customTimelock : uint256) : Sol Deployment bytes32 :=
  nonpayable c >>>
  let* s := self in
  require (mapping_get false (supportedChains s) targetChainId)
    "Unsupported target chain" >>>
  require ((0 <? amountIn) && (0 <? amountOut)) "Invalid amounts" >>>
  require (negb (ethereumReceiver =? 0)) "Invalid receiver address" >>>
  require (negb (tokenIn =? 0)) "Invalid input token" >>>
  require (negb (tokenOut =? 0)) "Invalid output token" >>>
  let timelock := if customTimelock =? 0 then defaultTimelock s else customTimelock in
  require ((minTimelock s <=? timelock) && (timelock <=? maxTimelock s))
    "Invalid timelock" >>>
  let secret :=
    keccak256 [AAddr (msg_sender c); AUint (block_timestamp c);
               AUint (block_difficulty c); AUint amountIn; AUint amountOut] in
  let hashlock := keccak256 [AB32 secret] in
  let* deadline := checked_add (block_timestamp c) timelock in
  let orderHash :=
    keccak256 [AAddr (msg_sender c); AAddr tokenIn; AAddr tokenOut; AUint amountIn;
               AUint amountOut; AB32 hashlock; AUint deadline; AUint targetChainId;
               AAddr ethereumReceiver] in
  require (OutgoingOrder.maker
             (mapping_get OutgoingOrder.zero (outgoingOrders s) orderHash) =? 0)
    "Order already exists" >>>
  let* htlcContractId :=
    (if tokenIn =? 0 then
       require (msg_value c =? amountIn) "Incorrect native token amount" >>>
       call_snd (MonadHTLC.newContract (htlc_ctx c s amountIn) (this c) hashlock deadline)
     else
       external (Erc20TransferFrom tokenIn (this c) (msg_sender c) (this c) amountIn) >>>
       external (Erc20Approve tokenIn (this c) (htlcContract s) amountIn) >>>
       call_snd (MonadHTLC.newContractERC20 (htlc_ctx c s 0) (this c) hashlock deadline
                   tokenIn amountIn)) in
  call_fst (store (set_outgoing s
    (<[orderHash :=
        OutgoingOrder.mk orderHash tokenIn tokenOut amountIn amountOut hashlock
          deadline (msg_sender c) ethereumReceiver true targetChainId
          htlcContractId]> (outgoingOrders s))
    (<[msg_sender c :=
        mapping_get [] (userOutgoingOrders s) (msg_sender c) ++ [orderHash]]>
       (userOutgoingOrders s)))) >>>
  emit c (OutgoingOrderCreated orderHash (msg_sender c) tokenIn tokenOut amountIn
            amountOut hashlock deadline targetChainId ethereumReceiver) >>>
  _storeSecretForRelayer c orderHash secret >>>
  ret orderHash.

(** The calls of the bridge's own functions that change its orders or
    parameters; [setRelayerAuthorization] is left to the owner's side. *)
Inductive Call : Type :=
| ProcessEthereumOrder (ethereumOrderHash : bytes32) (tokenIn tokenOut : address)
    (amountIn amountOut : uint256) (hashlock : bytes32) (timelock : uint256)
    (ethereumMaker monadReceiver : address)
| FulfillIncomingOrder (ethereumOrderHash secret : bytes32)
| CreateOutgoingOrder (tokenIn tokenOut : address) (amountIn amountOut : uint256)
    (ethereumReceiver : address) (targetChainId customTimelock : uint256)
| UpdateTimelockParams (_minTimelock _maxTimelock _defaultTimelock : uint256).

Definition call (c : Ctx) (op : Call) : Sol Deployment unit :=
  match op with
  | ProcessEthereumOrder ethereumOrderHash tokenIn tokenOut amountIn amountOut hashlock
      timelock ethereumMaker monadReceiver =>
      processEthereumOrder c ethereumOrderHash tokenIn tokenOut amountIn amountOut
        hashlock timelock ethereumMaker monadReceiver
  | FulfillIncomingOrder ethereumOrderHash secret =>
      fulfillIncomingOrder c ethereumOrderHash secret
  | CreateOutgoingOrder tokenIn tokenOut amountIn amountOut ethereumReceiver
      targetChainId customTimelock =>
      createOutgoingOrder c tokenIn tokenOut amountIn amountOut ethereumReceiver
        targetChainId customTimelock >>>
      ret tt
  | UpdateTimelockParams mn mx df => updateTimelockParams c mn mx df
  end.
End MonadBridge.
End MonadBridge.

(** ** Concrete instances used to run the contracts *)

Definition abi_val (x : abi) : Z :=
  match x with AAddr a => a | AUint u => u | AB32 b => b end.

(** A small stand-in for a hash: a polynomial in the packed values. *)
Definition poly_hash (seed : Z) (l : list abi) : Z :=
  fold_left (fun acc x => (acc * 31 + abi_val x) mod 2 ^ 256) l seed.

Definition toy_hashes : Hashes :=
  {| keccak256 := poly_hash 7; sha256 := poly_hash 11 |}.

(** A world in which every external call succeeds and is recorded. *)
Definition trace_world : Extern :=
  {| World := list ExtCall; ext_call := fun c w => Some (w ++ [c]) |}.

(** A world in which every external call fails. *)
Definition closed_world : Extern :=
  {| World := unit; ext_call := fun _ _ => None |}.

(** What a call returned and the state it left, with a default for a revert. *)
Definition value_of {EX : Extern} {S A} (r : result (A * Machine S)) (d : A) : A :=
  match r with Ok (a, _) => a | Revert _ => d end.

Definition machine_of {EX : Extern} {S A} (r : result (A * Machine S)) (d : Machine S)
    : Machine S :=
  match r with Ok (_, m) => m | Revert _ => d end.

(** An HTLC.sol escrow of one native unit (1e18), locked by 0xA11CE for
    0xB0B, as the constructor followed by [lock] leave it. *)
Definition ex_secret : bytes32 := 0x1234.

Definition ex_htlc : HTLC.Storage :=
  HTLC.mkStorage 0xA11CE 0xB0B (@sha256 toy_hashes [AB32 ex_secret])
    1700086400 0 (10 ^ 18) HTLC.Locked.

Definition ex_htlc_machine : @Machine trace_world HTLC.Storage :=
  @mkMachine trace_world _ ex_htlc [] [].

(** A caller that is not the receiver, one day after the timelock. *)
Definition ex_late_stranger : Ctx := mkCtx 0xC0DE 0xBAD 0 1700172800 0.

(** A MonadHTLC escrow of one native unit, created by 0xA11CE for the same
    receiver through [newContract], and its claim by the receiver before the
    timelock. *)
Definition ex_newContract : result (bytes32 * @Machine trace_world MonadHTLC.Storage) :=
  @MonadHTLC.newContract toy_hashes trace_world
    (mkCtx 0xC0DE 0xA11CE (10 ^ 18) 1700000000 0) 0xB0B
    (@keccak256 toy_hashes [AB32 ex_secret]) 1700086400
    (@mkMachine trace_world _ ∅ [] []).

Definition ex_contractId : bytes32 := value_of ex_newContract 0.

Definition ex_monad_htlc_machine : @Machine trace_world MonadHTLC.Storage :=
  machine_of ex_newContract (@mkMachine trace_world _ ∅ [] []).

Definition ex_receiver_in_time : Ctx := mkCtx 0xC0DE 0xB0B 0 1700000060 0.

(** ** The relayer's hand-over of a source order to the target chain

    [EventMonitor.handleCrossChainOrderCreated] takes the fields of a
    [CrossChainOrderCreated] event and [RelayerService.relayEthereumToMonad]
    submits them, unchanged, as the arguments of [processEthereumOrder]. *)

Module Relayer.
Section Relayer.
Context {HS : Hashes} {EX : Extern}.

Definition relayEthereumToMonad (c : Ctx) (event : Event)
    : Sol MonadBridge.Deployment unit :=
  match event with
  | CrossChainOrderCreated orderHash maker tokenIn tokenOut amountIn amountOut
      hashlock timelock _ monadReceiver =>
      MonadBridge.processEthereumOrder c orderHash tokenIn tokenOut amountIn
        amountOut hashlock timelock maker monadReceiver
  | _ => ret tt
  end.
End Relayer.
End Relayer.

(** ** What an observer of the event log can read *)

Definition event_fields (e : Event) : list Z :=
  match e with
  | EvLocked a b c d => [a; b; c; d]
  | EvClaimed a b => [a; b]
  | EvRefunded a => [a]
  | HTLCCreated a b c d e f g => [a; b; c; d; e; f; g]
  | HTLCWithdrawn a b => [a; b]
  | HTLCRefunded a => [a]
  | IncomingOrderProcessed a b c d e f g h i => [a; b; c; d; e; f; g; h; i]
  | IncomingOrderFulfilled a b c d => [a; b; c; d]
  | OutgoingOrderCreated a b c d e f g h i j => [a; b; c; d; e; f; g; h; i; j]
  | CrossChainOrderCreated a b c d e f g h i j => [a; b; c; d; e; f; g; h; i; j]
  | CrossChainOrderFulfilled a b c => [a; b; c]
  | CrossChainOrderRefunded a b => [a; b]
  | SecretGenerated a b => [a; b]
  end.

(** An event carries the preimage of [hashlock] when one of its fields
    hashes to it. *)
Definition carries_preimage {HS : Hashes} (hashlock : bytes32) (e : Event) : bool :=
  existsb (fun f => keccak256 [AB32 f] =? hashlock) (event_fields e).

Definition and_then {A B} (r : result A) (k : A -> result B) : result B :=
  match r with Ok a => k a | Revert e => Revert e end.

(** ** A swap run on concrete data *)

Section Scenario.
#[local] Existing Instance toy_hashes.
#[local] Existing Instance trace_world.

(** Modelled from the spec: EthereumHTLC.sol is imported by
    FusionMonadAdapter.sol but is not among the sources.  Section 6.1 gives
    both chains one HTLC interface (IHTLC.sol here) and MonadHTLC.sol
    declares itself identical in functionality to EthereumHTLC, so the
    MonadHTLC embedding stands in for it in concrete runs.  The theorems on
    the adapter hold for every implementation of the interface. *)
Definition EthereumHTLC_standin : IHTLC.Impl := MonadHTLC.impl.
#[local] Existing Instance EthereumHTLC_standin.

Definition T0 : Z := 1700000000.
Definition adapter_addr : address := 0xADA.
Definition ethereum_htlc_addr : address := 0xE7C.
Definition bridge_addr : address := 0xB1D.
Definition monad_htlc_addr : address := 0x47C.
Definition deployer : address := 0xD0.
Definition maker_addr : address := 0xA11CE.
Definition receiver_addr : address := 0xB0B.
Definition relayer_addr : address := 0x4E1A.
Definition fulfiller_addr : address := 0xF00.
Definition tokenA : address := 0x70CA.
Definition tokenB : address := 0x70CB.

(** The adapter as its constructor leaves it. *)
Definition ex_adapter : FusionMonadAdapter.Storage :=
  FusionMonadAdapter.mkStorage ∅ ∅ (<[11155111 := true]> (<[1 := true]> ∅)) ∅
    ethereum_htlc_addr 86400 3600 604800 deployer.

Definition ex_ethereum : Machine FusionMonadAdapter.Deployment :=
  mkMachine (ex_adapter, (∅ : MonadHTLC.Storage)) [] [].

(** The bridge as its constructor leaves it. *)
Definition ex_bridge : MonadBridge.Storage :=
  MonadBridge.mkStorage ∅ ∅ ∅ ∅ (<[11155111 := true]> (<[1 := true]> ∅)) ∅ ∅
    monad_htlc_addr 86400 3600 604800 deployer.

Definition ex_monad : Machine MonadBridge.Deployment :=
  mkMachine (ex_bridge, (∅ : MonadHTLC.Storage)) [] [].

Definition maker_ctx : Ctx := mkCtx adapter_addr maker_addr 0 T0 0.

(** The maker creates an order of 1e18 of token A for 0.98e18 of token B
    with the default timelock. *)
Definition ex_source : result (bytes32 * Machine FusionMonadAdapter.Deployment) :=
  FusionMonadAdapter.createCrossChainOrder maker_ctx tokenA tokenB (10 ^ 18)
    (98 * 10 ^ 16) receiver_addr 1 0 ex_ethereum.

(** The same order asked for with the native sentinel as input token, once
    sending the amount along and once not. *)
Definition ex_native_with_value : result (bytes32 * Machine FusionMonadAdapter.Deployment) :=
  FusionMonadAdapter.createCrossChainOrder
    (mkCtx adapter_addr maker_addr (10 ^ 18) T0 0) 0 tokenB (10 ^ 18)
    (98 * 10 ^ 16) receiver_addr 1 86400 ex_ethereum.

Definition ex_native_without_value : result (bytes32 * Machine FusionMonadAdapter.Deployment) :=
  FusionMonadAdapter.createCrossChainOrder maker_ctx 0 tokenB (10 ^ 18)
    (98 * 10 ^ 16) receiver_addr 1 86400 ex_ethereum.

(** An order created on the Monad side. *)
Definition ex_outgoing : result (bytes32 * Machine MonadBridge.Deployment) :=
  MonadBridge.createOutgoingOrder (mkCtx bridge_addr maker_addr 0 T0 0) tokenB tokenA
    (10 ^ 18) (98 * 10 ^ 16) receiver_addr 1 7200 ex_monad.

Definition ex_orderHash : bytes32 := value_of ex_source 0.
Definition ex_ethereum' : Machine FusionMonadAdapter.Deployment :=
  machine_of ex_source ex_ethereum.

Definition ex_source_order : FusionMonadAdapter.CrossChainOrder :=
  mapping_get FusionMonadAdapter.CrossChainOrder_zero
    (FusionMonadAdapter.orders (fst (storage ex_ethereum'))) ex_orderHash.

(** The event the relayer picks up, and the secret anyone reads next to it. *)
Definition ex_created : Event :=
  CrossChainOrderCreated ex_orderHash maker_addr tokenA tokenB (10 ^ 18)
    (98 * 10 ^ 16) (FusionMonadAdapter.hashlock ex_source_order)
    (FusionMonadAdapter.timelock ex_source_order) 1 receiver_addr.

Definition find_secret (l : list (address * Event)) : option bytes32 :=
  match List.find (fun ae => match snd ae with
                             | SecretGenerated _ _ => true
                             | _ => false
                             end) l with
  | Some (_, SecretGenerated _ secret) => Some secret
  | _ => None
  end.

Definition ex_leaked_secret : bytes32 := default 0 (find_secret (log ex_ethereum')).

(** The owner authorizes the relayer; the relayer mirrors the source order
    ten seconds after its creation; a fulfiller who read the secret from
    the source log locks token B twenty seconds after it. *)
Definition ex_monad0 : Machine MonadBridge.Deployment :=
  machine_of (MonadBridge.setRelayerAuthorization
                (mkCtx bridge_addr deployer 0 T0 0) relayer_addr true ex_monad)
    ex_monad.

Definition relayer_ctx : Ctx := mkCtx bridge_addr relayer_addr 0 (T0 + 10) 0.
Definition fulfiller_ctx : Ctx := mkCtx bridge_addr fulfiller_addr 0 (T0 + 20) 0.

Definition ex_monad1 : Machine MonadBridge.Deployment :=
  machine_of (Relayer.relayEthereumToMonad relayer_ctx ex_created ex_monad0) ex_monad0.

Definition ex_monad2 : Machine MonadBridge.Deployment :=
  machine_of (MonadBridge.fulfillIncomingOrder fulfiller_ctx ex_orderHash
                ex_leaked_secret ex_monad1) ex_monad1.

(** The escrow locked on the target chain for the order. *)
Definition ex_target_htlc : IHTLC.HTLCData :=
  MonadHTLC.contracts (snd (storage ex_monad2))
    (MonadBridge.IncomingOrder.htlcContractId (MonadBridge.incoming ex_monad2 ex_orderHash)).

Definition ex_outgoing_hash : bytes32 := value_of ex_outgoing 0.
Definition ex_monad_out : Machine MonadBridge.Deployment :=
  machine_of ex_outgoing ex_monad.
Definition ex_outgoing_order : MonadBridge.OutgoingOrder.t :=
  mapping_get MonadBridge.OutgoingOrder.zero
    (MonadBridge.outgoingOrders (fst (storage ex_monad_out))) ex_outgoing_hash.
End Scenario.

(** * The off-chain services (TypeScript) *)

(** ** The world the services talk to *)

Inductive ContractName : Type := fusionAdapter | monadBridge | ethereumHTLC | monadHTLC.

(** A log returned by [queryFilter]: decoded ([args] present) or not. *)
Inductive EventLog : Type :=
| Decoded (args : Event) (blockNumber : Z)
| Undecodable (blockNumber : Z).

(** Transactions the services submit. *)
Inductive TxCall : Type :=
| TxProcessEthereumOrder (orderHash : bytes32) (tokenIn tokenOut : address)
    (amountIn amountOut : uint256) (hashlock : bytes32) (timelock : uint256)
    (maker monadReceiver : address)
| TxWithdraw (on : ContractName) (contractId secret : string)
| TxFulfillOrder (orderHash secret : string)
| TxFulfillIncomingOrder (orderHash secret : string)
| TxRefund (orderHash : string).

(** The RPC endpoints, the clock and the hashing of ethers.  A [None] or
    [false] answer is a rejected promise (the call throws). *)
Class Network : Type := {
  Net : Type;
  getBlockNumber : ContractName -> Net -> option Z * Net;
  queryFilter : ContractName -> string -> Z -> Z -> Net -> option (list EventLog) * Net;
  send : TxCall -> Net -> bool * Net;
  Date_now : Net -> Z;
  (** [ethers.keccak256(ethers.toUtf8Bytes(s))]; [None] when [s] has no
      UTF-8 encoding. *)
  keccak256_utf8 : string -> option string
}.

Inductive Level : Type := debug | info | warn | error.

(** ** The service monad: state, exceptions, and fuel for unbounded retries *)

Section TSMonad.
Context {NW : Network}.

(** A service at a point in time: its own fields, the network, the lines
    logged and the transactions submitted so far. *)
Record Service (S : Type) : Type := mkService {
  fields : S;
  net : Net;
  logged : list (Level * string);
  sent : list TxCall
}.
Arguments mkService {S}.
Arguments fields {S}.
Arguments net {S}.
Arguments logged {S}.
Arguments sent {S}.

Inductive outcome (A : Type) : Type :=
| Returned (a : A)
| Thrown (message : string).
Arguments Returned {A}.
Arguments Thrown {A}.

(** A finished run keeps the state reached, also when it threw. *)
Inductive run (S A : Type) : Type :=
| Done (r : outcome A) (s : Service S)
| OutOfFuel.
Arguments Done {S A}.
Arguments OutOfFuel {S A}.

Definition TS (S A : Type) : Type := Service S -> run S A.

Definition pure {S A} (a : A) : TS S A := fun s => Done (Returned a) s.

Definition throw {S A} (message : string) : TS S A := fun s => Done (Thrown message) s.

Definition out_of_fuel {S A} : TS S A := fun _ => OutOfFuel.

Definition andThen {S A B} (c : TS S A) (k : A -> TS S B) : TS S B :=
  fun s => match c s with
           | Done (Returned a) s' => k a s'
           | Done (Thrown e) s' => Done (Thrown e) s'
           | OutOfFuel => OutOfFuel
           end.

(** [try { c } catch (error) { handler }]. *)
Definition try_catch {S A} (c : TS S A) (handler : string -> TS S A) : TS S A :=
  fun s => match c s with
           | Done (Returned a) s' => Done (Returned a) s'
           | Done (Thrown e) s' => handler e s'
           | OutOfFuel => OutOfFuel
           end.

Definition read {S} : TS S S := fun s => Done (Returned (fields s)) s.

Definition write {S} (f : S) : TS S unit :=
  fun s => Done (Returned tt) (mkService f (net s) (logged s) (sent s)).

Definition logger {S} (l : Level) (message : string) : TS S unit :=
  fun s => Done (Returned tt)
             (mkService (fields s) (net s) (logged s ++ [(l, message)]) (sent s)).

Definition now {S} : TS S Z := fun s => Done (Returned (Date_now (net s))) s.

Definition provider_getBlockNumber {S} (c : ContractName) : TS S Z :=
  fun s => match getBlockNumber c (net s) with
           | (Some b, n) => Done (Returned b) (mkService (fields s) n (logged s) (sent s))
           | (None, n) =>
               Done (Thrown "getBlockNumber failed")
                 (mkService (fields s) n (logged s) (sent s))
           end.

Definition contract_queryFilter {S} (c : ContractName) (filter : string)
    (fromBlock toBlock : Z) : TS S (list EventLog) :=
  fun s => match queryFilter c filter fromBlock toBlock (net s) with
           | (Some evs, n) =>
               Done (Returned evs) (mkService (fields s) n (logged s) (sent s))
           | (None, n) =>
               Done (Thrown "queryFilter failed")
                 (mkService (fields s) n (logged s) (sent s))
           end.

(** A query as a promise that settles: its rejection is a value. *)
Definition settled_queryFilter {S} (c : ContractName) (filter : string)
    (fromBlock toBlock : Z) : TS S (option (list EventLog)) :=
  fun s => match queryFilter c filter fromBlock toBlock (net s) with
           | (r, n) => Done (Returned r) (mkService (fields s) n (logged s) (sent s))
           end.

(** [await Promise.all([p1, p2, p3])]: the three promises are all started,
    and the whole is rejected when one of them is. *)
Definition promise_all3 {S A} (p1 p2 p3 : TS S (option A)) : TS S (A * A * A) :=
  andThen p1 (fun r1 =>
  andThen p2 (fun r2 =>
  andThen p3 (fun r3 =>
  match r1, r2, r3 with
  | Some a1, Some a2, Some a3 => pure (a1, a2, a3)
  | _, _, _ => throw "Promise.all rejected"
  end))).

(** A block-number query as a promise that settles. *)
Definition settled_getBlockNumber {S} (c : ContractName) : TS S (option Z) :=
  fun s => match getBlockNumber c (net s) with
           | (r, n) => Done (Returned r) (mkService (fields s) n (logged s) (sent s))
           end.

(** [await Promise.all([p1, p2])]. *)
Definition promise_all2 {S A} (p1 p2 : TS S (option A)) : TS S (A * A) :=
  andThen p1 (fun r1 =>
  andThen p2 (fun r2 =>
  match r1, r2 with
  | Some a1, Some a2 => pure (a1, a2)
  | _, _ => throw "Promise.all rejected"
  end)).

(** Submitting a transaction: it is recorded, then the network answers. *)
Definition submit {S} (tx : TxCall) : TS S unit :=
  fun s => match send tx (net s) with
           | (true, n) =>
               Done (Returned tt) (mkService (fields s) n (logged s) (sent s ++ [tx]))
           | (false, n) =>
               Done (Thrown "transaction failed")
                 (mkService (fields s) n (logged s) (sent s ++ [tx]))
           end.

(** [for (const x of xs) { await body(x) }]. *)
Fixpoint for_each {S A} (xs : list A) (body : A -> TS S unit) : TS S unit :=
  match xs with
  | [] => pure tt
  | x :: rest => andThen (body x) (fun _ => for_each rest body)
  end.

(** A computation keeps the fields of the service: whenever it finishes,
    normally or by throwing, they are what they were. *)
Definition keeps {S A} (c : TS S A) : Prop :=
  forall s r s', c s = Done r s' -> fields s' = fields s.

(** A computation is quiet: whenever it finishes it has returned, and the
    fields are what they were. *)
Definition quiet {S} (c : TS S unit) : Prop :=
  forall s r s', c s = Done r s' -> r = Returned tt /\ fields s' = fields s.

(** A computation settles: it always finishes, and keeps the fields. *)
Definition settles {S A} (c : TS S A) : Prop :=
  forall s, exists r s', c s = Done r s' /\ fields s' = fields s.

(** A computation is calm: it always returns, and keeps the fields. *)
Definition calm {S} (c : TS S unit) : Prop :=
  forall s, exists s', c s = Done (Returned tt) s' /\ fields s' = fields s.

(** A computation sends only transactions of one kind: whenever it
    finishes, the transactions it has added all pass the test. *)
Definition sends_only {S A} (kind : TxCall -> bool) (c : TS S A) : Prop :=
  forall s r s', c s = Done r s' ->
    exists txs, sent s' = sent s ++ txs /\ forallb kind txs = true.

Definition no_tx (tx : TxCall) : bool := false.

Definition is_relay (tx : TxCall) : bool :=
  match tx with TxProcessEthereumOrder _ _ _ _ _ _ _ _ _ => true | _ => false end.

(** The state a run ended in, and whether it ended. *)
Definition final {S A} (r : run S A) (otherwise : Service S) : Service S :=
  match r with Done _ s => s | OutOfFuel => otherwise end.

Definition returned {S A} (r : run S A) : bool :=
  match r with Done (Returned _) _ => true | _ => false end.
End TSMonad.

Arguments mkService {NW S}.
Arguments fields {NW S}.
Arguments net {NW S}.
Arguments logged {NW S}.
Arguments sent {NW S}.
Arguments Returned {A}.
Arguments Thrown {A}.
Arguments Done {NW S A}.
Arguments OutOfFuel {NW S A}.
Arguments final {NW S A}.
Arguments keeps {NW S A}.
Arguments quiet {NW S}.
Arguments settles {NW S A}.
Arguments calm {NW S}.
Arguments sends_only {NW S A}.
Arguments returned {NW S A}.

Notation "'do*' x ':=' c 'in' k" := (andThen c (fun x => k))
  (at level 10, x name, c at level 100, k at level 200).
Notation "c1 ';;;' c2" := (andThen c1 (fun _ => c2))
  (at level 100, c2 at level 200, right associativity).

(** ** RelayerService (backend/relayer/index.ts) *)

Module RelayerService.
Section RelayerService.
Context {NW : Network}.

Definition RETRY_ATTEMPTS : Z := 3.

(** [retryWithBackoff(fn, maxRetries, currentRetry)]; the delay between
    attempts only passes time. *)
Fixpoint retryWithBackoff {S A} (fuel : nat) (fn : TS S A)
    (maxRetries currentRetry : Z) : TS S A :=
  match fuel with
  | O => out_of_fuel
  | S fuel' =>
      try_catch fn (fun e =>
        if maxRetries <=? currentRetry then throw e
        else
          do* _ := logger warn "Retrying in {delay}ms" in
          retryWithBackoff fuel' fn maxRetries (currentRetry + 1))
  end.

(** [relayEthereumToMonad(orderData)], with the order data as the fields
    of the event it was read from.  A failed attempt retries through
    [retryWithBackoff], whose [fn] is this very function. *)
Fixpoint relayEthereumToMonad {S} (fuel : nat) (orderHash : bytes32)
    (tokenIn tokenOut : address) (amountIn amountOut : uint256) (hashlock : bytes32)
    (timelock : uint256) (maker monadReceiver : address) : TS S unit :=
  match fuel with
  | O => out_of_fuel
  | S fuel' =>
      try_catch
        (logger info "Relaying Ethereum order to Monad" ;;;
         submit (TxProcessEthereumOrder orderHash tokenIn tokenOut amountIn amountOut
                   hashlock timelock maker monadReceiver) ;;;
         logger info "Successfully relayed order to Monad")
        (fun _ =>
           logger error "Failed to relay order to Monad" ;;;
           retryWithBackoff fuel'
             (relayEthereumToMonad fuel' orderHash tokenIn tokenOut amountIn amountOut
                hashlock timelock maker monadReceiver)
             RETRY_ATTEMPTS 0)
  end.
End RelayerService.
End RelayerService.

(** ** EventMonitor (backend/monitoring/index.ts) *)

Module EventMonitor.

Record lastProcessed : Type := mkLastProcessed {
ethereum : Z;
monad : Z
}.

Record t : Type := mk {
isRunning : bool;
lastProcessedBlock : lastProcessed
}.

Definition BLOCK_CONFIRMATIONS : Z := 3.
Definition MAX_BLOCKS_PER_QUERY : Z := 100.

(** Where an iteration leaves a cursor, given the answer to the block-number
    query: [toBlock] when there are new confirmed blocks, else no move. *)
Definition next_cursor (cursor : Z) (currentBlock : option Z) : Z :=
  match currentBlock with
  | Some currentBlock =>
      let safeBlock := currentBlock - BLOCK_CONFIRMATIONS in
      if safeBlock <=? cursor then cursor
      else Z.min safeBlock (cursor + 1 + MAX_BLOCKS_PER_QUERY - 1)
  | None => cursor
  end.

Section EventMonitor.
Context {NW : Network}.

Definition handleCrossChainOrderCreated (fuel : nat) (event : EventLog) : TS t unit :=
  try_catch
    (match event with
     | Decoded (CrossChainOrderCreated orderHash maker tokenIn tokenOut amountIn
                  amountOut hashlock timelock _ monadReceiver) _ =>
         logger info "CrossChainOrderCreated" ;;;
         RelayerService.relayEthereumToMonad fuel orderHash tokenIn tokenOut amountIn
           amountOut hashlock timelock maker monadReceiver
     | _ => throw "TypeError: cannot read the event arguments"
     end)
    (fun _ => logger error "Failed to handle CrossChainOrderCreated event:").

(** The other handlers read the arguments and log. *)
Definition handle_and_log (l : Level) (message failure : string) (event : EventLog)
    : TS t unit :=
  try_catch
    (match event with
     | Decoded _ _ => logger l message
     | Undecodable _ => throw "TypeError: cannot read the event arguments"
     end)
    (fun _ => logger error failure).

Definition handleCrossChainOrderFulfilled : EventLog -> TS t unit :=
  handle_and_log info "CrossChainOrderFulfilled"
    "Failed to handle CrossChainOrderFulfilled event:".

Definition handleCrossChainOrderRefunded : EventLog -> TS t unit :=
  handle_and_log info "CrossChainOrderRefunded"
    "Failed to handle CrossChainOrderRefunded event:".

Definition handleHTLCCreated : EventLog -> TS t unit :=
  handle_and_log debug "HTLC Created" "Failed to handle HTLC Created event".

Definition handleHTLCWithdrawn : EventLog -> TS t unit :=
  handle_and_log info "HTLC Withdrawn" "Failed to handle HTLC Withdrawn event".

Definition handleHTLCRefunded : EventLog -> TS t unit :=
  handle_and_log info "HTLC Refunded" "Failed to handle HTLC Refunded event".

Definition handleIncomingOrderProcessed : EventLog -> TS t unit :=
  handle_and_log info "IncomingOrderProcessed" "Failed to handle IncomingOrderProcessed event:".

Definition handleOutgoingOrderCreated : EventLog -> TS t unit :=
  handle_and_log info "OutgoingOrderCreated" "Failed to handle OutgoingOrderCreated event:".

Definition processFusionAdapterEvents (fuel : nat) (fromBlock toBlock : Z) : TS t unit :=
  try_catch
    (do* orderCreatedEvents :=
       contract_queryFilter fusionAdapter "CrossChainOrderCreated" fromBlock toBlock in
     for_each orderCreatedEvents (handleCrossChainOrderCreated fuel) ;;;
     do* orderFulfilledEvents :=
       contract_queryFilter fusionAdapter "CrossChainOrderFulfilled" fromBlock toBlock in
     for_each orderFulfilledEvents handleCrossChainOrderFulfilled ;;;
     do* orderRefundedEvents :=
       contract_queryFilter fusionAdapter "CrossChainOrderRefunded" fromBlock toBlock in
     for_each orderRefundedEvents handleCrossChainOrderRefunded)
    (fun _ => logger error "Failed to process Fusion Adapter events:").

(** The three HTLC queries of [Promise.all], then the three loops. *)
Definition processHTLCEvents (htlc : ContractName) (failure : string)
    (fromBlock toBlock : Z) : TS t unit :=
  try_catch
    (do* htlcEvents :=
       promise_all3 (settled_queryFilter htlc "HTLCCreated" fromBlock toBlock)
         (settled_queryFilter htlc "HTLCWithdrawn" fromBlock toBlock)
         (settled_queryFilter htlc "HTLCRefunded" fromBlock toBlock) in
     let '(createdEvents, withdrawnEvents, refundedEvents) := htlcEvents in
     for_each createdEvents handleHTLCCreated ;;;
     for_each withdrawnEvents handleHTLCWithdrawn ;;;
     for_each refundedEvents handleHTLCRefunded)
    (fun _ => logger error failure).

Definition processEthereumHTLCEvents : Z -> Z -> TS t unit :=
  processHTLCEvents ethereumHTLC "Failed to process Ethereum HTLC events:".

Definition processMonadHTLCEvents : Z -> Z -> TS t unit :=
  processHTLCEvents monadHTLC "Failed to process Monad HTLC events:".

Definition processMonadBridgeEvents (fromBlock toBlock : Z) : TS t unit :=
  try_catch
    (do* incomingOrderEvents :=
       contract_queryFilter monadBridge "IncomingOrderProcessed" fromBlock toBlock in
     for_each incomingOrderEvents handleIncomingOrderProcessed ;;;
     do* outgoingOrderEvents :=
       contract_queryFilter monadBridge "OutgoingOrderCreated" fromBlock toBlock in
     for_each outgoingOrderEvents handleOutgoingOrderCreated)
    (fun _ => logger error "Failed to process Monad Bridge events:").

(** The line a handler of [handle_and_log] leaves for one log. *)
Definition handled_line (l : Level) (message failure : string) (event : EventLog)
    : Level * string :=
  match event with
  | Decoded _ _ => (l, message)
  | Undecodable _ => (error, failure)
  end.

Definition set_ethereum (m : t) (b : Z) : t :=
  mk (isRunning m) (mkLastProcessed b (monad (lastProcessedBlock m))).

Definition set_monad (m : t) (b : Z) : t :=
  mk (isRunning m) (mkLastProcessed (ethereum (lastProcessedBlock m)) b).

Definition monitorEthereumEvents (fuel : nat) : TS t unit :=
  do* this := read in
  if negb (isRunning this) then pure tt
  else
    try_catch
      (do* currentBlock := provider_getBlockNumber fusionAdapter in
       let safeBlock := currentBlock - BLOCK_CONFIRMATIONS in
       do* this := read in
       if safeBlock <=? ethereum (lastProcessedBlock this) then pure tt
       else
         let fromBlock := ethereum (lastProcessedBlock this) + 1 in
         let toBlock := Z.min safeBlock (fromBlock + MAX_BLOCKS_PER_QUERY - 1) in
         logger debug "Processing Ethereum blocks" ;;;
         processFusionAdapterEvents fuel fromBlock toBlock ;;;
         processEthereumHTLCEvents fromBlock toBlock ;;;
         do* this := read in
         write (set_ethereum this toBlock))
      (fun _ => logger error "Failed to monitor Ethereum events:").

Definition monitorMonadEvents : TS t unit :=
  do* this := read in
  if negb (isRunning this) then pure tt
  else
    try_catch
      (do* currentBlock := provider_getBlockNumber monadBridge in
       let safeBlock := currentBlock - BLOCK_CONFIRMATIONS in
       do* this := read in
       if safeBlock <=? monad (lastProcessedBlock this) then pure tt
       else
         let fromBlock := monad (lastProcessedBlock this) + 1 in
         let toBlock := Z.min safeBlock (fromBlock + MAX_BLOCKS_PER_QUERY - 1) in
         logger debug "Processing Monad blocks" ;;;
         processMonadBridgeEvents fromBlock toBlock ;;;
         processMonadHTLCEvents fromBlock toBlock ;;;
         do* this := read in
         write (set_monad this toBlock))
      (fun _ => logger error "Failed to monitor Monad events:").

Definition set_isRunning (m : t) (b : bool) : t := mk b (lastProcessedBlock m).

(** [initializeEventFilters] fills the two maps of event filters, from the
    contracts' own filter constructors, and logs.  The maps are not part of
    [t]: a query of the model names its filter, which stands for the entry
    the source reads from the map, and building a filter is taken not to
    throw. *)
Definition initializeEventFilters : TS t unit :=
  logger debug "Event filters initialized".

Definition initializeLastProcessedBlocks : TS t unit :=
  do* blocks := promise_all2 (settled_getBlockNumber fusionAdapter)
                  (settled_getBlockNumber monadBridge) in
  let '(ethereumBlock, monadBlock) := blocks in
  do* this := read in
  write (mk (isRunning this)
           (mkLastProcessed (Z.max 0 (ethereumBlock - 100))
              (Z.max 0 (monadBlock - 100)))) ;;;
  logger info "Initialized last processed blocks".

(** [start()].  [startEthereumMonitoring] and [startMonadMonitoring] only
    set the timers of the two loops, whose ticks are modelled below. *)
Definition start : TS t unit :=
  do* this := read in
  if isRunning this then logger warn "EventMonitor is already running"
  else
    try_catch
      (logger info "Starting EventMonitor..." ;;;
       initializeEventFilters ;;;
       initializeLastProcessedBlocks ;;;
       do* this := read in
       write (set_isRunning this true) ;;;
       logger info "EventMonitor started successfully")
      (fun e => logger error "Failed to start EventMonitor:" ;;; throw e).

Definition stop : TS t unit :=
  do* this := read in
  if negb (isRunning this) then pure tt
  else
    logger info "Stopping EventMonitor..." ;;;
    do* this := read in
    write (set_isRunning this false) ;;;
    logger info "EventMonitor stopped".

(** The loop set up by [startMonadMonitoring], for a number of timer ticks:
    each tick returns when the monitor is stopped, else awaits one iteration
    and sets the timer again. *)
Fixpoint monadMonitoring (ticks : nat) : TS t unit :=
  match ticks with
  | O => pure tt
  | S ticks' =>
      do* this := read in
      if negb (isRunning this) then pure tt
      else monitorMonadEvents ;;; monadMonitoring ticks'
  end.
End EventMonitor.
End EventMonitor.

(** ** A JavaScript [Map] with string keys: entries in insertion order *)

Module JsMap.
Definition t (V : Type) : Type := list (string * V).

Fixpoint get {V} (k : string) (m : t V) : option V :=
  match m with
  | [] => None
  | (k', v) :: rest => if String.eqb k' k then Some v else get k rest
  end.

(** [m.set(k, v)]: an existing key keeps its place, a new one goes last. *)
Fixpoint set {V} (k : string) (v : V) (m : t V) : t V :=
  match m with
  | [] => [(k, v)]
  | (k', v') :: rest =>
      if String.eqb k' k then (k', v) :: rest else (k', v') :: set k v rest
  end.

(** Assignment to fields of the object stored under [k]. *)
Fixpoint alter {V} (f : V -> V) (k : string) (m : t V) : t V :=
  match m with
  | [] => []
  | (k', v) :: rest =>
      if String.eqb k' k then (k', f v) :: rest else (k', v) :: alter f k rest
  end.

Definition size {V} (m : t V) : Z := Z.of_nat (length m).

Definition keys {V} (m : t V) : list string := map fst m.

Definition values {V} (m : t V) : list V := map snd m.
End JsMap.

(** ** ResolverService (backend/resolver/index.ts) *)

Module ResolverService.

Inductive Status : Type := pending | resolved | refunded.

Inductive ChainName : Type := ethereum | monad.

Record PendingOrder : Type := mkPendingOrder {
orderHash : string;
sourceChain : ChainName;
targetChain : ChainName;
tokenIn : string;
tokenOut : string;
amountIn : string;
amountOut : string;
hashlock : string;
timelock : Z;
maker : string;
receiver : string;
status : Status;
createdAt : Z;
resolvedAt : option Z;
refundedAt : option Z;
secret : option string
}.

Inductive EventType : Type := created | withdrawn | refunded_.

Record HTLCEvent : Type := mkHTLCEvent {
type : EventType;
contractId : string;
chain : string;
blockNumber : Z;
transactionHash : string;
event_secret : option string
}.

Record t : Type := mk {
pendingOrders : JsMap.t PendingOrder;
secretStore : JsMap.t string
}.

Definition ORDER_TIMEOUT_BUFFER : Z := 60 * 60.
Definition MAX_PENDING_ORDERS : Z := 1000.

Definition is_pending (o : PendingOrder) : bool :=
match status o with pending => true | _ => false end.

Definition is_ethereum (c : ChainName) : bool :=
match c with ethereum => true | monad => false end.

(** [order.status = 'resolved'; order.secret = secret; order.resolvedAt = at]. *)
Definition mark_resolved (secret : string) (at_ : Z) (o : PendingOrder) : PendingOrder :=
mkPendingOrder (orderHash o) (sourceChain o) (targetChain o) (tokenIn o) (tokenOut o)
  (amountIn o) (amountOut o) (hashlock o) (timelock o) (maker o) (receiver o)
  resolved (createdAt o) (Some at_) (refundedAt o) (Some secret).

(** [order.status = 'refunded'; order.refundedAt = at]. *)
Definition mark_refunded (at_ : Z) (o : PendingOrder) : PendingOrder :=
mkPendingOrder (orderHash o) (sourceChain o) (targetChain o) (tokenIn o) (tokenOut o)
  (amountIn o) (amountOut o) (hashlock o) (timelock o) (maker o) (receiver o)
  refunded (createdAt o) (resolvedAt o) (Some at_) (secret o).

(** The filter of [handleTimeoutRefunds] at [currentTime] (milliseconds). *)
Definition due (currentTime : Z) (o : PendingOrder) : bool :=
is_pending o
&& (timelock o * 1000 - ORDER_TIMEOUT_BUFFER * 1000 <? currentTime).

(** The filter of [cleanupOldOrders]: true for the entries it deletes. *)
Definition evictable (cutoffTime : Z) (o : PendingOrder) : bool :=
negb (is_pending o) && (createdAt o <? cutoffTime).

(** A JavaScript string is truthy when it is present and not empty. *)
Definition truthy (s : option string) : bool :=
match s with
| Some s => negb (String.eqb s "")
| None => false
end.

Definition is_resolved (o : PendingOrder) : bool :=
match status o with resolved => true | _ => false end.

Definition is_refunded (o : PendingOrder) : bool :=
match status o with refunded => true | _ => false end.

Module ResolverStats.
Record t : Type := mk {
  totalOrders : Z;
  pendingOrders : Z;
  resolvedOrders : Z;
  refundedOrders : Z;
  secretsStored : Z
}.
End ResolverStats.

(** The two maps as the field initialisers leave them. *)
Definition init : t := mk [] [].

Definition getStats (this : t) : ResolverStats.t :=
let orders := JsMap.values (pendingOrders this) in
ResolverStats.mk (Z.of_nat (length orders))
  (Z.of_nat (length (List.filter is_pending orders)))
  (Z.of_nat (length (List.filter is_resolved orders)))
  (Z.of_nat (length (List.filter is_refunded orders)))
  (JsMap.size (secretStore this)).

Definition getPendingEthereumOrders (this : t) : list PendingOrder :=
List.filter (fun order => is_ethereum (sourceChain order) && is_pending order)
  (JsMap.values (pendingOrders this)).

Definition getPendingMonadOrders (this : t) : list PendingOrder :=
List.filter (fun order => negb (is_ethereum (sourceChain order)) && is_pending order)
  (JsMap.values (pendingOrders this)).

(** The test of [findMatchingOrder]. *)
Definition matches (order candidate : PendingOrder) : bool :=
String.eqb (tokenIn candidate) (tokenOut order)
&& String.eqb (tokenOut candidate) (tokenIn order)
&& String.eqb (amountOut candidate) (amountIn order)
&& String.eqb (amountIn candidate) (amountOut order).

Definition findMatchingOrder (order : PendingOrder) (candidates : list PendingOrder)
  : option PendingOrder :=
List.find (matches order) candidates.

Section ResolverService.
Context {NW : Network}.

Definition set_pendingOrders (this : t) (p : JsMap.t PendingOrder) : t :=
  mk p (secretStore this).

Definition set_secretStore (this : t) (s : JsMap.t string) : t :=
  mk (pendingOrders this) s.

Definition executeAtomicSwapBothChains (order : PendingOrder) (secret : string)
    : TS t unit :=
  if is_ethereum (sourceChain order) then
    submit (TxFulfillOrder (orderHash order) secret) ;;;
    submit (TxFulfillIncomingOrder (orderHash order) secret)
  else
    submit (TxFulfillIncomingOrder (orderHash order) secret) ;;;
    submit (TxFulfillOrder (orderHash order) secret).

Definition resolveAtomicSwap (orderHash : string) (secret : string) : TS t unit :=
  try_catch
    (logger info "Resolving atomic swap for order" ;;;
     do* this := read in
     match JsMap.get orderHash (pendingOrders this) with
     | None => throw "No pending order found for hash"
     | Some pendingOrder =>
         match keccak256_utf8 secret with
         | None => throw "invalid UTF-8 string"
         | Some expectedHashlock =>
             if negb (String.eqb expectedHashlock (hashlock pendingOrder))
             then throw "Invalid secret provided"
             else
               write (set_secretStore this
                        (JsMap.set orderHash secret (secretStore this))) ;;;
               executeAtomicSwapBothChains pendingOrder secret ;;;
               do* at_ := now in
               do* this := read in
               write (set_pendingOrders this
                        (JsMap.alter (mark_resolved secret at_) orderHash
                           (pendingOrders this))) ;;;
               logger info "Successfully resolved atomic swap for order"
         end
     end)
    (fun e => logger error "Failed to resolve atomic swap for order" ;;; throw e).

(** [processRefund(order)], for the order object stored under [key]. *)
Definition processRefund (entry : string * PendingOrder) : TS t unit :=
  let (key, order) := entry in
  try_catch
    (logger info "Processing refund for expired order" ;;;
     (if is_ethereum (sourceChain order)
      then submit (TxRefund (orderHash order))
      else pure tt) ;;;
     do* at_ := now in
     do* this := read in
     write (set_pendingOrders this
              (JsMap.alter (mark_refunded at_) key (pendingOrders this))))
    (fun _ => logger error "Failed to process refund for order").

Definition handleTimeoutRefunds : TS t unit :=
  try_catch
    (do* currentTime := now in
     do* this := read in
     let expiredOrders :=
       List.filter (fun entry => due currentTime (snd entry)) (pendingOrders this) in
     for_each expiredOrders processRefund ;;;
     if 0 <? Z.of_nat (length expiredOrders)
     then logger info "Processed expired orders for refund"
     else pure tt)
    (fun _ => logger error "Failed to handle timeout refunds:").

Definition propagateSecret (contractId secret sourceChain : string) : TS t unit :=
  let targetChain := if String.eqb sourceChain "ethereum" then "monad" else "ethereum" in
  try_catch
    (logger info "Propagating secret" ;;;
     (if String.eqb targetChain "monad"
      then submit (TxWithdraw monadHTLC contractId secret)
      else submit (TxWithdraw ethereumHTLC contractId secret)) ;;;
     logger info "Successfully propagated secret")
    (fun _ => logger error "Failed to propagate secret").

Definition handleHTLCCreated (event : HTLCEvent) : TS t unit :=
  logger debug "HTLC created".

Definition handleHTLCWithdrawn (event : HTLCEvent) : TS t unit :=
  logger info "HTLC withdrawn" ;;;
  if truthy (event_secret event)
  then propagateSecret (contractId event) (default "" (event_secret event)) (chain event)
  else pure tt.

Definition handleHTLCRefunded (event : HTLCEvent) : TS t unit :=
  logger info "HTLC refunded".

Definition processEvents (events : list HTLCEvent) : TS t unit :=
  for_each events (fun event =>
    try_catch
      (match type event with
       | created => handleHTLCCreated event
       | withdrawn => handleHTLCWithdrawn event
       | refunded_ => handleHTLCRefunded event
       end)
      (fun _ => logger error "Failed to process event:")).

Definition cleanupOldOrders : TS t unit :=
  do* at_ := now in
  let cutoffTime := at_ - 24 * 60 * 60 * 1000 in
  do* this := read in
  write (set_pendingOrders this
           (List.filter (fun entry => negb (evictable cutoffTime (snd entry)))
              (pendingOrders this))).

Definition addPendingOrder (order : PendingOrder) : TS t unit :=
  do* this := read in
  (if MAX_PENDING_ORDERS <=? JsMap.size (pendingOrders this)
   then cleanupOldOrders
   else pure tt) ;;;
  do* this := read in
  write (set_pendingOrders this
           (JsMap.set (orderHash order) order (pendingOrders this))) ;;;
  logger debug "Added pending order".

Definition initiateAtomicSwap (ethOrder monadOrder : PendingOrder) : TS t unit :=
  logger info "Initiating atomic swap".

Definition matchOrders : TS t unit :=
  try_catch
    (logger debug "Starting order matching process" ;;;
     do* this := read in
     let pendingEthereumOrders := getPendingEthereumOrders this in
     do* this := read in
     let pendingMonadOrders := getPendingMonadOrders this in
     for_each pendingEthereumOrders (fun ethOrder =>
       match findMatchingOrder ethOrder pendingMonadOrders with
       | Some matchingMonadOrder => initiateAtomicSwap ethOrder matchingMonadOrder
       | None => pure tt
       end) ;;;
     logger debug "Order matching process completed")
    (fun _ => logger error "Order matching failed:").

(** The test of [resolveAtomicSwap]: an order is pending under the hash and
    the Keccak-256 of the UTF-8 bytes of the secret is its hashlock. *)
Definition secret_matches (orderHash secret : string) (this : t) : bool :=
  match JsMap.get orderHash (pendingOrders this), keccak256_utf8 secret with
  | Some pendingOrder, Some expectedHashlock =>
      String.eqb expectedHashlock (hashlock pendingOrder)
  | _, _ => false
  end.

(** The transaction [propagateSecret] submits for a delivered event: a
    withdrawal on the other chain when the event is [withdrawn] and carries a
    secret, nothing otherwise. *)
Definition withdrawals (event : HTLCEvent) : list TxCall :=
  match type event with
  | withdrawn =>
      if truthy (event_secret event) then
        [TxWithdraw (if String.eqb (chain event) "ethereum" then monadHTLC
                     else ethereumHTLC)
           (contractId event) (default "" (event_secret event))]
      else []
  | _ => []
  end.

(** How the table [m] may differ from [m0] after refunds were processed for
    the keys [done]: under each key it holds the same order, or, for a
    processed key, that order marked refunded. *)
Definition swept (done : list string) (m0 m : JsMap.t PendingOrder) : Prop :=
  forall k,
    JsMap.get k m = JsMap.get k m0 \/
    (In k done /\ exists o at_,
       JsMap.get k m0 = Some o /\ JsMap.get k m = Some (mark_refunded at_ o)).

(** The transaction [processRefund] submits for an order. *)
Definition refund_calls (entry : string * PendingOrder) : list TxCall :=
  if is_ethereum (sourceChain (snd entry)) then [TxRefund (orderHash (snd entry))]
  else [].
End ResolverService.
End ResolverService.

(** ** Networks and service states used to run the services *)

(** The state of a simulated network: chain height and clock (ms). *)
Record SimState : Type := mkSim {
  height : Z;
  clock : Z
}.

(** A network with a fixed answer to every query and submission. *)
Definition sim_net (answer : ContractName -> string -> Z -> Z -> option (list EventLog))
    (accept : TxCall -> bool) : Network :=
  {| Net := SimState;
     getBlockNumber := fun _ n => (Some (height n), n);
     queryFilter := fun c f a b n => (answer c f a b, n);
     send := fun tx n => (accept tx, n);
     Date_now := clock;
     keccak256_utf8 := fun s => Some (String.append "keccak:" s) |}.

(** Every event query is rejected. *)
Definition unreachable_logs : Network := sim_net (fun _ _ _ _ => None) (fun _ => true).

(** Every event query answers one log that cannot be decoded. *)
Definition garbled_logs : Network :=
  sim_net (fun _ _ a _ => Some [Undecodable a]) (fun _ => true).

(** Queries answer no events and every transaction is accepted. *)
Definition calm_net : Network := sim_net (fun _ _ _ _ => Some []) (fun _ => true).

(** A network whose chains stay at one height: queries answer no events
    and every transaction is accepted. *)
Definition steady_net (b : Z) : Network :=
  {| Net := unit;
     getBlockNumber := fun _ n => (Some b, n);
     queryFilter := fun _ _ _ _ n => (Some [], n);
     send := fun _ n => (true, n);
     Date_now := fun _ => 0;
     keccak256_utf8 := fun s => Some (String.append "keccak:" s) |}.


Definition ex_monitor : EventMonitor.t :=
  EventMonitor.mk true (EventMonitor.mkLastProcessed 900 900).

Definition ex_monitor_service {NW : Network} (n : Net) : Service EventMonitor.t :=
  mkService ex_monitor n [] [].

(** An order of the resolver: Ethereum to Monad, timelock at T0 + 24 h. *)
Definition ex_pending (key : string) : ResolverService.PendingOrder :=
  ResolverService.mkPendingOrder key ResolverService.ethereum ResolverService.monad
    "0xA" "0xB" "1000000000000000000" "980000000000000000" "keccak:s3cret"
    1700086400 "0xA11CE" "0xB0B" ResolverService.pending 1700000000000 None None None.




Definition ex_resolver : ResolverService.t :=
  ResolverService.mk [("0x01", ex_pending "0x01")] [].

(** Half an hour before the timelock of the example order. *)
Definition ex_early : SimState := mkSim 1000 ((1700086400 - 1800) * 1000).

Definition ex_resolver_service (n : SimState) : @Service calm_net ResolverService.t :=
  @mkService calm_net _ ex_resolver n [] [].

(** A [withdrawn] event seen on Ethereum, carrying the secret. *)
Definition ex_withdrawn : ResolverService.HTLCEvent :=
  ResolverService.mkHTLCEvent ResolverService.withdrawn "0xC1D" "ethereum" 950 "0x7A" 
    (Some "s3cret").




(** * Properties *)

Ltac sol_unfold :=
  unfold nonpayable, payable, checked_add, require, external, low_level_call,
    call_fst, call_snd, load, store, emit, bind, ret, revert in *.

(** One step of symbolic execution: decide the next test or external call. *)
Ltac sol_step :=
  match goal with
  | |- context [if ?b then _ else _] => destruct b eqn:?; simpl
  | |- context [match ext_call ?c ?w with _ => _ end] =>
      destruct (ext_call c w) eqn:?; simpl
  end.

Ltac sol_run := simpl; repeat sol_step.

(** Boolean tests recorded by [sol_step], as propositions. *)
Ltac bool_prop :=
  repeat match goal with
  | H : negb _ = true |- _ => apply negb_true_iff in H
  | H : negb _ = false |- _ => apply negb_false_iff in H
  | H : (_ && _) = true |- _ => apply andb_true_iff in H; destruct H
  | H : (_ && _) = false |- _ => apply andb_false_iff in H
  | H : (_ =? _) = true |- _ => apply Z.eqb_eq in H
  | H : (_ =? _) = false |- _ => apply Z.eqb_neq in H
  | H : (_ <? _) = true |- _ => apply Z.ltb_lt in H
  | H : (_ <? _) = false |- _ => apply Z.ltb_ge in H
  | H : (_ <=? _) = true |- _ => apply Z.leb_le in H
  | H : (_ <=? _) = false |- _ => apply Z.leb_gt in H
  | H : Bool.eqb _ _ = true |- _ => apply Bool.eqb_prop in H
  | H : Bool.eqb _ _ = false |- _ => apply Bool.eqb_false_iff in H
  end.

Lemma mapping_get_insert_eq {V} (zero v : V) (m : gmap Z V) (k : Z) :
  mapping_get zero (<[k := v]> m) k = v.
Proof. unfold mapping_get. by rewrite lookup_insert_eq. Qed.

Lemma mapping_get_insert_ne {V} (zero v : V) (m : gmap Z V) (k k' : Z) :
  k <> k' -> mapping_get zero (<[k := v]> m) k' = mapping_get zero m k'.
Proof. intros Hne. unfold mapping_get. by rewrite lookup_insert_ne. Qed.

Section HTLCFacts.
Context {HS : Hashes} {EX : Extern}.

Lemma State_eqb_eq (a b : HTLC.State) : HTLC.State_eqb a b = true <-> a = b.
Proof. destruct a, b; simpl; split; intros; congruence. Qed.

Lemma State_eqb_neq (a b : HTLC.State) : HTLC.State_eqb a b = false <-> a <> b.
Proof. destruct a, b; simpl; split; intros; congruence. Qed.

Lemma claim_ok_iff (c : Ctx) (secret : bytes32) (m : Machine HTLC.Storage) :
  is_ok (HTLC.claim c secret m) = true <->
  msg_value c = 0 /\ HTLC.state (storage m) = HTLC.Locked /\
  sha256 [AB32 secret] = HTLC.hashlock (storage m) /\
  is_Some (ext_call (HTLC.payout c (storage m) (HTLC.receiver (storage m))
                       (HTLC.lockedAmount (storage m))) (world m)).
Proof.
  unfold HTLC.claim, HTLC.payout. sol_unfold. destruct m as [s w l].
  sol_run; bool_prop;
    repeat match goal with
           | H : HTLC.State_eqb _ _ = true |- _ => apply State_eqb_eq in H
           | H : HTLC.State_eqb _ _ = false |- _ => apply State_eqb_neq in H
           end;
    (split; [intros; try discriminate; repeat split; eauto
            | intros (? & ? & ? & [x Hx]); try reflexivity; congruence]).
Qed.

Lemma claim_ok_effect (c : Ctx) (secret : bytes32) (m m' : Machine HTLC.Storage) :
  HTLC.claim c secret m = Ok (tt, m') ->
  HTLC.state (storage m') = HTLC.Claimed /\
  HTLC.lockedAmount (storage m') = 0 /\
  ext_call (HTLC.payout c (storage m) (HTLC.receiver (storage m))
              (HTLC.lockedAmount (storage m))) (world m) = Some (world m') /\
  log m' = log m ++ [(this c, EvClaimed (HTLC.receiver (storage m)) secret)].
Proof.
  unfold HTLC.claim, HTLC.payout. sol_unfold. destruct m as [s w l].
  sol_run; intros E; inversion E; subst; simpl; auto.
Qed.

Lemma contracts_insert_eq (s : MonadHTLC.Storage) (id : bytes32) (h : IHTLC.HTLCData) :
  MonadHTLC.contracts (<[id := h]> s) id = h.
Proof. unfold MonadHTLC.contracts, mapping_get. by rewrite lookup_insert_eq. Qed.

Lemma contracts_insert_ne (s : MonadHTLC.Storage) (id id' : bytes32)
    (h : IHTLC.HTLCData) :
  id <> id' -> MonadHTLC.contracts (<[id := h]> s) id' = MonadHTLC.contracts s id'.
Proof.
  intros Hne. unfold MonadHTLC.contracts, mapping_get.
  by rewrite lookup_insert_ne.
Qed.

Lemma withdraw_ok_iff (c : Ctx) (id secret : bytes32) (m : Machine MonadHTLC.Storage) :
  let h := MonadHTLC.contracts (storage m) id in
  is_ok (MonadHTLC.withdraw c id secret m) = true <->
  msg_value c = 0 /\ IHTLC.sender h <> 0 /\
  keccak256 [AB32 secret] = IHTLC.hashlock h /\
  IHTLC.receiver h = msg_sender c /\
  IHTLC.withdrawn h = false /\
  block_timestamp c < IHTLC.timelock h /\
  is_Some (ext_call (MonadHTLC.payout c h (IHTLC.receiver h)) (world m)).
Proof.
  unfold MonadHTLC.withdraw, MonadHTLC.contractExists, MonadHTLC.hashlockMatches,
    MonadHTLC.withdrawable, MonadHTLC._contractExists, MonadHTLC.payout.
  sol_unfold. destruct m as [s w l].
  sol_run; bool_prop;
    (split; [intros; try discriminate; repeat split; eauto; try congruence
            | intros (? & ? & ? & ? & ? & ? & [x Hx]);
              try reflexivity; try congruence; try lia]).
Qed.

Lemma withdraw_ok_effect (c : Ctx) (id secret : bytes32)
    (m m' : Machine MonadHTLC.Storage) :
  let h := MonadHTLC.contracts (storage m) id in
  MonadHTLC.withdraw c id secret m = Ok (tt, m') ->
  MonadHTLC.contracts (storage m') id = MonadHTLC.set_withdrawn h /\
  ext_call (MonadHTLC.payout c h (IHTLC.receiver h)) (world m) = Some (world m') /\
  log m' = log m ++ [(this c, HTLCWithdrawn id secret)].
Proof.
  unfold MonadHTLC.withdraw, MonadHTLC.contractExists, MonadHTLC.hashlockMatches,
    MonadHTLC.withdrawable, MonadHTLC._contractExists, MonadHTLC.payout.
  sol_unfold. destruct m as [s w l].
  sol_run; intros E; inversion E; subst; simpl;
    (split; [apply contracts_insert_eq | auto]).
Qed.
End HTLCFacts.

(** ** C1: when a claim succeeds *)

(** C1 (as amended).  [HTLC.claim] succeeds exactly when no value is sent,
    the escrow is [Locked], the SHA-256 of the secret is the hashlock and the
    payout to the receiver goes through; neither the caller nor the time is
    tested.  [MonadHTLC.withdraw], on an escrow that has not been refunded,
    succeeds exactly when no value is sent, the escrow exists and is still
    locked, the Keccak-256 of the secret is the hashlock, the caller is the
    receiver, the time is strictly before the timelock and the payout goes
    through.  On success both pay the locked amount to the receiver and emit
    one event that carries the secret. *)
Theorem C1_claim_succeeds_iff {HS : Hashes} {EX : Extern} (c : Ctx) (secret : bytes32)
    (m : Machine HTLC.Storage) (id : bytes32) (mm : Machine MonadHTLC.Storage)
    (Hnr : IHTLC.refunded (MonadHTLC.contracts (storage mm) id) = false) :
  let s := storage m in
  let h := MonadHTLC.contracts (storage mm) id in
  (is_ok (HTLC.claim c secret m) = true <->
     msg_value c = 0 /\ HTLC.state s = HTLC.Locked /\
     sha256 [AB32 secret] = HTLC.hashlock s /\
     is_Some (ext_call (HTLC.payout c s (HTLC.receiver s) (HTLC.lockedAmount s))
                (world m)))
  /\ (forall m', HTLC.claim c secret m = Ok (tt, m') ->
        HTLC.state (storage m') = HTLC.Claimed /\
        HTLC.lockedAmount (storage m') = 0 /\
        ext_call (HTLC.payout c s (HTLC.receiver s) (HTLC.lockedAmount s)) (world m)
          = Some (world m') /\
        log m' = log m ++ [(this c, EvClaimed (HTLC.receiver s) secret)])
  /\ (is_ok (MonadHTLC.withdraw c id secret mm) = true <->
        msg_value c = 0 /\ IHTLC.sender h <> 0 /\
        MonadHTLC.still_locked h = true /\
        keccak256 [AB32 secret] = IHTLC.hashlock h /\
        IHTLC.receiver h = msg_sender c /\
        block_timestamp c < IHTLC.timelock h /\
        is_Some (ext_call (MonadHTLC.payout c h (IHTLC.receiver h)) (world mm)))
  /\ (forall mm', MonadHTLC.withdraw c id secret mm = Ok (tt, mm') ->
        MonadHTLC.contracts (storage mm') id = MonadHTLC.set_withdrawn h /\
        ext_call (MonadHTLC.payout c h (IHTLC.receiver h)) (world mm)
          = Some (world mm') /\
        log mm' = log mm ++ [(this c, HTLCWithdrawn id secret)]).
Proof.
  intros s h. split; [apply claim_ok_iff|].
  split; [intros m'; apply claim_ok_effect|].
  split; [|intros mm'; apply withdraw_ok_effect].
  rewrite withdraw_ok_iff. unfold MonadHTLC.still_locked. subst h.
  rewrite Hnr, andb_true_r, negb_true_iff. tauto.
Qed.

(** The receiver of the example MonadHTLC escrow withdraws it in time. *)
Lemma C1_claim_succeeds_iff_witness :
  IHTLC.refunded (MonadHTLC.contracts (storage ex_monad_htlc_machine) ex_contractId)
    = false /\
  is_ok (@MonadHTLC.withdraw toy_hashes trace_world ex_receiver_in_time ex_contractId
           ex_secret ex_monad_htlc_machine) = true.
Proof.
  assert (Hnr : IHTLC.refunded
                  (MonadHTLC.contracts (storage ex_monad_htlc_machine) ex_contractId)
                = false) by (vm_compute; reflexivity).
  split; [exact Hnr|].
  apply (proj1 (proj2 (proj2
    (@C1_claim_succeeds_iff toy_hashes trace_world ex_receiver_in_time ex_secret
       ex_htlc_machine ex_contractId ex_monad_htlc_machine Hnr)))).
  split; [reflexivity|].
  split; [vm_compute; discriminate|].
  split; [vm_compute; reflexivity|].
  split; [vm_compute; reflexivity|].
  split; [vm_compute; reflexivity|].
  split; [vm_compute; reflexivity|].
  eexists; reflexivity.
Defined.

(** C1 as stated fails on [HTLC.claim]: the example escrow is claimed with
    success by a caller who is not its receiver, a day after its timelock. *)
Lemma C1_claim_ignores_caller_and_deadline :
  is_ok (@HTLC.claim toy_hashes trace_world ex_late_stranger ex_secret
           ex_htlc_machine) = true /\
  msg_sender ex_late_stranger <> HTLC.receiver ex_htlc /\
  HTLC.timelock ex_htlc < block_timestamp ex_late_stranger.
Proof.
  split; [vm_compute; reflexivity|].
  split; [vm_compute; discriminate|vm_compute; reflexivity].
Qed.

(** ** Order creation on both bridges *)

Ltac sol_call :=
  match goal with
  | |- context [match ?x with Ok _ => _ | Revert _ => _ end] =>
      destruct x as [[? ?]|] eqn:?; simpl
  end.

Section CreationFacts.
Context {HS : Hashes} {EX : Extern} {EthereumHTLC : IHTLC.Impl}.

Import FusionMonadAdapter.

(** What a successful [createCrossChainOrder] has checked and done. *)
Lemma createCrossChainOrder_ok (c : Ctx) (tokenIn tokenOut : address)
    (amountIn amountOut : uint256) (monadReceiver : address)
    (targetChainId customTimelock : uint256) (m m' : Machine Deployment)
    (h : bytes32) :
  createCrossChainOrder c tokenIn tokenOut amountIn amountOut monadReceiver
    targetChainId customTimelock m = Ok (h, m') ->
  let s := fst (storage m) in
  let d := if customTimelock =? 0 then defaultTimelock s else customTimelock in
  let secret :=
    keccak256 [AAddr (msg_sender c); AUint (block_timestamp c);
               AUint (block_difficulty c); AUint amountIn; AUint amountOut] in
  let o := mapping_get CrossChainOrder_zero (orders (fst (storage m'))) h in
  msg_value c = 0 /\ tokenIn <> 0 /\
  minTimelock s <= d <= maxTimelock s /\
  orderHash o = h /\
  hashlock o = keccak256 [AB32 secret] /\
  timelock o = block_timestamp c + d /\
  FusionMonadAdapter.tokenIn o = tokenIn /\
  FusionMonadAdapter.amountIn o = amountIn /\
  exists l,
    log m' = l ++ [(this c, CrossChainOrderCreated h (msg_sender c) tokenIn tokenOut
                              amountIn amountOut (hashlock o) (timelock o)
                              targetChainId monadReceiver);
                   (this c, SecretGenerated h secret)].
Proof.
  unfold createCrossChainOrder, _storeSecretForRelayer, self. sol_unfold.
  destruct m as [[s hs] w l].
  sol_run; try discriminate; repeat (sol_call; try discriminate);
    intros E; inversion E; subst; clear E; simpl;
    unfold mapping_get; rewrite lookup_insert_eq; simpl; bool_prop;
    (repeat split; try lia; try congruence; eauto);
    eexists; rewrite <- app_assoc; reflexivity.
Qed.

(** With the native sentinel as input token the call never gets past
    its guards. *)
Lemma createCrossChainOrder_native_reverts (c : Ctx) (tokenOut : address)
    (amountIn amountOut : uint256) (monadReceiver : address)
    (targetChainId customTimelock : uint256) (m : Machine Deployment) :
  is_ok (createCrossChainOrder c 0 tokenOut amountIn amountOut monadReceiver
           targetChainId customTimelock m) = false.
Proof.
  destruct (createCrossChainOrder c 0 tokenOut amountIn amountOut monadReceiver
              targetChainId customTimelock m) as [[h m']|e] eqn:E; [|reflexivity].
  apply createCrossChainOrder_ok in E. simpl in E. tauto.
Qed.
End CreationFacts.

Section OutgoingFacts.
Context {HS : Hashes} {EX : Extern}.

Import MonadBridge.

Lemma createOutgoingOrder_ok (c : Ctx) (tokenIn tokenOut : address)
    (amountIn amountOut : uint256) (ethereumReceiver : address)
    (targetChainId customTimelock : uint256) (m m' : Machine Deployment)
    (h : bytes32) :
  createOutgoingOrder c tokenIn tokenOut amountIn amountOut ethereumReceiver
    targetChainId customTimelock m = Ok (h, m') ->
  let s := fst (storage m) in
  let d := if customTimelock =? 0 then defaultTimelock s else customTimelock in
  let secret :=
    keccak256 [AAddr (msg_sender c); AUint (block_timestamp c);
               AUint (block_difficulty c); AUint amountIn; AUint amountOut] in
  let o := mapping_get OutgoingOrder.zero (outgoingOrders (fst (storage m'))) h in
  msg_value c = 0 /\ tokenIn <> 0 /\
  minTimelock s <= d <= maxTimelock s /\
  OutgoingOrder.orderHash o = h /\
  OutgoingOrder.hashlock o = keccak256 [AB32 secret] /\
  OutgoingOrder.timelock o = block_timestamp c + d /\
  OutgoingOrder.tokenIn o = tokenIn /\
  OutgoingOrder.amountIn o = amountIn /\
  exists l,
    log m' = l ++ [(this c, OutgoingOrderCreated h (msg_sender c) tokenIn tokenOut
                              amountIn amountOut (OutgoingOrder.hashlock o)
                              (OutgoingOrder.timelock o) targetChainId
                              ethereumReceiver);
                   (this c, SecretGenerated h secret)].
Proof.
  unfold createOutgoingOrder, _storeSecretForRelayer, self,
    MonadHTLC.newContractERC20, MonadHTLC.newContract, MonadHTLC.fundsSent,
    MonadHTLC.futureTimelock.
  sol_unfold. destruct m as [[s hs] w l].
  sol_run; try discriminate;
    intros E; inversion E; subst; clear E; simpl;
    unfold mapping_get; rewrite lookup_insert_eq; simpl; bool_prop;
    (repeat split; try lia; try congruence; eauto);
    eexists; rewrite <- app_assoc; reflexivity.
Qed.

Lemma createOutgoingOrder_native_reverts (c : Ctx) (tokenOut : address)
    (amountIn amountOut : uint256) (ethereumReceiver : address)
    (targetChainId customTimelock : uint256) (m : Machine Deployment) :
  is_ok (createOutgoingOrder c 0 tokenOut amountIn amountOut ethereumReceiver
           targetChainId customTimelock m) = false.
Proof.
  destruct (createOutgoingOrder c 0 tokenOut amountIn amountOut ethereumReceiver
              targetChainId customTimelock m) as [[h m']|e] eqn:E; [|reflexivity].
  apply createOutgoingOrder_ok in E. simpl in E. tauto.
Qed.
End OutgoingFacts.

(** ** Mirroring and fulfilling an order on the target chain *)

Section IncomingFacts.
Context {HS : Hashes} {EX : Extern}.

Import MonadBridge.

Lemma processEthereumOrder_ok (c : Ctx) (h : bytes32) (tokenIn tokenOut : address)
    (amountIn amountOut : uint256) (hashlock : bytes32) (timelock : uint256)
    (ethereumMaker monadReceiver : address) (m m' : Machine Deployment) :
  processEthereumOrder c h tokenIn tokenOut amountIn amountOut hashlock timelock
    ethereumMaker monadReceiver m = Ok (tt, m') ->
  mapping_get false (authorizedRelayers (fst (storage m))) (msg_sender c) = true /\
  block_timestamp c < timelock /\
  incoming m' h =
    IncomingOrder.mk h tokenIn tokenOut amountIn amountOut hashlock timelock
      ethereumMaker monadReceiver false false (block_timestamp c) 0 0 /\
  snd (storage m') = snd (storage m).
Proof.
  unfold processEthereumOrder, onlyAuthorizedRelayer, self, incoming. sol_unfold.
  destruct m as [[s hs] w l].
  sol_run; try discriminate;
    intros E; inversion E; subst; clear E; simpl;
    unfold mapping_get; rewrite lookup_insert_eq; simpl; bool_prop;
    (repeat split; try lia; try congruence; eauto).
Qed.

(** The escrow that a successful [fulfillIncomingOrder] locks. *)
Lemma fulfillIncomingOrder_ok (c : Ctx) (h secret : bytes32)
    (m m' : Machine Deployment) :
  fulfillIncomingOrder c h secret m = Ok (tt, m') ->
  let o := incoming m h in
  let htlc := MonadHTLC.contracts (snd (storage m'))
                (IncomingOrder.htlcContractId (incoming m' h)) in
  keccak256 [AB32 secret] = IncomingOrder.hashlock o /\
  block_timestamp c < IncomingOrder.timelock o /\
  IncomingOrder.fulfilled (incoming m' h) = true /\
  IncomingOrder.timelock (incoming m' h) = IncomingOrder.timelock o /\
  IHTLC.timelock htlc = IncomingOrder.timelock o /\
  IHTLC.hashlock htlc = IncomingOrder.hashlock o /\
  IHTLC.receiver htlc = IncomingOrder.monadReceiver o /\
  IHTLC.amount htlc = IncomingOrder.amountOut o.
Proof.
  unfold fulfillIncomingOrder, self, incoming,
    MonadHTLC.newContractERC20, MonadHTLC.newContract, MonadHTLC.fundsSent,
    MonadHTLC.futureTimelock.
  sol_unfold. destruct m as [[s hs] w l].
  sol_run; try discriminate;
    intros E; inversion E; subst; clear E; simpl;
    rewrite !mapping_get_insert_eq; simpl;
    rewrite contracts_insert_eq; simpl; bool_prop;
    (repeat split; try lia; try congruence; eauto).
Qed.
End IncomingFacts.

(** ** C2: the timelock of the target-side escrow *)

(** C2 (as amended).  When an order created on Ethereum is mirrored by the
    relayer and then fulfilled on Monad, the target-side escrow gets exactly
    the timelock of the source order, creation time plus the effective
    duration: the two sides expire together and no gap is enforced. *)
Theorem C2_target_timelock_is_source_timelock {HS : Hashes} {EX : Extern}
    {EthereumHTLC : IHTLC.Impl}
    (c0 c1 c2 : Ctx) (tokenIn tokenOut : address) (amountIn amountOut : uint256)
    (monadReceiver : address) (targetChainId customTimelock : uint256)
    (src src' : Machine FusionMonadAdapter.Deployment) (h secret : bytes32)
    (m0 m1 m2 : Machine MonadBridge.Deployment) :
  let o := mapping_get FusionMonadAdapter.CrossChainOrder_zero
             (FusionMonadAdapter.orders (fst (storage src'))) h in
  let created :=
    CrossChainOrderCreated h (msg_sender c0) tokenIn tokenOut amountIn amountOut
      (FusionMonadAdapter.hashlock o) (FusionMonadAdapter.timelock o) targetChainId
      monadReceiver in
  let d := if customTimelock =? 0
           then FusionMonadAdapter.defaultTimelock (fst (storage src))
           else customTimelock in
  FusionMonadAdapter.createCrossChainOrder c0 tokenIn tokenOut amountIn amountOut
    monadReceiver targetChainId customTimelock src = Ok (h, src') ->
  Relayer.relayEthereumToMonad c1 created m0 = Ok (tt, m1) ->
  MonadBridge.fulfillIncomingOrder c2 h secret m1 = Ok (tt, m2) ->
  let htlc := MonadHTLC.contracts (snd (storage m2))
                (MonadBridge.IncomingOrder.htlcContractId (MonadBridge.incoming m2 h)) in
  In (this c0, created) (log src') /\
  FusionMonadAdapter.timelock o = block_timestamp c0 + d /\
  IHTLC.timelock htlc = FusionMonadAdapter.timelock o /\
  IHTLC.hashlock htlc = FusionMonadAdapter.hashlock o.
Proof.
  intros o created d Hsrc Hrelay Hfulfil htlc.
  apply createCrossChainOrder_ok in Hsrc.
  destruct Hsrc as (_ & _ & _ & _ & _ & Htl & _ & _ & l & Hlog).
  apply processEthereumOrder_ok in Hrelay. destruct Hrelay as (_ & _ & Hin & _).
  apply fulfillIncomingOrder_ok in Hfulfil.
  destruct Hfulfil as (_ & _ & _ & _ & Ht & Hh & _).
  rewrite Hin in Ht, Hh. simpl in Ht, Hh.
  split; [|split; [exact Htl|split; [exact Ht|exact Hh]]].
  rewrite Hlog. apply in_or_app. right. left. reflexivity.
Qed.

(** The example swap: the source order and the escrow locked for it on Monad
    both expire at T0 + 24 h. *)
Lemma C2_target_timelock_is_source_timelock_witness :
  IHTLC.timelock ex_target_htlc = 1700086400 /\
  FusionMonadAdapter.timelock ex_source_order = 1700086400.
Proof.
  assert (Hsrc : ex_source = Ok (ex_orderHash, ex_ethereum'))
    by (vm_compute; reflexivity).
  assert (Hrelay : @Relayer.relayEthereumToMonad toy_hashes trace_world relayer_ctx
                     ex_created ex_monad0 = Ok (tt, ex_monad1))
    by (vm_compute; reflexivity).
  assert (Hfulfil : @MonadBridge.fulfillIncomingOrder toy_hashes trace_world
                      fulfiller_ctx ex_orderHash ex_leaked_secret ex_monad1
                    = Ok (tt, ex_monad2))
    by (vm_compute; reflexivity).
  destruct (@C2_target_timelock_is_source_timelock toy_hashes trace_world
              EthereumHTLC_standin maker_ctx relayer_ctx fulfiller_ctx tokenA tokenB
              (10 ^ 18) (98 * 10 ^ 16) receiver_addr 1 0 ex_ethereum ex_ethereum'
              ex_orderHash ex_leaked_secret ex_monad0 ex_monad1 ex_monad2
              Hsrc Hrelay Hfulfil) as (_ & Hs & Ht & _).
  split; [unfold ex_target_htlc; rewrite Ht|]; exact Hs.
Defined.

(** C2 as stated fails on the example swap: every call of it succeeds and the
    target-side escrow does not expire before the source order. *)
Lemma C2_target_expires_with_source :
  is_ok ex_source = true /\
  is_ok (@MonadBridge.fulfillIncomingOrder toy_hashes trace_world fulfiller_ctx
           ex_orderHash ex_leaked_secret ex_monad1) = true /\
  ~ (IHTLC.timelock ex_target_htlc < FusionMonadAdapter.timelock ex_source_order).
Proof.
  split; [vm_compute; reflexivity|].
  split; [vm_compute; reflexivity|].
  vm_compute. intros H. discriminate H.
Qed.

(** ** C3: where the secret of an order becomes visible *)

(** C3 (as amended).  Every successful order creation, on either bridge,
    ends by emitting [SecretGenerated(orderHash, secret)], and that secret is
    the preimage of the hashlock stored for the order: the secret is public
    from creation on.  A successful withdrawal publishes it again in
    [HTLCWithdrawn]. *)
Theorem C3_creation_emits_secret {HS : Hashes} {EX : Extern}
    {EthereumHTLC : IHTLC.Impl} (c : Ctx) (tokenIn tokenOut : address)
    (amountIn amountOut : uint256) (receiver : address)
    (targetChainId customTimelock : uint256) (h : bytes32) :
  (forall m m' : Machine FusionMonadAdapter.Deployment,
     FusionMonadAdapter.createCrossChainOrder c tokenIn tokenOut amountIn amountOut
       receiver targetChainId customTimelock m = Ok (h, m') ->
     exists secret l,
       log m' = l ++ [(this c, SecretGenerated h secret)] /\
       keccak256 [AB32 secret] =
         FusionMonadAdapter.hashlock
           (mapping_get FusionMonadAdapter.CrossChainOrder_zero
              (FusionMonadAdapter.orders (fst (storage m'))) h))
  /\ (forall m m' : Machine MonadBridge.Deployment,
        MonadBridge.createOutgoingOrder c tokenIn tokenOut amountIn amountOut
          receiver targetChainId customTimelock m = Ok (h, m') ->
        exists secret l,
          log m' = l ++ [(this c, SecretGenerated h secret)] /\
          keccak256 [AB32 secret] =
            MonadBridge.OutgoingOrder.hashlock
              (mapping_get MonadBridge.OutgoingOrder.zero
                 (MonadBridge.outgoingOrders (fst (storage m'))) h))
  /\ (forall (id secret : bytes32) (m m' : Machine MonadHTLC.Storage),
        MonadHTLC.withdraw c id secret m = Ok (tt, m') ->
        log m' = log m ++ [(this c, HTLCWithdrawn id secret)] /\
        keccak256 [AB32 secret] = IHTLC.hashlock (MonadHTLC.contracts (storage m) id)).
Proof.
  split; [|split].
  - intros m m' E. apply createCrossChainOrder_ok in E.
    destruct E as (_ & _ & _ & _ & Hh & _ & _ & _ & l & Hlog).
    eexists; eexists. split; [|symmetry; exact Hh].
    rewrite Hlog. exact (app_assoc l [_] [_]).
  - intros m m' E. apply createOutgoingOrder_ok in E.
    destruct E as (_ & _ & _ & _ & Hh & _ & _ & _ & l & Hlog).
    eexists; eexists. split; [|symmetry; exact Hh].
    rewrite Hlog. exact (app_assoc l [_] [_]).
  - intros id secret m m' E. split.
    + apply withdraw_ok_effect in E. tauto.
    + assert (Hok : is_ok (MonadHTLC.withdraw c id secret m) = true) by (rewrite E; reflexivity).
      apply withdraw_ok_iff in Hok. tauto.
Qed.

(** The example orders: the last event of each creation is the secret. *)
Lemma C3_creation_emits_secret_witness :
  (exists secret l,
     log ex_ethereum' = l ++ [(adapter_addr, SecretGenerated ex_orderHash secret)] /\
     @keccak256 toy_hashes [AB32 secret] = FusionMonadAdapter.hashlock ex_source_order)
  /\ (exists secret l,
        log ex_monad_out = l ++ [(bridge_addr, SecretGenerated ex_outgoing_hash secret)] /\
        @keccak256 toy_hashes [AB32 secret]
          = MonadBridge.OutgoingOrder.hashlock ex_outgoing_order).
Proof.
  split.
  - apply (proj1 (@C3_creation_emits_secret toy_hashes trace_world EthereumHTLC_standin
                    maker_ctx tokenA tokenB (10 ^ 18) (98 * 10 ^ 16) receiver_addr 1 0
                    ex_orderHash) ex_ethereum ex_ethereum').
    vm_compute; reflexivity.
  - apply (proj1 (proj2 (@C3_creation_emits_secret toy_hashes trace_world
                           EthereumHTLC_standin (mkCtx bridge_addr maker_addr 0 T0 0)
                           tokenB tokenA (10 ^ 18) (98 * 10 ^ 16) receiver_addr 1 7200
                           ex_outgoing_hash)) ex_monad ex_monad_out).
    vm_compute; reflexivity.
Defined.

(** C3 as stated fails on the example orders: among the events emitted by
    each creation (the logs were empty before) one carries the preimage of
    the order's hashlock. *)
Lemma C3_creation_reveals_secret :
  is_ok ex_source = true /\ log ex_ethereum = [] /\
  existsb (fun ae => @carries_preimage toy_hashes
                       (FusionMonadAdapter.hashlock ex_source_order) (snd ae))
    (log ex_ethereum') = true /\
  is_ok ex_outgoing = true /\ log ex_monad = [] /\
  existsb (fun ae => @carries_preimage toy_hashes
                       (MonadBridge.OutgoingOrder.hashlock ex_outgoing_order) (snd ae))
    (log ex_monad_out) = true.
Proof. vm_compute. repeat split; reflexivity. Qed.

(** ** C7: orders paid in the native asset *)

(** C7 (what the code does).  With the zero address as [tokenIn] no order can
    be created on either bridge: the call reverts for every caller, state and
    argument.  On the happy-path input it reverts at the non-payable entry
    when the amount is sent along and at the "Invalid input token" guard when
    it is not. *)
Theorem C7_native_order_reverts {HS : Hashes} {EX : Extern}
    {EthereumHTLC : IHTLC.Impl} (c : Ctx) (tokenOut : address)
    (amountIn amountOut : uint256) (receiver : address)
    (targetChainId customTimelock : uint256)
    (m : Machine FusionMonadAdapter.Deployment) (mb : Machine MonadBridge.Deployment) :
  is_ok (FusionMonadAdapter.createCrossChainOrder c 0 tokenOut amountIn amountOut
           receiver targetChainId customTimelock m) = false
  /\ is_ok (MonadBridge.createOutgoingOrder c 0 tokenOut amountIn amountOut
              receiver targetChainId customTimelock mb) = false
  /\ ex_native_with_value = Revert NotPayable
  /\ ex_native_without_value = Revert (Require "Invalid input token").
Proof.
  split; [apply createCrossChainOrder_native_reverts|].
  split; [apply createOutgoingOrder_native_reverts|].
  split; vm_compute; reflexivity.
Qed.

(** ** C8: the timelock bounds at order creation *)



(** ** The resolver's table of orders *)

Ltac ts_unfold :=
  unfold andThen, try_catch, pure, throw, read, write, logger, now, submit,
    provider_getBlockNumber, contract_queryFilter in *.

Section JsMapFacts.
Context {V : Type}.



Lemma get_None_not_In (k : string) (m : JsMap.t V) :
  JsMap.get k m = None <-> ~ In k (JsMap.keys m).
Proof.
  induction m as [|[k' v'] m IH]; simpl; [tauto|].
  destruct (String.eqb k' k) eqn:E.
  - apply String.eqb_eq in E. split; [discriminate|]. intros H. exfalso. auto.
  - apply String.eqb_neq in E. rewrite IH. tauto.
Qed.



Lemma get_alter_eq (f : V -> V) (k : string) (m : JsMap.t V) :
  JsMap.get k (JsMap.alter f k m) = option_map f (JsMap.get k m).
Proof.
  induction m as [|[k' v'] m IH]; simpl; [reflexivity|].
  destruct (String.eqb k' k) eqn:E; simpl; rewrite E; [reflexivity|exact IH].
Qed.

Lemma get_alter_ne (f : V -> V) (k k' : string) (m : JsMap.t V) :
  k' <> k -> JsMap.get k' (JsMap.alter f k m) = JsMap.get k' m.
Proof.
  intros Hne. induction m as [|[k0 v0] m IH]; simpl; [reflexivity|].
  destruct (String.eqb k0 k) eqn:E; simpl.
  - apply String.eqb_eq in E. subst k0.
    destruct (String.eqb k k') eqn:E'; [|reflexivity].
    apply String.eqb_eq in E'. congruence.
  - destruct (String.eqb k0 k'); [reflexivity|exact IH].
Qed.

Lemma keys_alter (f : V -> V) (k : string) (m : JsMap.t V) :
  JsMap.keys (JsMap.alter f k m) = JsMap.keys m.
Proof.
  unfold JsMap.keys. induction m as [|[k' v'] m IH]; simpl; [reflexivity|].
  destruct (String.eqb k' k); simpl; [reflexivity|]. by rewrite IH.
Qed.

(** In a well-formed map (no key twice) the entries are what [get] finds. *)
Lemma In_get (k : string) (v : V) (m : JsMap.t V) :
  List.NoDup (JsMap.keys m) -> In (k, v) m -> JsMap.get k m = Some v.
Proof.
  unfold JsMap.keys. induction m as [|[k' v'] m IH]; simpl; [tauto|].
  intros Hnd [E|Hin]; inversion Hnd; subst.
  - inversion E; subst. by rewrite String.eqb_refl.
  - destruct (String.eqb k' k) eqn:Ek; [|auto].
    apply String.eqb_eq in Ek. subst k'. exfalso. apply H1.
    change k with (fst (k, v)). by apply List.in_map.
Qed.

Lemma get_In (k : string) (v : V) (m : JsMap.t V) :
  JsMap.get k m = Some v -> In (k, v) m.
Proof.
  induction m as [|[k' v'] m IH]; simpl; [discriminate|].
  destruct (String.eqb k' k) eqn:Ek; [|auto].
  apply String.eqb_eq in Ek. intros E. inversion E; subst. auto.
Qed.
End JsMapFacts.

(** ** C6: the capacity of the pending-order table *)

Section CapacityFacts.
Context {NW : Network}.
Import ResolverService.

End CapacityFacts.


(** ** C10: resolving a swap with a secret *)

Ltac ts_step :=
  match goal with
  | |- context [match send ?tx ?n with _ => _ end] =>
      destruct (send tx n) as [[|] ?] eqn:?; simpl
  | |- context [match getBlockNumber ?c ?n with _ => _ end] =>
      destruct (getBlockNumber c n) as [[?|] ?] eqn:?; simpl
  | |- context [match queryFilter ?c ?f ?a ?b ?n with _ => _ end] =>
      destruct (queryFilter c f a b n) as [[?|] ?] eqn:?; simpl
  | |- context [if ?b then _ else _] => destruct b eqn:?; simpl
  end.

Section ResolveFacts.
Context {NW : Network}.
Import ResolverService.

(** C10.  [resolveAtomicSwap] always finishes.  When no order is pending
    under the hash, or the Keccak-256 of the UTF-8 encoding of the secret is
    not the stored hashlock, it throws, submits nothing and leaves the
    pending-order map and the secret store as they were.  It changes either
    of them only when the hash matches; when it returns normally the secret
    is stored under the order hash and the order is marked resolved with
    that secret. *)
Theorem C10_resolve_checks_secret (orderHash secret : string) (s : Service t) :
  exists r s',
    resolveAtomicSwap orderHash secret s = Done r s' /\
    (secret_matches orderHash secret (fields s) = false ->
       (exists e, r = Thrown e) /\ fields s' = fields s /\ sent s' = sent s) /\
    (fields s' <> fields s -> secret_matches orderHash secret (fields s) = true) /\
    (r = Returned tt ->
       secret_matches orderHash secret (fields s) = true /\
       secretStore (fields s') = JsMap.set orderHash secret (secretStore (fields s)) /\
       exists at_,
         pendingOrders (fields s')
         = JsMap.alter (mark_resolved secret at_) orderHash (pendingOrders (fields s))).
Proof.
  destruct s as [[po ss] n lg sn].
  unfold resolveAtomicSwap, executeAtomicSwapBothChains, secret_matches,
    set_secretStore, set_pendingOrders.
  ts_unfold. simpl.
  destruct (JsMap.get orderHash po) as [order|] eqn:Eget; simpl.
  2:{ eexists; eexists. split; [reflexivity|]. simpl.
      repeat split; try congruence; eauto. }
  destruct (keccak256_utf8 secret) as [expected|] eqn:Ek; simpl.
  2:{ eexists; eexists. split; [reflexivity|]. simpl.
      repeat split; try congruence; eauto. }
  destruct (String.eqb expected (hashlock order)) eqn:Eh; simpl.
  2:{ eexists; eexists. split; [reflexivity|]. simpl.
      repeat split; try congruence; eauto. }
  destruct (is_ethereum (sourceChain order)); simpl; repeat ts_step;
    (eexists; eexists; split; [reflexivity|]; simpl;
     repeat split; try congruence; eauto).
Qed.
End ResolveFacts.

(** ** C9: delivering an event to the resolver *)

Section DeliveryFacts.
Context {NW : Network}.
Import ResolverService.

Lemma propagateSecret_spec (contractId secret sourceChain : string) (s : Service t) :
  exists s',
    propagateSecret contractId secret sourceChain s = Done (Returned tt) s' /\
    fields s' = fields s /\
    sent s' = sent s ++ [TxWithdraw (if String.eqb sourceChain "ethereum"
                                     then monadHTLC else ethereumHTLC)
                           contractId secret].
Proof.
  destruct s as [f n lg sn]. unfold propagateSecret. ts_unfold. simpl.
  destruct (String.eqb sourceChain "ethereum"); simpl; ts_step;
    eexists; (split; [reflexivity|]); simpl; auto.
Qed.

(** One delivery: the handler returns, touches no field of the resolver and
    submits the withdrawals of the event. *)
Lemma deliver_spec (event : HTLCEvent) (s : Service t) :
  exists s',
    processEvents [event] s = Done (Returned tt) s' /\
    fields s' = fields s /\
    sent s' = sent s ++ withdrawals event.
Proof.
  unfold processEvents, withdrawals, handleHTLCCreated, handleHTLCWithdrawn,
    handleHTLCRefunded. simpl for_each.
  destruct (type event); simpl.
  - destruct s as [f n lg sn]. ts_unfold. simpl.
    eexists. split; [reflexivity|]. simpl. rewrite app_nil_r. auto.
  - destruct (truthy (event_secret event)) eqn:Et.
    + destruct (propagateSecret_spec (contractId event) (default "" (event_secret event))
                  (chain event)
                  (mkService (fields s) (net s) (logged s ++ [(info, "HTLC withdrawn")])
                     (sent s))) as (s' & Hrun & Hf & Hs).
      unfold andThen, try_catch, pure, logger at 1. rewrite Hrun.
      eexists. split; [reflexivity|]. auto.
    + destruct s as [f n lg sn]. ts_unfold. simpl.
      eexists. split; [reflexivity|]. simpl. rewrite app_nil_r. auto.
  - destruct s as [f n lg sn]. ts_unfold. simpl.
    eexists. split; [reflexivity|]. simpl. rewrite app_nil_r. auto.
Qed.

Lemma processEvents_cons (event : HTLCEvent) (events : list HTLCEvent) (s s1 : Service t) :
  processEvents [event] s = Done (Returned tt) s1 ->
  processEvents (event :: events) s = processEvents events s1.
Proof.
  unfold processEvents. simpl. unfold andThen at 1 2.
  destruct (try_catch _ _ s) as [[[]|e] s2|]; simpl; try discriminate.
  unfold pure. intros E. inversion E. reflexivity.
Qed.

Lemma processEvents_spec (events : list HTLCEvent) (s : Service t) :
  exists s',
    processEvents events s = Done (Returned tt) s' /\
    fields s' = fields s /\
    sent s' = sent s ++ flat_map withdrawals events.
Proof.
  revert s. induction events as [|event events IH]; intros s.
  - exists s. simpl. rewrite app_nil_r. auto.
  - destruct (deliver_spec event s) as (s1 & Hrun & Hf & Hs).
    destruct (IH s1) as (s' & Hrun' & Hf' & Hs').
    exists s'. rewrite (processEvents_cons _ _ _ _ Hrun). split; [exact Hrun'|].
    split; [congruence|]. rewrite Hs', Hs. simpl. by rewrite app_assoc.
Qed.

(** C9 (as amended).  The resolver keeps no set of delivered events:
    delivering an event never changes the pending orders or the secret store,
    so those are the same after two deliveries as after one; but each
    delivery of a [withdrawn] event with a secret submits the withdrawal on
    the other chain again. *)
Theorem C9_delivery_keeps_fields_and_resubmits (event : HTLCEvent) (s : Service t) :
  exists once twice,
    processEvents [event] s = Done (Returned tt) once /\
    processEvents [event; event] s = Done (Returned tt) twice /\
    fields once = fields s /\
    fields twice = fields once /\
    sent once = sent s ++ withdrawals event /\
    sent twice = sent once ++ withdrawals event.
Proof.
  destruct (processEvents_spec [event] s) as (once & H1 & Hf1 & Hs1).
  destruct (processEvents_spec [event; event] s) as (twice & H2 & Hf2 & Hs2).
  exists once, twice. simpl in Hs1, Hs2. rewrite app_nil_r in Hs1, Hs2.
  repeat split; try assumption; [congruence|].
  rewrite Hs2, Hs1. by rewrite app_assoc.
Qed.
End DeliveryFacts.

(** C9 as stated fails on the example [withdrawn] event: after the second
    delivery the resolver has submitted the withdrawal twice, so its state is
    not the one after the first. *)
Lemma C9_replay_submits_again :
  let s := ex_resolver_service ex_early in
  let once := @ResolverService.processEvents calm_net [ex_withdrawn] s in
  let twice := @ResolverService.processEvents calm_net [ex_withdrawn; ex_withdrawn] s in
  returned once = true /\ returned twice = true /\
  sent (final once s) = [TxWithdraw monadHTLC "0xC1D" "s3cret"] /\
  sent (final twice s)
    = [TxWithdraw monadHTLC "0xC1D" "s3cret"; TxWithdraw monadHTLC "0xC1D" "s3cret"] /\
  final twice s <> final once s.
Proof.
  vm_compute. repeat split; try reflexivity. intros H. discriminate H.
Qed.

(** ** C5: the timeout sweep *)

Section SweepFacts.
Context {NW : Network}.
Import ResolverService.

Lemma mark_refunded_twice (t1 t2 : Z) (o : PendingOrder) :
  mark_refunded t2 (mark_refunded t1 o) = mark_refunded t2 o.
Proof. reflexivity. Qed.

Lemma swept_refl (done : list string) (m : JsMap.t PendingOrder) : swept done m m.
Proof. intros k. by left. Qed.

Lemma swept_alter (k : string) (at_ : Z) (m : JsMap.t PendingOrder) :
  swept [k] m (JsMap.alter (mark_refunded at_) k m).
Proof.
  intros k'. destruct (String.eqb k' k) eqn:E.
  - apply String.eqb_eq in E. subst k'. rewrite get_alter_eq.
    destruct (JsMap.get k m) as [o|]; simpl; [|by left].
    right. split; [by left|]. by exists o, at_.
  - apply String.eqb_neq in E. left. by apply get_alter_ne.
Qed.

Lemma swept_trans (d1 d2 : list string) (m0 m1 m2 : JsMap.t PendingOrder) :
  swept d1 m0 m1 -> swept d2 m1 m2 -> swept (d1 ++ d2) m0 m2.
Proof.
  intros H1 H2 k. destruct (H2 k) as [E2|(Hin2 & o1 & t2 & E1 & E2)].
  - rewrite E2. destruct (H1 k) as [E1|(Hin1 & o & t1 & E0 & E1)]; [by left|].
    right. split; [apply List.in_or_app; by left|]. by exists o, t1.
  - right. split; [apply List.in_or_app; by right|].
    destruct (H1 k) as [E0|(Hin1 & o & t1 & E0 & E1')].
    + exists o1, t2. split; congruence.
    + exists o, t2. split; [exact E0|]. rewrite E2.
      rewrite E1' in E1. inversion E1. reflexivity.
Qed.

(** One refund: the call is submitted for an Ethereum order; the order is
    marked refunded when that call returned, and left alone when it threw. *)
Lemma processRefund_spec (key : string) (order : PendingOrder) (s : Service t) :
  let accepted :=
    if is_ethereum (sourceChain order)
    then fst (send (TxRefund (orderHash order)) (net s)) else true in
  exists s',
    processRefund (key, order) s = Done (Returned tt) s' /\
    secretStore (fields s') = secretStore (fields s) /\
    sent s' = sent s ++ refund_calls (key, order) /\
    pendingOrders (fields s')
    = (if accepted
       then JsMap.alter (mark_refunded (Date_now (net s'))) key (pendingOrders (fields s))
       else pendingOrders (fields s)).
Proof.
  destruct s as [[po ss] n lg sn]. unfold processRefund, refund_calls, set_pendingOrders.
  ts_unfold. simpl.
  destruct (is_ethereum (sourceChain order)); simpl.
  - destruct (send (TxRefund (orderHash order)) n) as [[|] n'] eqn:Es; simpl;
      eexists; (split; [reflexivity|]); simpl; auto.
  - eexists. split; [reflexivity|]. simpl. rewrite app_nil_r. auto.
Qed.

Lemma for_each_cons {S A} (x : A) (xs : list A) (body : A -> TS S unit) (s s1 : Service S) :
  body x s = Done (Returned tt) s1 ->
  for_each (x :: xs) body s = for_each xs body s1.
Proof. simpl. unfold andThen. intros E. by rewrite E. Qed.

Lemma refunds_spec (entries : list (string * PendingOrder)) (s : Service t) :
  exists s',
    for_each entries processRefund s = Done (Returned tt) s' /\
    secretStore (fields s') = secretStore (fields s) /\
    sent s' = sent s ++ flat_map refund_calls entries /\
    JsMap.keys (pendingOrders (fields s')) = JsMap.keys (pendingOrders (fields s)) /\
    swept (map fst entries) (pendingOrders (fields s)) (pendingOrders (fields s')).
Proof.
  revert s. induction entries as [|[key order] entries IH]; intros s.
  - exists s. simpl. rewrite app_nil_r. repeat split; auto. apply swept_refl.
  - destruct (processRefund_spec key order s) as (s1 & Hrun & Hss & Hsent & Hpo).
    destruct (IH s1) as (s' & Hrun' & Hss' & Hsent' & Hkeys' & Hsw').
    exists s'. rewrite (for_each_cons _ _ _ _ _ Hrun).
    split; [exact Hrun'|]. split; [congruence|].
    split; [rewrite Hsent', Hsent; simpl; by rewrite app_assoc|].
    assert (Hstep : JsMap.keys (pendingOrders (fields s1))
                    = JsMap.keys (pendingOrders (fields s)) /\
                    swept [key] (pendingOrders (fields s)) (pendingOrders (fields s1))).
    { rewrite Hpo. destruct (if is_ethereum (sourceChain order) then _ else true).
      - split; [apply keys_alter|apply swept_alter].
      - split; [reflexivity|apply swept_refl]. }
    destruct Hstep as [Hk Hsw]. split; [congruence|].
    exact (swept_trans [key] (map fst entries) _ _ _ Hsw Hsw').
Qed.

(** When every refund call is accepted, each processed key ends up holding
    its order marked refunded. *)
Lemma refunds_all_marked (entries : list (string * PendingOrder)) (s s' : Service t) :
  (forall tx n, fst (send tx n) = true) ->
  for_each entries processRefund s = Done (Returned tt) s' ->
  forall k, In k (map fst entries) ->
    exists at_,
      JsMap.get k (pendingOrders (fields s'))
      = option_map (mark_refunded at_) (JsMap.get k (pendingOrders (fields s))).
Proof.
  intros Hacc. revert s. induction entries as [|[key order] entries IH]; intros s Hrun k Hin.
  - destruct Hin.
  - destruct (processRefund_spec key order s) as (s1 & Hrun1 & _ & _ & Hpo).
    rewrite (for_each_cons _ _ _ _ _ Hrun1) in Hrun.
    assert (Hpo1 : pendingOrders (fields s1)
                   = JsMap.alter (mark_refunded (Date_now (net s1))) key
                       (pendingOrders (fields s))).
    { rewrite Hpo. destruct (is_ethereum (sourceChain order)); [|reflexivity].
      by rewrite Hacc. }
    destruct (List.in_dec String.string_dec k (map fst entries)) as [Hlater|Hnot].
    + destruct (IH s1 Hrun k Hlater) as (t2 & E2). rewrite E2, Hpo1.
      destruct (String.eqb k key) eqn:Ek.
      * apply String.eqb_eq in Ek. subst k. rewrite get_alter_eq.
        exists t2. by destruct (JsMap.get key (pendingOrders (fields s))).
      * apply String.eqb_neq in Ek. rewrite get_alter_ne by exact Ek. by exists t2.
    + destruct Hin as [E|Hin]; [|contradiction]. simpl in E. subst k.
      destruct (refunds_spec entries s1) as (s2 & Hrun2 & _ & _ & _ & Hsw).
      rewrite Hrun in Hrun2. inversion Hrun2; subst s2.
      destruct (Hsw key) as [E|(Hin' & _)]; [|contradiction].
      rewrite E, Hpo1, get_alter_eq. by eexists.
Qed.

Lemma expired_key (currentTime : Z) (table : JsMap.t PendingOrder) (k : string) :
  List.NoDup (JsMap.keys table) ->
  In k (map fst (List.filter (fun entry => due currentTime (snd entry)) table)) ->
  exists o, JsMap.get k table = Some o /\ due currentTime o = true.
Proof.
  intros Hwf Hin. apply List.in_map_iff in Hin. destruct Hin as ([k' o] & Hk & Hin).
  simpl in Hk. subst k'. apply List.filter_In in Hin. destruct Hin as [Hin Hdue].
  exists o. split; [by apply In_get|exact Hdue].
Qed.

(** C5 (as amended).  The sweep always finishes.  It processes a refund for
    exactly the orders whose status is pending and for which the current time
    in milliseconds exceeds (timelock - 3600) * 1000, that is from one hour
    before the timelock on; for those with Ethereum as source chain, and in
    table order, it submits [refund(orderHash)] on the adapter.  No other
    order changes, and an order changes only by being marked refunded; when
    every refund call is accepted each processed order is marked refunded,
    as soon as the call returns. *)
Theorem C5_sweep_refunds_from_buffer (s : Service t)
    (Hwf : List.NoDup (JsMap.keys (pendingOrders (fields s)))) :
  let table := pendingOrders (fields s) in
  let currentTime := Date_now (net s) in
  let expired := List.filter (fun entry => due currentTime (snd entry)) table in
  exists s',
    handleTimeoutRefunds s = Done (Returned tt) s' /\
    sent s' = sent s ++ flat_map refund_calls expired /\
    secretStore (fields s') = secretStore (fields s) /\
    JsMap.keys (pendingOrders (fields s')) = JsMap.keys table /\
    (forall k o, JsMap.get k table = Some o -> due currentTime o = false ->
       JsMap.get k (pendingOrders (fields s')) = Some o) /\
    (forall k o', JsMap.get k (pendingOrders (fields s')) = Some o' ->
       JsMap.get k table = Some o' \/
       exists o at_, JsMap.get k table = Some o /\ due currentTime o = true /\
                     o' = mark_refunded at_ o) /\
    ((forall tx n, fst (send tx n) = true) ->
     forall k o, JsMap.get k table = Some o -> due currentTime o = true ->
       exists at_, JsMap.get k (pendingOrders (fields s')) = Some (mark_refunded at_ o)).
Proof.
  intros table currentTime expired.
  destruct (refunds_spec expired s) as (s1 & Hrun & Hss & Hsent & Hkeys & Hsw).
  assert (Hend : exists s',
             handleTimeoutRefunds s = Done (Returned tt) s' /\
             fields s' = fields s1 /\ sent s' = sent s1).
  { unfold handleTimeoutRefunds, try_catch, andThen, now, read.
    fold currentTime. fold table. fold expired. rewrite Hrun.
    destruct (0 <? Z.of_nat (length expired)); unfold logger, pure;
      eexists; (split; [reflexivity|]); simpl; auto. }
  destruct Hend as (s' & Hfin & Hf & Hs). exists s'. rewrite Hf, Hs.
  subst expired currentTime table.
  split; [exact Hfin|]. split; [exact Hsent|]. split; [exact Hss|].
  split; [exact Hkeys|]. split; [|split].
  - intros k o Hget Hnot. destruct (Hsw k) as [E|(Hin & _)]; [congruence|].
    destruct (expired_key _ _ k Hwf Hin) as (o2 & Hget2 & Hdue). congruence.
  - intros k o' Hget'. destruct (Hsw k) as [E|(Hin & o & at_ & E0 & E1)].
    + left. congruence.
    + right. exists o, at_. split; [exact E0|].
      destruct (expired_key _ _ k Hwf Hin) as (o2 & Hget2 & Hdue).
      split; congruence.
  - intros Hacc k o Hget Hdue.
    assert (Hin : In k (map fst (List.filter
                          (fun entry => due (Date_now (net s)) (snd entry))
                          (pendingOrders (fields s))))).
    { apply List.in_map_iff. exists (k, o). split; [reflexivity|].
      apply List.filter_In. split; [by apply get_In|exact Hdue]. }
    destruct (refunds_all_marked _ s s1 Hacc Hrun k Hin) as (at_ & E).
    exists at_. rewrite E. by rewrite Hget.
Qed.
End SweepFacts.

(** The example order, swept after its timelock: its refund is submitted. *)
Lemma C5_sweep_refunds_from_buffer_witness :
  exists s',
    @ResolverService.handleTimeoutRefunds calm_net
      (ex_resolver_service (mkSim 1000 (1700086401 * 1000))) = Done (Returned tt) s' /\
    sent s' = [TxRefund "0x01"].
Proof.
  assert (Hwf : List.NoDup (JsMap.keys (ResolverService.pendingOrders
                  (fields (ex_resolver_service (mkSim 1000 (1700086401 * 1000))))))).
  { simpl. constructor; [simpl; tauto|constructor]. }
  destruct (@C5_sweep_refunds_from_buffer calm_net
              (ex_resolver_service (mkSim 1000 (1700086401 * 1000))) Hwf)
    as (s' & Hrun & Hsent & _).
  exists s'. split; [exact Hrun|]. rewrite Hsent. vm_compute. reflexivity.
Defined.

(** C5 as stated fails on the example order: half an hour before its
    timelock the sweep submits its refund and marks it refunded. *)
Lemma C5_refund_before_timelock :
  let s := ex_resolver_service ex_early in
  let r := @ResolverService.handleTimeoutRefunds calm_net s in
  returned r = true /\
  sent (final r s) = [TxRefund "0x01"] /\
  @Date_now calm_net (net s) < ResolverService.timelock (ex_pending "0x01") * 1000 /\
  option_map ResolverService.status
    (JsMap.get "0x01" (ResolverService.pendingOrders (fields (final r s))))
  = Some ResolverService.refunded.
Proof. vm_compute. repeat split; reflexivity. Qed.

(** ** What the pieces of the services do to the state *)

Section TSFacts.
Context {NW : Network} {S : Type}.

Lemma calm_quiet (c : TS S unit) : calm c -> quiet c.
Proof.
  intros H s r s' E. destruct (H s) as (s1 & E1 & Hf). rewrite E1 in E.
  inversion E; subst. auto.
Qed.

Lemma settles_keeps {A} (c : TS S A) : settles c -> keeps c.
Proof.
  intros H s r s' E. destruct (H s) as (r1 & s1 & E1 & Hf). rewrite E1 in E.
  inversion E; subst. auto.
Qed.

Lemma calm_settles (c : TS S unit) : calm c -> settles c.
Proof. intros H s. destruct (H s) as (s' & E & Hf). eauto. Qed.

Lemma quiet_keeps (c : TS S unit) : quiet c -> keeps c.
Proof. intros H s r s' E. by destruct (H s r s' E). Qed.

Lemma calm_pure : calm (pure (S := S) tt).
Proof. intros s. by exists s. Qed.

Lemma calm_logger (l : Level) (message : string) : calm (logger (S := S) l message).
Proof. intros s. eexists. split; reflexivity. Qed.

Lemma settles_throw {A} (message : string) : settles (throw (S := S) (A := A) message).
Proof. intros s. by exists (Thrown message), s. Qed.

Lemma settles_submit (tx : TxCall) : settles (submit (S := S) tx).
Proof.
  intros s. unfold submit. destruct (send tx (net s)) as [[|] n];
    eexists; eexists; split; reflexivity.
Qed.

Lemma settles_queryFilter (c : ContractName) (filter : string) (a b : Z) :
  settles (contract_queryFilter (S := S) c filter a b).
Proof.
  intros s. unfold contract_queryFilter.
  destruct (queryFilter c filter a b (net s)) as [[evs|] n];
    eexists; eexists; split; reflexivity.
Qed.

Lemma settles_settled_queryFilter (c : ContractName) (filter : string) (a b : Z) :
  settles (settled_queryFilter (S := S) c filter a b).
Proof.
  intros s. unfold settled_queryFilter.
  destruct (queryFilter c filter a b (net s)) as [r n].
  eexists; eexists; split; reflexivity.
Qed.

Lemma settles_andThen {A B} (c : TS S A) (k : A -> TS S B) :
  settles c -> (forall a, settles (k a)) -> settles (andThen c k).
Proof.
  intros Hc Hk s. unfold andThen. destruct (Hc s) as (r & s1 & E & Hf). rewrite E.
  destruct r as [a|e].
  - destruct (Hk a s1) as (r2 & s2 & E2 & Hf2). exists r2, s2. split; congruence.
  - exists (Thrown e), s1. auto.
Qed.

Lemma settles_promise_all3 {A} (p1 p2 p3 : TS S (option A)) :
  settles p1 -> settles p2 -> settles p3 -> settles (promise_all3 p1 p2 p3).
Proof.
  intros H1 H2 H3. unfold promise_all3.
  apply settles_andThen; [exact H1|]. intros r1.
  apply settles_andThen; [exact H2|]. intros r2.
  apply settles_andThen; [exact H3|]. intros r3.
  destruct r1, r2, r3; try apply settles_throw.
  intros s. eexists; eexists; split; reflexivity.
Qed.

Lemma calm_andThen (c : TS S unit) (k : unit -> TS S unit) :
  calm c -> (forall a, calm (k a)) -> calm (andThen c k).
Proof.
  intros Hc Hk s. unfold andThen. destruct (Hc s) as (s1 & E & Hf). rewrite E.
  destruct (Hk tt s1) as (s2 & E2 & Hf2). exists s2. split; congruence.
Qed.

Lemma calm_try_catch (c : TS S unit) (handler : string -> TS S unit) :
  settles c -> (forall e, calm (handler e)) -> calm (try_catch c handler).
Proof.
  intros Hc Hh s. unfold try_catch. destruct (Hc s) as (r & s1 & E & Hf). rewrite E.
  destruct r as [[]|e].
  - by exists s1.
  - destruct (Hh e s1) as (s2 & E2 & Hf2). exists s2. split; congruence.
Qed.

Lemma calm_for_each {A} (xs : list A) (body : A -> TS S unit) :
  (forall x, calm (body x)) -> calm (for_each xs body).
Proof.
  intros Hb. induction xs as [|x xs IH]; simpl; [apply calm_pure|].
  apply calm_andThen; auto.
Qed.

Lemma keeps_andThen {A B} (c : TS S A) (k : A -> TS S B) :
  keeps c -> (forall a, keeps (k a)) -> keeps (andThen c k).
Proof.
  intros Hc Hk s r s'. unfold andThen.
  destruct (c s) as [[a|e] s1|] eqn:E; [| |discriminate].
  - intros E2. rewrite (Hk a s1 r s' E2). exact (Hc s _ s1 E).
  - intros E2. inversion E2; subst. exact (Hc s _ s' E).
Qed.

Lemma keeps_try_catch {A} (c : TS S A) (handler : string -> TS S A) :
  keeps c -> (forall e, keeps (handler e)) -> keeps (try_catch c handler).
Proof.
  intros Hc Hh s r s'. unfold try_catch.
  destruct (c s) as [[a|e] s1|] eqn:E; [| |discriminate].
  - intros E2. inversion E2; subst. exact (Hc s _ s' E).
  - intros E2. rewrite (Hh e s1 r s' E2). exact (Hc s _ s1 E).
Qed.

Lemma quiet_andThen (c : TS S unit) (k : unit -> TS S unit) :
  quiet c -> (forall a, quiet (k a)) -> quiet (andThen c k).
Proof.
  intros Hc Hk s r s'. unfold andThen.
  destruct (c s) as [[a|e] s1|] eqn:E; [| |discriminate].
  - intros E2. destruct (Hk a s1 r s' E2) as [Hr Hf]. split; [exact Hr|].
    rewrite Hf. by destruct (Hc s _ s1 E).
  - destruct (Hc s _ s1 E) as [Hr _]. discriminate Hr.
Qed.

Lemma quiet_try_catch (c : TS S unit) (handler : string -> TS S unit) :
  keeps c -> (forall e, quiet (handler e)) -> quiet (try_catch c handler).
Proof.
  intros Hc Hh s r s'. unfold try_catch.
  destruct (c s) as [[[]|e] s1|] eqn:E; [| |discriminate].
  - intros E2. inversion E2; subst. split; [reflexivity|exact (Hc s _ s' E)].
  - intros E2. destruct (Hh e s1 r s' E2) as [Hr Hf]. split; [exact Hr|].
    rewrite Hf. exact (Hc s _ s1 E).
Qed.

Lemma quiet_for_each {A} (xs : list A) (body : A -> TS S unit) :
  (forall x, quiet (body x)) -> quiet (for_each xs body).
Proof.
  intros Hb. induction xs as [|x xs IH]; simpl; [apply calm_quiet, calm_pure|].
  apply quiet_andThen; auto.
Qed.

Lemma keeps_out_of_fuel {A} : keeps (out_of_fuel (S := S) (A := A)).
Proof. intros s r s' E. discriminate E. Qed.

Lemma keeps_retryWithBackoff {A} (fuel : nat) (fn : TS S A) (maxRetries currentRetry : Z) :
  keeps fn -> keeps (RelayerService.retryWithBackoff fuel fn maxRetries currentRetry).
Proof.
  intros Hfn. revert currentRetry. induction fuel as [|fuel IH]; intros currentRetry; simpl.
  - apply keeps_out_of_fuel.
  - apply keeps_try_catch; [exact Hfn|]. intros e.
    destruct (maxRetries <=? currentRetry).
    + apply settles_keeps, settles_throw.
    + apply keeps_andThen; [apply settles_keeps, calm_settles, calm_logger|].
      intros _. apply IH.
Qed.

Lemma keeps_relayEthereumToMonad (fuel : nat) (orderHash : bytes32)
    (tokenIn tokenOut : address) (amountIn amountOut : uint256) (hashlock : bytes32)
    (timelock : uint256) (maker monadReceiver : address) :
  keeps (RelayerService.relayEthereumToMonad (S := S) fuel orderHash tokenIn tokenOut
           amountIn amountOut hashlock timelock maker monadReceiver).
Proof.
  induction fuel as [|fuel IH]; simpl.
  - apply keeps_out_of_fuel.
  - apply keeps_try_catch.
    + apply settles_keeps, settles_andThen; [apply calm_settles, calm_logger|].
      intros _. apply settles_andThen; [apply settles_submit|].
      intros _. apply calm_settles, calm_logger.
    + intros e. apply keeps_andThen; [apply settles_keeps, calm_settles, calm_logger|].
      intros _. apply keeps_retryWithBackoff. exact IH.
Qed.
End TSFacts.

(** ** C4: what moves the cursors of the monitor *)

Section MonitorFacts.
Context {NW : Network}.
Import EventMonitor.

Lemma calm_handle_and_log (l : Level) (message failure : string) (event : EventLog) :
  calm (handle_and_log l message failure event).
Proof.
  unfold handle_and_log. apply calm_try_catch.
  - destruct event; [apply calm_settles, calm_logger|apply settles_throw].
  - intros e. apply calm_logger.
Qed.

Lemma quiet_handleCrossChainOrderCreated (fuel : nat) (event : EventLog) :
  quiet (handleCrossChainOrderCreated fuel event).
Proof.
  unfold handleCrossChainOrderCreated. apply quiet_try_catch.
  - destruct event as [args b|b]; [|apply settles_keeps, settles_throw].
    destruct args; try (apply settles_keeps, settles_throw).
    apply keeps_andThen; [apply settles_keeps, calm_settles, calm_logger|].
    intros _. apply keeps_relayEthereumToMonad.
  - intros e. apply calm_quiet, calm_logger.
Qed.

(** Whatever the queries answer and the handlers meet, processing the
    adapter's events finishes without throwing and keeps the cursors. *)
Lemma quiet_processFusionAdapterEvents (fuel : nat) (fromBlock toBlock : Z) :
  quiet (processFusionAdapterEvents fuel fromBlock toBlock).
Proof.
  unfold processFusionAdapterEvents. apply quiet_try_catch.
  - apply keeps_andThen; [apply settles_keeps, settles_queryFilter|]. intros evs1.
    apply keeps_andThen.
    { apply quiet_keeps, quiet_for_each. intros x.
      apply quiet_handleCrossChainOrderCreated. }
    intros _. apply settles_keeps.
    apply settles_andThen; [apply settles_queryFilter|]. intros evs2.
    apply settles_andThen.
    { apply calm_settles, calm_for_each. intros x. apply calm_handle_and_log. }
    intros _. apply settles_andThen; [apply settles_queryFilter|]. intros evs3.
    apply calm_settles, calm_for_each. intros x. apply calm_handle_and_log.
  - intros e. apply calm_quiet, calm_logger.
Qed.

Lemma calm_processHTLCEvents (htlc : ContractName) (failure : string)
    (fromBlock toBlock : Z) :
  calm (processHTLCEvents htlc failure fromBlock toBlock).
Proof.
  unfold processHTLCEvents. apply calm_try_catch.
  - apply settles_andThen.
    { apply settles_promise_all3; apply settles_settled_queryFilter. }
    intros [[evs1 evs2] evs3].
    apply settles_andThen.
    { apply calm_settles, calm_for_each. intros x. apply calm_handle_and_log. }
    intros _. apply settles_andThen.
    { apply calm_settles, calm_for_each. intros x. apply calm_handle_and_log. }
    intros _. apply calm_settles, calm_for_each. intros x. apply calm_handle_and_log.
  - intros e. apply calm_logger.
Qed.

Lemma calm_processMonadBridgeEvents (fromBlock toBlock : Z) :
  calm (processMonadBridgeEvents fromBlock toBlock).
Proof.
  unfold processMonadBridgeEvents. apply calm_try_catch.
  - apply settles_andThen; [apply settles_queryFilter|]. intros evs1.
    apply settles_andThen.
    { apply calm_settles, calm_for_each. intros x. apply calm_handle_and_log. }
    intros _. apply settles_andThen; [apply settles_queryFilter|]. intros evs2.
    apply calm_settles, calm_for_each. intros x. apply calm_handle_and_log.
  - intros e. apply calm_logger.
Qed.

Lemma monitorEthereumEvents_spec (fuel : nat) (s s' : Service t) (r : outcome unit) :
  monitorEthereumEvents fuel s = Done r s' ->
  r = Returned tt /\
  isRunning (fields s') = isRunning (fields s) /\
  monad (lastProcessedBlock (fields s')) = monad (lastProcessedBlock (fields s)) /\
  ethereum (lastProcessedBlock (fields s'))
  = (if isRunning (fields s)
     then next_cursor (ethereum (lastProcessedBlock (fields s)))
            (fst (getBlockNumber fusionAdapter (net s)))
     else ethereum (lastProcessedBlock (fields s))).
Proof.
  destruct s as [[running [e m]] n lg sn].
  unfold monitorEthereumEvents, next_cursor, processEthereumHTLCEvents.
  unfold andThen, try_catch, read, write, pure, logger, provider_getBlockNumber. simpl.
  destruct running; simpl; [|intros E; inversion E; subst; simpl; auto].
  destruct (getBlockNumber fusionAdapter n) as [[b|] n1]; simpl;
    [|intros E; inversion E; subst; simpl; auto].
  destruct (b - BLOCK_CONFIRMATIONS <=? e); simpl;
    [intros E; inversion E; subst; simpl; auto|].
  match goal with
  | |- context [processFusionAdapterEvents fuel ?a ?b ?s0] =>
      destruct (processFusionAdapterEvents fuel a b s0) as [r1 s1|] eqn:E1;
      [apply quiet_processFusionAdapterEvents in E1; destruct E1 as [-> Hf1]
      |discriminate]
  end.
  match goal with
  | |- context [processHTLCEvents ?h ?f ?a ?b s1] =>
      destruct (calm_processHTLCEvents h f a b s1) as (s2 & E2 & Hf2); rewrite E2
  end.
  intros E; inversion E; subst; simpl.
  rewrite Hf2, Hf1. simpl. auto.
Qed.

Lemma monitorMonadEvents_spec (s : Service t) :
  exists s',
    monitorMonadEvents s = Done (Returned tt) s' /\
    isRunning (fields s') = isRunning (fields s) /\
    ethereum (lastProcessedBlock (fields s')) = ethereum (lastProcessedBlock (fields s)) /\
    monad (lastProcessedBlock (fields s'))
    = (if isRunning (fields s)
       then next_cursor (monad (lastProcessedBlock (fields s)))
              (fst (getBlockNumber monadBridge (net s)))
       else monad (lastProcessedBlock (fields s))).
Proof.
  destruct s as [[running [e m]] n lg sn].
  unfold monitorMonadEvents, next_cursor, processMonadHTLCEvents.
  unfold andThen, try_catch, read, write, pure, logger, provider_getBlockNumber. simpl.
  destruct running; simpl; [|eexists; split; [reflexivity|]; simpl; auto].
  destruct (getBlockNumber monadBridge n) as [[b|] n1]; simpl;
    [|eexists; split; [reflexivity|]; simpl; auto].
  destruct (b - BLOCK_CONFIRMATIONS <=? m); simpl;
    [eexists; split; [reflexivity|]; simpl; auto|].
  match goal with
  | |- context [processMonadBridgeEvents ?a ?b ?s0] =>
      destruct (calm_processMonadBridgeEvents a b s0) as (s1 & E1 & Hf1); rewrite E1
  end.
  match goal with
  | |- context [processHTLCEvents ?h ?f ?a ?b s1] =>
      destruct (calm_processHTLCEvents h f a b s1) as (s2 & E2 & Hf2); rewrite E2
  end.
  eexists. split; [reflexivity|]. simpl. rewrite Hf2, Hf1. simpl. auto.
Qed.

(** On a network that accepts every transaction the first attempt of a relay
    succeeds, so any fuel but none lets the Ethereum monitor finish. *)
Lemma calm_relayEthereumToMonad (fuel : nat) (orderHash : bytes32)
    (tokenIn tokenOut : address) (amountIn amountOut : uint256) (hashlock : bytes32)
    (timelock : uint256) (maker monadReceiver : address) :
  (forall tx n, fst (send tx n) = true) ->
  calm (RelayerService.relayEthereumToMonad (S := t) (S fuel) orderHash tokenIn tokenOut
          amountIn amountOut hashlock timelock maker monadReceiver).
Proof.
  intros Hacc s. simpl. unfold try_catch, andThen, logger, submit. simpl.
  match goal with
  | |- context [send ?tx ?n] =>
      pose proof (Hacc tx n) as Hs; destruct (send tx n) as [b n']; simpl in Hs; subst b
  end.
  eexists. split; reflexivity.
Qed.

Lemma calm_processFusionAdapterEvents (fuel : nat) (fromBlock toBlock : Z) :
  (forall tx n, fst (send tx n) = true) ->
  calm (processFusionAdapterEvents (S fuel) fromBlock toBlock).
Proof.
  intros Hacc. unfold processFusionAdapterEvents. apply calm_try_catch.
  - apply settles_andThen; [apply settles_queryFilter|]. intros evs1.
    apply settles_andThen.
    { apply calm_settles, calm_for_each. intros x.
      unfold handleCrossChainOrderCreated. apply calm_try_catch.
      - destruct x as [args b|b]; [|apply settles_throw].
        destruct args; try apply settles_throw.
        apply settles_andThen; [apply calm_settles, calm_logger|].
        intros _. apply calm_settles, calm_relayEthereumToMonad, Hacc.
      - intros e. apply calm_logger. }
    intros _. apply settles_andThen; [apply settles_queryFilter|]. intros evs2.
    apply settles_andThen.
    { apply calm_settles, calm_for_each. intros x. apply calm_handle_and_log. }
    intros _. apply settles_andThen; [apply settles_queryFilter|]. intros evs3.
    apply calm_settles, calm_for_each. intros x. apply calm_handle_and_log.
  - intros e. apply calm_logger.
Qed.

Lemma monitorEthereumEvents_finishes (fuel : nat) (s : Service t) :
  (forall tx n, fst (send tx n) = true) ->
  exists s', monitorEthereumEvents (S fuel) s = Done (Returned tt) s'.
Proof.
  intros Hacc. pose proof (calm_processFusionAdapterEvents fuel) as Hcalm.
  remember (S fuel) as fuel1 eqn:Hfuel. clear Hfuel.
  destruct s as [[running [e m]] n lg sn].
  unfold monitorEthereumEvents, processEthereumHTLCEvents.
  unfold andThen, try_catch, read, write, pure, logger, provider_getBlockNumber. simpl.
  destruct running; simpl; [|eexists; reflexivity].
  destruct (getBlockNumber fusionAdapter n) as [[b|] n1]; simpl;
    [|eexists; reflexivity].
  destruct (b - BLOCK_CONFIRMATIONS <=? e); simpl; [eexists; reflexivity|].
  match goal with
  | |- context [processFusionAdapterEvents fuel1 ?a ?b ?s0] =>
      destruct (Hcalm a b Hacc s0) as (s1 & E1 & Hf1); rewrite E1
  end.
  match goal with
  | |- context [processHTLCEvents ?h ?f ?a ?b s1] =>
      destruct (calm_processHTLCEvents h f a b s1) as (s2 & E2 & Hf2); rewrite E2
  end.
  eexists. reflexivity.
Qed.

Lemma next_cursor_le (cursor : Z) (currentBlock : option Z) :
  cursor <= next_cursor cursor currentBlock.
Proof.
  unfold next_cursor, BLOCK_CONFIRMATIONS, MAX_BLOCKS_PER_QUERY.
  destruct currentBlock as [b|]; [|lia].
  destruct (b - 3 <=? cursor) eqn:E; [lia|]. apply Z.leb_gt in E. lia.
Qed.
End MonitorFacts.

(** C4 (as amended).  An iteration of the Ethereum monitor that finishes
    has not thrown.  It moves the Ethereum cursor to
    [toBlock = min(currentBlock - 3, cursor + 100)] whenever the monitor is
    running, the block-number query answers and there is a confirmed block
    beyond the cursor, whatever happened to the event queries and handlers of
    the window: their failures are caught and logged where they occur.  The
    cursor stays only when the monitor is stopped, the block-number query
    fails or no new block is confirmed; it never moves back, and the other
    chain's cursor is not touched.  The Monad monitor always finishes and
    does the same to the Monad cursor; the Ethereum monitor finishes when
    the relayed transactions are accepted. *)
Theorem C4_cursor_moves_despite_failures {NW : Network} (fuel : nat)
    (s s' : Service EventMonitor.t) (r : outcome unit)
    (Hrun : EventMonitor.monitorEthereumEvents fuel s = Done r s') :
  let cursor c := EventMonitor.lastProcessedBlock (fields c) in
  (r = Returned tt /\
   EventMonitor.ethereum (cursor s')
   = (if EventMonitor.isRunning (fields s)
      then EventMonitor.next_cursor (EventMonitor.ethereum (cursor s))
             (fst (getBlockNumber fusionAdapter (net s)))
      else EventMonitor.ethereum (cursor s)) /\
   EventMonitor.ethereum (cursor s) <= EventMonitor.ethereum (cursor s') /\
   EventMonitor.monad (cursor s') = EventMonitor.monad (cursor s))
  /\ (exists s'',
       EventMonitor.monitorMonadEvents s = Done (Returned tt) s'' /\
       EventMonitor.monad (cursor s'')
       = (if EventMonitor.isRunning (fields s)
          then EventMonitor.next_cursor (EventMonitor.monad (cursor s))
                 (fst (getBlockNumber monadBridge (net s)))
          else EventMonitor.monad (cursor s)) /\
       EventMonitor.monad (cursor s) <= EventMonitor.monad (cursor s'') /\
       EventMonitor.ethereum (cursor s'') = EventMonitor.ethereum (cursor s))
  /\ ((forall tx n, fst (send tx n) = true) ->
      exists s1, EventMonitor.monitorEthereumEvents (S fuel) s = Done (Returned tt) s1).
Proof.
  intros cursor. subst cursor. simpl. split; [|split].
  - apply monitorEthereumEvents_spec in Hrun. destruct Hrun as (Hr & _ & Hm & He).
    repeat split; try assumption. rewrite He.
    destruct (EventMonitor.isRunning (fields s)); [apply next_cursor_le|lia].
  - destruct (monitorMonadEvents_spec s) as (s'' & E & _ & He & Hm).
    exists s''. repeat split; try assumption. rewrite Hm.
    destruct (EventMonitor.isRunning (fields s)); [apply next_cursor_le|lia].
  - intros Hacc. by apply monitorEthereumEvents_finishes.
Qed.

(** An iteration at height 1000 from cursor 900, on a network whose logs
    cannot be decoded: the cursor goes to 997. *)
Lemma C4_cursor_moves_despite_failures_witness :
  let s := @ex_monitor_service garbled_logs (mkSim 1000 0) in
  let r := @EventMonitor.monitorEthereumEvents garbled_logs 1 s in
  EventMonitor.ethereum (EventMonitor.lastProcessedBlock (fields (final r s))) = 997.
Proof.
  intros s r.
  assert (Hrun : @EventMonitor.monitorEthereumEvents garbled_logs 1 s
                 = Done (Returned tt) (final r s)) by (vm_compute; reflexivity).
  destruct (@C4_cursor_moves_despite_failures garbled_logs 1 s (final r s)
              (Returned tt) Hrun) as [(_ & He & _) _].
  rewrite He. vm_compute. reflexivity.
Defined.

(** C4 as stated fails.  With every event query rejected, and with every
    log undecodable, an iteration from cursor 900 at height 1000 ends with
    the cursor at 997: past blocks 901 to 997, none of whose events was
    processed. *)
Lemma C4_cursor_passes_unread_blocks :
  let s := @ex_monitor_service unreachable_logs (mkSim 1000 0) in
  let r := @EventMonitor.monitorEthereumEvents unreachable_logs 1 s in
  let s2 := @ex_monitor_service garbled_logs (mkSim 1000 0) in
  let r2 := @EventMonitor.monitorEthereumEvents garbled_logs 1 s2 in
  (forall c f a b n, fst (@queryFilter unreachable_logs c f a b n) = None) /\
  returned r = true /\
  EventMonitor.ethereum (EventMonitor.lastProcessedBlock (fields s)) = 900 /\
  EventMonitor.ethereum (EventMonitor.lastProcessedBlock (fields (final r s))) = 997 /\
  sent (final r s) = [] /\
  In (error, "Failed to process Fusion Adapter events:") (logged (final r s)) /\
  returned r2 = true /\
  EventMonitor.ethereum (EventMonitor.lastProcessedBlock (fields (final r2 s2))) = 997 /\
  In (error, "Failed to handle CrossChainOrderCreated event:") (logged (final r2 s2)).
Proof.
  vm_compute. repeat split; try reflexivity; auto 10.
Qed.

(** ** The example states are states the contracts reach *)

Example ex_htlc_reachable :
  and_then (HTLC.constructor (mkCtx 0xC0DE 0xA11CE 0 1700000000 0) 0xB0B
              (@sha256 toy_hashes [AB32 ex_secret]) 1700086400 0)
    (fun st => @HTLC.lock trace_world (mkCtx 0xC0DE 0xA11CE (10 ^ 18) 1700000000 0)
                 (@mkMachine trace_world _ st [] []))
  = Ok (tt, @mkMachine trace_world _ ex_htlc [EthSend 0xA11CE 0xC0DE (10 ^ 18)]
              [(0xC0DE, EvLocked 0xA11CE 0xB0B (10 ^ 18) 0)]).
Proof. vm_compute. reflexivity. Qed.

Example ex_newContract_succeeds : is_ok ex_newContract = true.
Proof. vm_compute. reflexivity. Qed.

Example ex_deployments_constructed :
  FusionMonadAdapter.constructor (mkCtx adapter_addr deployer 0 T0 0) ethereum_htlc_addr
    = Ok ex_adapter /\
  MonadBridge.constructor (mkCtx bridge_addr deployer 0 T0 0) monad_htlc_addr
    = Ok ex_bridge.
Proof. split; reflexivity. Qed.

Example ex_resolve_runs :
  returned (@ResolverService.resolveAtomicSwap calm_net "0x01" "s3cret"
              (ex_resolver_service ex_early)) = true /\
  returned (@ResolverService.resolveAtomicSwap calm_net "0x01" "wrong"
              (ex_resolver_service ex_early)) = false /\
  returned (@ResolverService.resolveAtomicSwap calm_net "0x02" "s3cret"
              (ex_resolver_service ex_early)) = false.
Proof. vm_compute. repeat split; reflexivity. Qed.

(** * Further properties of the contracts and services *)

(** ** HTLC.sol: the life of an escrow *)

Section HTLCLifecycle.
Context {HS : Hashes} {EX : Extern}.

Lemma refund_ok_iff (c : Ctx) (m : Machine HTLC.Storage) :
  is_ok (HTLC.refund c m) = true <->
  msg_value c = 0 /\ HTLC.state (storage m) = HTLC.Locked /\
  HTLC.timelock (storage m) <= block_timestamp c /\
  is_Some (ext_call (HTLC.payout c (storage m) (HTLC.sender (storage m))
                       (HTLC.lockedAmount (storage m))) (world m)).
Proof.
  unfold HTLC.refund, HTLC.payout. sol_unfold. destruct m as [s w l].
  sol_run; bool_prop;
    repeat match goal with
           | H : HTLC.State_eqb _ _ = true |- _ => apply State_eqb_eq in H
           | H : HTLC.State_eqb _ _ = false |- _ => apply State_eqb_neq in H
           end;
    (split; [intros; try discriminate; repeat split; eauto
            | intros (? & ? & ? & [x Hx]); try reflexivity; try congruence; try lia]).
Qed.

Lemma refund_ok_effect (c : Ctx) (m m' : Machine HTLC.Storage) :
  HTLC.refund c m = Ok (tt, m') ->
  HTLC.state (storage m') = HTLC.Refunded /\
  HTLC.lockedAmount (storage m') = 0 /\
  ext_call (HTLC.payout c (storage m) (HTLC.sender (storage m))
              (HTLC.lockedAmount (storage m))) (world m) = Some (world m') /\
  log m' = log m ++ [(this c, EvRefunded (HTLC.sender (storage m)))].
Proof.
  unfold HTLC.refund, HTLC.payout. sol_unfold. destruct m as [s w l].
  sol_run; intros E; inversion E; subst; simpl; auto.
Qed.

(** X1.  [HTLC.refund] succeeds exactly when no value is sent, the escrow is
    [Locked], the block timestamp has reached the timelock and the payout to
    the sender goes through; the caller is not tested.  On success the escrow
    is [Refunded] and empty, the locked amount has gone to the sender and
    [Refunded(sender)] is the one event emitted. *)
Theorem X1_htlc_refund_succeeds_iff (c : Ctx) (m : Machine HTLC.Storage) :
  let s := storage m in
  (is_ok (HTLC.refund c m) = true <->
     msg_value c = 0 /\ HTLC.state s = HTLC.Locked /\
     HTLC.timelock s <= block_timestamp c /\
     is_Some (ext_call (HTLC.payout c s (HTLC.sender s) (HTLC.lockedAmount s)) (world m)))
  /\ (forall m', HTLC.refund c m = Ok (tt, m') ->
        HTLC.state (storage m') = HTLC.Refunded /\
        HTLC.lockedAmount (storage m') = 0 /\
        ext_call (HTLC.payout c s (HTLC.sender s) (HTLC.lockedAmount s)) (world m)
          = Some (world m') /\
        log m' = log m ++ [(this c, EvRefunded (HTLC.sender s))]).
Proof.
  intros s. split; [apply refund_ok_iff|]. intros m'. apply refund_ok_effect.
Qed.

(** What every successful call of the escrow does to its storage. *)
Lemma call_ok_step (c : Ctx) (op : HTLC.Call) (m m' : Machine HTLC.Storage) :
  HTLC.call c op m = Ok (tt, m') ->
  let s := storage m in
  let s' := storage m' in
  (HTLC.sender s' = HTLC.sender s /\ HTLC.receiver s' = HTLC.receiver s /\
   HTLC.hashlock s' = HTLC.hashlock s /\ HTLC.timelock s' = HTLC.timelock s /\
   HTLC.token s' = HTLC.token s) /\
  ((HTLC.state s = HTLC.Empty /\ HTLC.state s' = HTLC.Locked /\
    HTLC.lockedAmount s' <> 0 /\ (op = HTLC.Lock \/ exists a, op = HTLC.LockERC20 a)) \/
   (HTLC.state s = HTLC.Locked /\ HTLC.state s' = HTLC.Claimed /\
    HTLC.lockedAmount s' = 0 /\ exists secret, op = HTLC.Claim secret) \/
   (HTLC.state s = HTLC.Locked /\ HTLC.state s' = HTLC.Refunded /\
    HTLC.lockedAmount s' = 0 /\ op = HTLC.Refund)).
Proof.
  destruct op; unfold HTLC.call, HTLC.lock, HTLC.lockERC20, HTLC.claim, HTLC.refund;
    sol_unfold; destruct m as [s w l];
    sol_run; try discriminate; intros E; inversion E; subst; clear E; simpl;
    bool_prop;
    repeat match goal with
           | H : HTLC.State_eqb _ _ = true |- _ => apply State_eqb_eq in H
           | H : HTLC.State_eqb _ _ = false |- _ => apply State_eqb_neq in H
           end;
    (split; [auto|]); eauto 10.
Qed.

(** X2.  Every successful call of an HTLC.sol escrow leaves the sender,
    receiver, hashlock, timelock and token as they were and makes exactly one
    of three moves: Empty to Locked with a non-zero amount (lock, lockERC20),
    Locked to Claimed with nothing left (claim), Locked to Refunded with
    nothing left (refund).  So funds are locked at most once and released at
    most once, and no call succeeds on a claimed or refunded escrow. *)
Theorem X2_htlc_lifecycle (c : Ctx) (op : HTLC.Call) (m : Machine HTLC.Storage) :
  (forall m', HTLC.call c op m = Ok (tt, m') ->
     let s := storage m in
     let s' := storage m' in
     (HTLC.sender s' = HTLC.sender s /\ HTLC.receiver s' = HTLC.receiver s /\
      HTLC.hashlock s' = HTLC.hashlock s /\ HTLC.timelock s' = HTLC.timelock s /\
      HTLC.token s' = HTLC.token s) /\
     ((HTLC.state s = HTLC.Empty /\ HTLC.state s' = HTLC.Locked /\
       HTLC.lockedAmount s' <> 0 /\ (op = HTLC.Lock \/ exists a, op = HTLC.LockERC20 a)) \/
      (HTLC.state s = HTLC.Locked /\ HTLC.state s' = HTLC.Claimed /\
       HTLC.lockedAmount s' = 0 /\ exists secret, op = HTLC.Claim secret) \/
      (HTLC.state s = HTLC.Locked /\ HTLC.state s' = HTLC.Refunded /\
       HTLC.lockedAmount s' = 0 /\ op = HTLC.Refund)))
  /\ (HTLC.state (storage m) = HTLC.Claimed \/ HTLC.state (storage m) = HTLC.Refunded ->
      is_ok (HTLC.call c op m) = false).
Proof.
  split; [intros m'; apply call_ok_step|].
  intros Hterm. destruct (HTLC.call c op m) as [[[] m']|e] eqn:E; [|reflexivity].
  apply call_ok_step in E. simpl in E.
  destruct E as (_ & [(H & _)|[(H & _)|(H & _)]]); destruct Hterm; congruence.
Qed.
End HTLCLifecycle.

(** ** MonadHTLC.sol: creation, refund, and no second payout *)

Section MonadHTLCFacts.
Context {HS : Hashes} {EX : Extern}.
Import IHTLC.

Ltac htlc_unfold :=
  unfold MonadHTLC.withdraw, MonadHTLC.refund, MonadHTLC.newContract,
    MonadHTLC.newContractERC20, MonadHTLC.contractExists, MonadHTLC.hashlockMatches,
    MonadHTLC.withdrawable, MonadHTLC.refundable, MonadHTLC.fundsSent,
    MonadHTLC.futureTimelock, MonadHTLC._contractExists, MonadHTLC.payout in *.

Lemma monad_refund_ok_iff (c : Ctx) (id : bytes32) (m : Machine MonadHTLC.Storage) :
  let h := MonadHTLC.contracts (storage m) id in
  is_ok (MonadHTLC.refund c id m) = true <->
  msg_value c = 0 /\ sender h <> 0 /\ sender h = msg_sender c /\
  refunded h = false /\ withdrawn h = false /\
  timelock h <= block_timestamp c /\
  is_Some (ext_call (MonadHTLC.payout c h (sender h)) (world m)).
Proof.
  htlc_unfold. sol_unfold. destruct m as [s w l].
  sol_run; bool_prop;
    (split; [intros; try discriminate; repeat split; eauto; try congruence
            | intros (? & ? & ? & ? & ? & ? & [x Hx]);
              try reflexivity; try congruence; try lia]).
Qed.

Lemma monad_refund_ok_storage (c : Ctx) (id : bytes32) (m m' : Machine MonadHTLC.Storage) :
  let h := MonadHTLC.contracts (storage m) id in
  MonadHTLC.refund c id m = Ok (tt, m') ->
  storage m' = <[id := MonadHTLC.set_refunded h]> (storage m) /\
  ext_call (MonadHTLC.payout c h (sender h)) (world m) = Some (world m') /\
  log m' = log m ++ [(this c, HTLCRefunded id)].
Proof.
  htlc_unfold. sol_unfold. destruct m as [s w l].
  sol_run; intros E; inversion E; subst; simpl; auto.
Qed.

Lemma monad_withdraw_ok_storage (c : Ctx) (id secret : bytes32)
    (m m' : Machine MonadHTLC.Storage) :
  MonadHTLC.withdraw c id secret m = Ok (tt, m') ->
  storage m' = <[id := MonadHTLC.set_withdrawn (MonadHTLC.contracts (storage m) id)]>
                 (storage m).
Proof.
  htlc_unfold. sol_unfold. destruct m as [s w l].
  sol_run; intros E; inversion E; subst; simpl; auto.
Qed.

(** X3.  [MonadHTLC.refund] succeeds exactly when no value is sent, the
    escrow exists, the caller is its sender, it is neither refunded nor
    withdrawn, the block timestamp has reached the timelock and the payout to
    the sender goes through.  On success only the refunded flag of that
    escrow changes, the amount goes to the sender and [HTLCRefunded] is the
    one event emitted. *)
Theorem X3_monad_refund_succeeds_iff (c : Ctx) (id : bytes32)
    (m : Machine MonadHTLC.Storage) :
  let h := MonadHTLC.contracts (storage m) id in
  (is_ok (MonadHTLC.refund c id m) = true <->
     msg_value c = 0 /\ sender h <> 0 /\ sender h = msg_sender c /\
     refunded h = false /\ withdrawn h = false /\
     timelock h <= block_timestamp c /\
     is_Some (ext_call (MonadHTLC.payout c h (sender h)) (world m)))
  /\ (forall m', MonadHTLC.refund c id m = Ok (tt, m') ->
        storage m' = <[id := MonadHTLC.set_refunded h]> (storage m) /\
        ext_call (MonadHTLC.payout c h (sender h)) (world m) = Some (world m') /\
        log m' = log m ++ [(this c, HTLCRefunded id)]).
Proof.
  intros h. split; [apply monad_refund_ok_iff|]. intros m'. apply monad_refund_ok_storage.
Qed.

(** Reverts read off the record of an escrow. *)
Lemma withdraw_reverts_if (c : Ctx) (id secret : bytes32) (m : Machine MonadHTLC.Storage) :
  withdrawn (MonadHTLC.contracts (storage m) id) = true \/
  timelock (MonadHTLC.contracts (storage m) id) <= block_timestamp c \/
  receiver (MonadHTLC.contracts (storage m) id) <> msg_sender c ->
  is_ok (MonadHTLC.withdraw c id secret m) = false.
Proof.
  intros H. destruct (is_ok (MonadHTLC.withdraw c id secret m)) eqn:E; [|reflexivity].
  apply withdraw_ok_iff in E. destruct E as (_ & _ & _ & Hr & Hw & Ht & _).
  destruct H as [H|[H|H]]; [congruence|lia|congruence].
Qed.

Lemma refund_reverts_if (c : Ctx) (id : bytes32) (m : Machine MonadHTLC.Storage) :
  withdrawn (MonadHTLC.contracts (storage m) id) = true \/
  refunded (MonadHTLC.contracts (storage m) id) = true \/
  sender (MonadHTLC.contracts (storage m) id) <> msg_sender c ->
  is_ok (MonadHTLC.refund c id m) = false.
Proof.
  intros H. destruct (is_ok (MonadHTLC.refund c id m)) eqn:E; [|reflexivity].
  apply monad_refund_ok_iff in E. destruct E as (_ & _ & Hs & Hr & Hw & _).
  destruct H as [H|[H|H]]; congruence.
Qed.

(** X4.  An escrow of MonadHTLC pays out at most once.  After a successful
    withdraw, every later withdraw and every later refund of that escrow
    reverts, whoever calls and whenever.  After a successful refund, every
    later refund reverts, and so does every withdraw at a block timestamp not
    before that of the refund.  "Later" is any state in which the record of
    the escrow is the one the first call left. *)
Theorem X4_monad_htlc_pays_once (c c' : Ctx) (id secret secret' : bytes32)
    (m m1 m2 : Machine MonadHTLC.Storage) :
  MonadHTLC.contracts (storage m2) id = MonadHTLC.contracts (storage m1) id ->
  (MonadHTLC.withdraw c id secret m = Ok (tt, m1) ->
     is_ok (MonadHTLC.withdraw c' id secret' m2) = false /\
     is_ok (MonadHTLC.refund c' id m2) = false)
  /\ (MonadHTLC.refund c id m = Ok (tt, m1) ->
        is_ok (MonadHTLC.refund c' id m2) = false /\
        (block_timestamp c <= block_timestamp c' ->
         is_ok (MonadHTLC.withdraw c' id secret' m2) = false)).
Proof.
  intros Hsame. split.
  - intros E. apply monad_withdraw_ok_storage in E.
    assert (Hw : withdrawn (MonadHTLC.contracts (storage m2) id) = true).
    { rewrite Hsame, E, contracts_insert_eq. reflexivity. }
    split; [apply withdraw_reverts_if|apply refund_reverts_if]; auto.
  - intros E.
    assert (Hok : is_ok (MonadHTLC.refund c id m) = true) by (rewrite E; reflexivity).
    apply monad_refund_ok_iff in Hok. destruct Hok as (_ & _ & _ & _ & _ & Ht & _).
    apply monad_refund_ok_storage in E. destruct E as (E & _).
    assert (Hr : refunded (MonadHTLC.contracts (storage m2) id) = true).
    { rewrite Hsame, E, contracts_insert_eq. reflexivity. }
    assert (Htl : timelock (MonadHTLC.contracts (storage m2) id)
                  = timelock (MonadHTLC.contracts (storage m) id)).
    { rewrite Hsame, E, contracts_insert_eq. reflexivity. }
    split; [apply refund_reverts_if; auto|].
    intros Hlater. apply withdraw_reverts_if. right. left. rewrite Htl. lia.
Qed.
End MonadHTLCFacts.

(** The example escrow: withdrawn by its receiver in time, then neither a
    second withdraw nor a refund after the timelock succeeds. *)
Lemma X4_monad_htlc_pays_once_witness :
  let m1 := machine_of (@MonadHTLC.withdraw toy_hashes trace_world ex_receiver_in_time
                          ex_contractId ex_secret ex_monad_htlc_machine)
              ex_monad_htlc_machine in
  is_ok (@MonadHTLC.withdraw toy_hashes trace_world ex_receiver_in_time ex_contractId
           ex_secret m1) = false /\
  is_ok (MonadHTLC.refund (EX := trace_world) (mkCtx 0xC0DE 0xA11CE 0 1700172800 0)
           ex_contractId m1) = false.
Proof.
  intros m1.
  assert (Hrun : @MonadHTLC.withdraw toy_hashes trace_world ex_receiver_in_time
                   ex_contractId ex_secret ex_monad_htlc_machine = Ok (tt, m1))
    by (vm_compute; reflexivity).
  split.
  - exact (proj1 (proj1 (X4_monad_htlc_pays_once (HS := toy_hashes)
             (EX := trace_world) ex_receiver_in_time ex_receiver_in_time ex_contractId ex_secret ex_secret
             ex_monad_htlc_machine m1 m1 eq_refl) Hrun)).
  - exact (proj2 (proj1 (X4_monad_htlc_pays_once (HS := toy_hashes)
             (EX := trace_world) ex_receiver_in_time (mkCtx 0xC0DE 0xA11CE 0 1700172800 0) ex_contractId
             ex_secret ex_secret ex_monad_htlc_machine m1 m1 eq_refl) Hrun)).
Defined.

Section MonadHTLCCreation.
Context {HS : Hashes} {EX : Extern}.
Import IHTLC.

Lemma newContract_ok_iff (c : Ctx) (r : address) (h : bytes32) (t : uint256)
    (m : Machine MonadHTLC.Storage) :
  is_ok (MonadHTLC.newContract c r h t m) = true <->
  0 < msg_value c /\ block_timestamp c < t /\
  sender (MonadHTLC.contracts (storage m) (MonadHTLC.native_id c r h t)) = 0 /\
  is_Some (ext_call (EthSend (msg_sender c) (this c) (msg_value c)) (world m)).
Proof.
  unfold MonadHTLC.newContract, MonadHTLC.fundsSent, MonadHTLC.futureTimelock,
    MonadHTLC._contractExists, MonadHTLC.native_id.
  sol_unfold. destruct m as [s w l].
  sol_run; bool_prop;
    (split; [intros; try discriminate; repeat split; eauto; try congruence; try lia
            | intros (? & ? & ? & [x Hx]);
              try reflexivity; try congruence; try lia]).
Qed.

Lemma newContract_ok_effect (c : Ctx) (r : address) (h : bytes32) (t : uint256)
    (m m' : Machine MonadHTLC.Storage) (id : bytes32) :
  MonadHTLC.newContract c r h t m = Ok (id, m') ->
  id = MonadHTLC.native_id c r h t /\
  storage m' = <[id := mkHTLCData (msg_sender c) r 0 (msg_value c) h t false false
                          (block_timestamp c)]> (storage m) /\
  ext_call (EthSend (msg_sender c) (this c) (msg_value c)) (world m) = Some (world m') /\
  log m' = log m ++ [(this c, HTLCCreated id (msg_sender c) r 0 (msg_value c) h t)].
Proof.
  unfold MonadHTLC.newContract, MonadHTLC.fundsSent, MonadHTLC.futureTimelock,
    MonadHTLC._contractExists, MonadHTLC.native_id.
  sol_unfold. destruct m as [s w l].
  sol_run; intros E; inversion E; subst; simpl; auto.
  bool_prop. lia.
Qed.

Lemma newContractERC20_ok_iff (c : Ctx) (r : address) (h : bytes32) (t : uint256)
    (tok : address) (a : uint256) (m : Machine MonadHTLC.Storage) :
  is_ok (MonadHTLC.newContractERC20 c r h t tok a m) = true <->
  msg_value c = 0 /\ block_timestamp c < t /\ 0 < a /\ tok <> 0 /\
  sender (MonadHTLC.contracts (storage m) (MonadHTLC.erc20_id c r h t tok a)) = 0 /\
  is_Some (ext_call (Erc20TransferFrom tok (this c) (msg_sender c) (this c) a) (world m)).
Proof.
  unfold MonadHTLC.newContractERC20, MonadHTLC.futureTimelock,
    MonadHTLC._contractExists, MonadHTLC.erc20_id.
  sol_unfold. destruct m as [s w l].
  sol_run; bool_prop;
    (split; [intros; try discriminate; repeat split; eauto; try congruence; try lia
            | intros (? & ? & ? & ? & ? & [x Hx]);
              try reflexivity; try congruence; try lia]).
Qed.

Lemma newContractERC20_ok_effect (c : Ctx) (r : address) (h : bytes32) (t : uint256)
    (tok : address) (a : uint256) (m m' : Machine MonadHTLC.Storage) (id : bytes32) :
  MonadHTLC.newContractERC20 c r h t tok a m = Ok (id, m') ->
  id = MonadHTLC.erc20_id c r h t tok a /\
  storage m' = <[id := mkHTLCData (msg_sender c) r tok a h t false false
                          (block_timestamp c)]> (storage m) /\
  ext_call (Erc20TransferFrom tok (this c) (msg_sender c) (this c) a) (world m)
    = Some (world m') /\
  log m' = log m ++ [(this c, HTLCCreated id (msg_sender c) r tok a h t)].
Proof.
  unfold MonadHTLC.newContractERC20, MonadHTLC.futureTimelock,
    MonadHTLC._contractExists, MonadHTLC.erc20_id.
  sol_unfold. destruct m as [s w l].
  sol_run; intros E; inversion E; subst; simpl; auto.
Qed.

(** X5.  [MonadHTLC.newContract] succeeds exactly when a positive value is
    sent and arrives, the timelock lies after the block timestamp, and no
    escrow exists yet under the identifier derived from caller, receiver,
    value, hashlock, timelock and block timestamp.  On success [getContract]
    of the returned identifier gives the record just written (caller as
    sender, native token, value as amount, both flags false), every other
    identifier reads as before, and one [HTLCCreated] event is emitted. *)
Theorem X5_newContract_round_trip (c : Ctx) (r : address) (h : bytes32) (t : uint256)
    (m : Machine MonadHTLC.Storage) :
  (is_ok (MonadHTLC.newContract c r h t m) = true <->
     0 < msg_value c /\ block_timestamp c < t /\
     MonadHTLC._contractExists (storage m) (MonadHTLC.native_id c r h t) = false /\
     is_Some (ext_call (EthSend (msg_sender c) (this c) (msg_value c)) (world m)))
  /\ (forall id m', MonadHTLC.newContract c r h t m = Ok (id, m') ->
        id = MonadHTLC.native_id c r h t /\
        MonadHTLC.getContract (storage m') id =
          mkHTLCData (msg_sender c) r 0 (msg_value c) h t false false
            (block_timestamp c) /\
        (forall id', id' <> id ->
           MonadHTLC.getContract (storage m') id' = MonadHTLC.getContract (storage m) id') /\
        log m' = log m ++ [(this c, HTLCCreated id (msg_sender c) r 0 (msg_value c) h t)]).
Proof.
  split.
  - rewrite newContract_ok_iff. unfold MonadHTLC._contractExists.
    rewrite negb_false_iff, Z.eqb_eq. reflexivity.
  - intros id m' E. apply newContract_ok_effect in E.
    destruct E as (Hid & Hs & _ & Hl). unfold MonadHTLC.getContract.
    rewrite Hs. repeat split; auto.
    + apply contracts_insert_eq.
    + intros id' Hne. apply contracts_insert_ne. congruence.
Qed.

(** X6.  [MonadHTLC.newContractERC20] succeeds exactly when no value is
    sent, the timelock lies after the block timestamp, the amount is
    positive, the token is not the zero address, no escrow exists under the
    derived identifier and the [safeTransferFrom] of the amount from the
    caller goes through.  On success the record read back is the one
    written, other identifiers are untouched and [HTLCCreated] is emitted. *)
Theorem X6_newContractERC20_round_trip (c : Ctx) (r : address) (h : bytes32)
    (t : uint256) (tok : address) (a : uint256) (m : Machine MonadHTLC.Storage) :
  (is_ok (MonadHTLC.newContractERC20 c r h t tok a m) = true <->
     msg_value c = 0 /\ block_timestamp c < t /\ 0 < a /\ tok <> 0 /\
     MonadHTLC._contractExists (storage m) (MonadHTLC.erc20_id c r h t tok a) = false /\
     is_Some (ext_call (Erc20TransferFrom tok (this c) (msg_sender c) (this c) a)
                (world m)))
  /\ (forall id m', MonadHTLC.newContractERC20 c r h t tok a m = Ok (id, m') ->
        id = MonadHTLC.erc20_id c r h t tok a /\
        MonadHTLC.getContract (storage m') id =
          mkHTLCData (msg_sender c) r tok a h t false false (block_timestamp c) /\
        (forall id', id' <> id ->
           MonadHTLC.getContract (storage m') id' = MonadHTLC.getContract (storage m) id') /\
        log m' = log m ++ [(this c, HTLCCreated id (msg_sender c) r tok a h t)]).
Proof.
  split.
  - rewrite newContractERC20_ok_iff. unfold MonadHTLC._contractExists.
    rewrite negb_false_iff, Z.eqb_eq. reflexivity.
  - intros id m' E. apply newContractERC20_ok_effect in E.
    destruct E as (Hid & Hs & _ & Hl). unfold MonadHTLC.getContract.
    rewrite Hs. repeat split; auto.
    + apply contracts_insert_eq.
    + intros id' Hne. apply contracts_insert_ne. congruence.
Qed.

(** X7.  The views of MonadHTLC agree with its actions.  For an escrow that
    exists, [isWithdrawable] and [isRefundable] are never both true and one
    of them is true exactly while the escrow is neither withdrawn nor
    refunded; [isRefundable] is true exactly when [getRemainingTime] is 0 on
    such an escrow.  A refund succeeds exactly when [isRefundable] is true,
    no value is sent, the caller is the sender and the payout goes through.
    Whenever a withdraw succeeds, [isWithdrawable] is the negation of the
    refunded flag: true for an escrow that was not refunded. *)
Theorem X7_views_agree_with_actions (c : Ctx) (id : bytes32)
    (m : Machine MonadHTLC.Storage) :
  let s := storage m in
  let h := MonadHTLC.contracts s id in
  (MonadHTLC._contractExists s id = true ->
     exists w r t,
       MonadHTLC.isWithdrawable c s id = Ok w /\
       MonadHTLC.isRefundable c s id = Ok r /\
       MonadHTLC.getRemainingTime c s id = Ok t /\
       w && r = false /\ w || r = MonadHTLC.still_locked h /\
       (MonadHTLC.still_locked h = true -> (r = true <-> t = 0)) /\
       (t = 0 <-> timelock h <= block_timestamp c) /\
       (0 < t -> block_timestamp c + t = timelock h))
  /\ (is_ok (MonadHTLC.refund c id m) = true <->
        MonadHTLC.isRefundable c s id = Ok true /\ msg_value c = 0 /\
        sender h = msg_sender c /\
        is_Some (ext_call (MonadHTLC.payout c h (sender h)) (world m)))
  /\ (forall secret, is_ok (MonadHTLC.withdraw c id secret m) = true ->
        MonadHTLC.isWithdrawable c s id = Ok (negb (refunded h))).
Proof.
  intros s h. split; [|split].
  - intros Hex. unfold MonadHTLC.isWithdrawable, MonadHTLC.isRefundable,
      MonadHTLC.getRemainingTime, MonadHTLC.still_locked. rewrite Hex. fold s h.
    destruct (withdrawn h), (refunded h); simpl;
      destruct (timelock h <=? block_timestamp c) eqn:Et;
      destruct (block_timestamp c <? timelock h) eqn:Et';
      bool_prop; try lia;
      do 3 eexists; repeat split; try reflexivity; intros; try discriminate; try lia.
  - rewrite monad_refund_ok_iff. fold s h.
    unfold MonadHTLC.isRefundable, MonadHTLC._contractExists. fold s h.
    destruct (sender h =? 0) eqn:Es; simpl; bool_prop.
    + split; [intros (_ & Hne & _); congruence | intros (Hd & _); discriminate].
    + destruct (withdrawn h), (refunded h); simpl;
        destruct (timelock h <=? block_timestamp c) eqn:Et; bool_prop;
        (split; [intros (? & ? & ? & ? & ? & ? & ?); try discriminate; try lia;
                 repeat split; auto
                | intros (Hd & ? & ? & ?); try discriminate;
                  repeat split; auto]).
  - intros secret Hok. apply withdraw_ok_iff in Hok. fold s h in Hok.
    destruct Hok as (_ & Hne & _ & _ & Hw & Ht & _).
    unfold MonadHTLC.isWithdrawable, MonadHTLC._contractExists. fold s h.
    apply Z.eqb_neq in Hne. rewrite Hne. simpl. rewrite Hw.
    apply Z.ltb_lt in Ht. rewrite Ht. simpl. destruct (refunded h); reflexivity.
Qed.
End MonadHTLCCreation.

(** ** MonadBridge.sol: mirrored orders and the escrows locked for them *)

Section BridgeFacts.
Context {HS : Hashes} {EX : Extern}.
Import MonadBridge.

Lemma processEthereumOrder_ok_iff (c : Ctx) (h : bytes32) (tokenIn tokenOut : address)
    (amountIn amountOut : uint256) (hashlock : bytes32) (timelock : uint256)
    (ethereumMaker monadReceiver : address) (m : Machine Deployment) :
  is_ok (processEthereumOrder c h tokenIn tokenOut amountIn amountOut hashlock timelock
           ethereumMaker monadReceiver m) = true <->
  msg_value c = 0 /\
  mapping_get false (authorizedRelayers (fst (storage m))) (msg_sender c) = true /\
  h <> 0 /\ IncomingOrder.ethereumOrderHash (incoming m h) = 0 /\
  monadReceiver <> 0 /\ tokenOut <> 0 /\ 0 < amountOut /\ block_timestamp c < timelock.
Proof.
  unfold processEthereumOrder, onlyAuthorizedRelayer, self, incoming. sol_unfold.
  destruct m as [[s hs] w l].
  sol_run; bool_prop;
    (split; [intros; try discriminate; repeat split; eauto; try congruence; try lia
            | intros (? & ? & ? & ? & ? & ? & ? & ?);
              try reflexivity; try congruence; try lia]).
Qed.

Lemma processEthereumOrder_frame (c : Ctx) (h : bytes32) (tokenIn tokenOut : address)
    (amountIn amountOut : uint256) (hashlock : bytes32) (timelock : uint256)
    (ethereumMaker monadReceiver : address) (m m' : Machine Deployment) :
  processEthereumOrder c h tokenIn tokenOut amountIn amountOut hashlock timelock
    ethereumMaker monadReceiver m = Ok (tt, m') ->
  (forall h', h' <> h -> incoming m' h' = incoming m h') /\
  mapping_get [] (userIncomingOrders (fst (storage m'))) monadReceiver =
    mapping_get [] (userIncomingOrders (fst (storage m))) monadReceiver ++ [h] /\
  world m' = world m.
Proof.
  unfold processEthereumOrder, onlyAuthorizedRelayer, self, incoming. sol_unfold.
  destruct m as [[s hs] w l].
  sol_run; try discriminate;
    intros E; inversion E; subst; clear E; simpl.
  repeat split.
  - intros h' Hne. apply mapping_get_insert_ne. congruence.
  - apply mapping_get_insert_eq.
Qed.

(** What a successful [fulfillIncomingOrder] has checked, the record it
    leaves and the escrow it has locked. *)
Lemma fulfillIncomingOrder_escrow (c : Ctx) (h secret : bytes32)
    (m m' : Machine Deployment) :
  fulfillIncomingOrder c h secret m = Ok (tt, m') ->
  let o := incoming m h in
  exists id,
    incoming m' h = set_fulfilled o (msg_sender c) id /\
    (forall h', h' <> h -> incoming m' h' = incoming m h') /\
    MonadHTLC.contracts (snd (storage m')) id =
      IHTLC.mkHTLCData (this c) (IncomingOrder.monadReceiver o)
        (IncomingOrder.tokenOut o) (IncomingOrder.amountOut o)
        (IncomingOrder.hashlock o) (IncomingOrder.timelock o) false false
        (block_timestamp c) /\
    IncomingOrder.ethereumOrderHash o <> 0 /\
    IncomingOrder.fulfilled o = false /\
    IncomingOrder.refunded o = false /\
    block_timestamp c < IncomingOrder.timelock o /\
    keccak256 [AB32 secret] = IncomingOrder.hashlock o /\
    IncomingOrder.tokenOut o <> 0.
Proof.
  unfold fulfillIncomingOrder, self, incoming,
    MonadHTLC.newContractERC20, MonadHTLC.newContract, MonadHTLC.fundsSent,
    MonadHTLC.futureTimelock.
  sol_unfold. destruct m as [[s hs] w l].
  sol_run; try discriminate;
    intros E; inversion E; subst; clear E; simpl;
    eexists; rewrite !mapping_get_insert_eq; rewrite contracts_insert_eq; simpl;
    bool_prop;
    (repeat split; try lia; try congruence; eauto);
    intros h' Hne; apply mapping_get_insert_ne; congruence.
Qed.

(** X8.  [processEthereumOrder] succeeds exactly when no value is sent, the
    caller is an authorized relayer, the order hash is not zero and not yet
    mirrored, receiver and output token are not zero, the output amount is
    positive and the timelock lies after the block timestamp.  It moves no
    funds, leaves every other order as it was and appends the hash to the
    receiver's list.  Once mirrored, a hash is never accepted again: the
    stored hash is the key itself, a later fulfilment keeps it, and any call
    for a key whose stored hash is not zero reverts. *)
Theorem X8_order_mirrored_once (c c' : Ctx) (h : bytes32) (tokenIn tokenOut : address)
    (amountIn amountOut : uint256) (hashlock : bytes32) (timelock : uint256)
    (ethereumMaker monadReceiver : address) (m : Machine Deployment) :
  (is_ok (processEthereumOrder c h tokenIn tokenOut amountIn amountOut hashlock timelock
            ethereumMaker monadReceiver m) = true <->
     msg_value c = 0 /\
     mapping_get false (authorizedRelayers (fst (storage m))) (msg_sender c) = true /\
     h <> 0 /\ IncomingOrder.ethereumOrderHash (incoming m h) = 0 /\
     monadReceiver <> 0 /\ tokenOut <> 0 /\ 0 < amountOut /\ block_timestamp c < timelock)
  /\ (forall m',
        processEthereumOrder c h tokenIn tokenOut amountIn amountOut hashlock timelock
          ethereumMaker monadReceiver m = Ok (tt, m') ->
        IncomingOrder.ethereumOrderHash (incoming m' h) = h /\ h <> 0 /\
        (forall h', h' <> h -> incoming m' h' = incoming m h') /\
        mapping_get [] (userIncomingOrders (fst (storage m'))) monadReceiver =
          mapping_get [] (userIncomingOrders (fst (storage m))) monadReceiver ++ [h] /\
        snd (storage m') = snd (storage m) /\ world m' = world m)
  /\ (forall h' secret m',
        fulfillIncomingOrder c' h' secret m = Ok (tt, m') ->
        IncomingOrder.ethereumOrderHash (incoming m' h) =
        IncomingOrder.ethereumOrderHash (incoming m h))
  /\ (IncomingOrder.ethereumOrderHash (incoming m h) <> 0 ->
      is_ok (processEthereumOrder c h tokenIn tokenOut amountIn amountOut hashlock
               timelock ethereumMaker monadReceiver m) = false).
Proof.
  split; [apply processEthereumOrder_ok_iff|]. split; [|split].
  - intros m' E.
    assert (Hok : is_ok (processEthereumOrder c h tokenIn tokenOut amountIn amountOut
                           hashlock timelock ethereumMaker monadReceiver m) = true)
      by (rewrite E; reflexivity).
    apply processEthereumOrder_ok_iff in Hok. destruct Hok as (_ & _ & Hne & _).
    pose proof (processEthereumOrder_frame _ _ _ _ _ _ _ _ _ _ _ _ E) as (Hf & Hu & Hw).
    apply processEthereumOrder_ok in E. destruct E as (_ & _ & Hin & Hs).
    rewrite Hin. simpl. repeat split; auto.
  - intros h' secret m' E. apply fulfillIncomingOrder_escrow in E.
    destruct E as (id & Hin & Hf & _).
    destruct (Z.eq_dec h h') as [->|Hne]; [rewrite Hin; reflexivity|].
    rewrite Hf by exact Hne. reflexivity.
  - intros Hne.
    destruct (is_ok (processEthereumOrder c h tokenIn tokenOut amountIn amountOut
                       hashlock timelock ethereumMaker monadReceiver m)) eqn:E;
      [|reflexivity].
    apply processEthereumOrder_ok_iff in E. tauto.
Qed.

(** X9.  An incoming order is fulfilled at most once, and the escrow locked
    for it is the receiver's to take.  A successful [fulfillIncomingOrder]
    found the order mirrored, neither fulfilled nor refunded, not expired and
    the secret matching; it records the caller as fulfiller and leaves other
    orders alone.  Every later call for the same order reverts.  The escrow
    has the bridge as sender and the order's receiver, token, amount, hashlock
    and timelock; so the receiver's [withdraw] with the same secret succeeds
    before the timelock whenever the transfer goes through (the bridge not
    being the zero address), while a [refund] or [withdraw] by any other
    account than the bridge, respectively the receiver, reverts: the
    fulfiller who paid for the escrow cannot take it back. *)
Theorem X9_fulfilled_once_and_claimable (c c' : Ctx) (h secret : bytes32)
    (m m' : Machine Deployment) :
  fulfillIncomingOrder c h secret m = Ok (tt, m') ->
  let o := incoming m h in
  let id := IncomingOrder.htlcContractId (incoming m' h) in
  let escrows := mkMachine (snd (storage m')) (world m') (log m') in
  (IncomingOrder.ethereumOrderHash o <> 0 /\ IncomingOrder.fulfilled o = false /\
   IncomingOrder.refunded o = false /\ block_timestamp c < IncomingOrder.timelock o /\
   keccak256 [AB32 secret] = IncomingOrder.hashlock o)
  /\ (incoming m' h = set_fulfilled o (msg_sender c) id /\
      forall h', h' <> h -> incoming m' h' = incoming m h')
  /\ (forall secret' m2, incoming m2 h = incoming m' h ->
        is_ok (fulfillIncomingOrder c' h secret' m2) = false)
  /\ MonadHTLC.getContract (snd (storage m')) id =
       IHTLC.mkHTLCData (this c) (IncomingOrder.monadReceiver o)
         (IncomingOrder.tokenOut o) (IncomingOrder.amountOut o)
         (IncomingOrder.hashlock o) (IncomingOrder.timelock o) false false
         (block_timestamp c)
  /\ (this c <> 0 -> msg_value c' = 0 ->
      msg_sender c' = IncomingOrder.monadReceiver o ->
      block_timestamp c' < IncomingOrder.timelock o ->
      is_Some (ext_call (Erc20Transfer (IncomingOrder.tokenOut o) (this c')
                           (IncomingOrder.monadReceiver o) (IncomingOrder.amountOut o))
                 (world m')) ->
      is_ok (MonadHTLC.withdraw c' id secret escrows) = true)
  /\ (msg_sender c' <> this c -> is_ok (MonadHTLC.refund c' id escrows) = false)
  /\ (msg_sender c' <> IncomingOrder.monadReceiver o ->
      forall secret', is_ok (MonadHTLC.withdraw c' id secret' escrows) = false).
Proof.
  intros E o id escrows.
  pose proof (fulfillIncomingOrder_escrow _ _ _ _ _ E) as
    (id0 & Hin & Hf & Hh & Hex & Hfu & Hre & Ht & Hk & Htok).
  fold o in Hin, Hh, Hex, Hfu, Hre, Ht, Hk, Htok.
  assert (Hid : id = id0) by (unfold id; rewrite Hin; reflexivity).
  rewrite <- Hid in *. clear Hid.
  split; [repeat split; auto|]. split; [auto|].
  split; [|split; [exact Hh|split; [|split]]].
  - intros secret' m2 Hsame.
    destruct (is_ok (fulfillIncomingOrder c' h secret' m2)) eqn:E2; [|reflexivity].
    destruct (fulfillIncomingOrder c' h secret' m2) as [[[] m3]|] eqn:E3;
      [|discriminate].
    apply fulfillIncomingOrder_escrow in E3. destruct E3 as (_ & _ & _ & _ & _ & Hfu2 & _).
    rewrite Hsame, Hin in Hfu2. discriminate.
  - intros Hthis Hv Hs Hlt Hpay. apply withdraw_ok_iff. simpl.
    rewrite Hh. simpl. unfold MonadHTLC.payout. simpl.
    apply Z.eqb_neq in Htok. rewrite Htok. repeat split; auto.
  - intros Hne. apply refund_reverts_if. simpl. rewrite Hh. simpl. auto.
  - intros Hne secret'. apply withdraw_reverts_if. simpl. rewrite Hh. simpl. auto.
Qed.
End BridgeFacts.

(** The example swap: the receiver takes the escrow ten seconds after the
    fulfilment; the fulfiller asks for a refund after the timelock in vain. *)
Lemma X9_fulfilled_once_and_claimable_witness :
  let id := MonadBridge.IncomingOrder.htlcContractId
              (MonadBridge.incoming ex_monad2 ex_orderHash) in
  let escrows := @mkMachine trace_world _ (snd (storage ex_monad2)) (world ex_monad2)
                   (log ex_monad2) in
  is_ok (@MonadHTLC.withdraw toy_hashes trace_world
           (mkCtx monad_htlc_addr receiver_addr 0 (T0 + 30) 0) id ex_leaked_secret
           escrows) = true /\
  is_ok (MonadHTLC.refund (EX := trace_world)
           (mkCtx monad_htlc_addr fulfiller_addr 0 (T0 + 200000) 0) id escrows) = false.
Proof.
  intros id escrows.
  assert (Hfulfil : @MonadBridge.fulfillIncomingOrder toy_hashes trace_world
                      fulfiller_ctx ex_orderHash ex_leaked_secret ex_monad1
                    = Ok (tt, ex_monad2))
    by (vm_compute; reflexivity).
  split.
  - pose proof (X9_fulfilled_once_and_claimable (HS := toy_hashes) (EX := trace_world)
                  fulfiller_ctx (mkCtx monad_htlc_addr receiver_addr 0 (T0 + 30) 0)
                  ex_orderHash ex_leaked_secret ex_monad1 ex_monad2 Hfulfil) as H.
    cbv zeta in H. destruct H as (_ & _ & _ & _ & Hw & _).
    apply Hw; [vm_compute; discriminate | reflexivity | vm_compute; reflexivity
              | vm_compute; reflexivity | eexists; reflexivity].
  - pose proof (X9_fulfilled_once_and_claimable (HS := toy_hashes) (EX := trace_world)
                  fulfiller_ctx (mkCtx monad_htlc_addr fulfiller_addr 0 (T0 + 200000) 0)
                  ex_orderHash ex_leaked_secret ex_monad1 ex_monad2 Hfulfil) as H.
    cbv zeta in H. destruct H as (_ & _ & _ & _ & _ & Hr & _).
    apply Hr. vm_compute. discriminate.
Defined.

Section OutgoingEscrow.
Context {HS : Hashes} {EX : Extern}.
Import MonadBridge.

Lemma createOutgoingOrder_escrow (c : Ctx) (tokenIn tokenOut : address)
    (amountIn amountOut : uint256) (ethereumReceiver : address)
    (targetChainId customTimelock : uint256) (m m' : Machine Deployment)
    (h : bytes32) :
  createOutgoingOrder c tokenIn tokenOut amountIn amountOut ethereumReceiver
    targetChainId customTimelock m = Ok (h, m') ->
  let o := outgoing m' h in
  OutgoingOrder.maker o = msg_sender c /\
  OutgoingOrder.isActive o = true /\
  OutgoingOrder.maker (outgoing m h) = 0 /\
  (forall h', h' <> h -> outgoing m' h' = outgoing m h') /\
  getUserOutgoingOrders (fst (storage m')) (msg_sender c) =
    getUserOutgoingOrders (fst (storage m)) (msg_sender c) ++ [h] /\
  MonadHTLC.contracts (snd (storage m')) (OutgoingOrder.htlcContractId o) =
    IHTLC.mkHTLCData (this c) (this c) tokenIn amountIn (OutgoingOrder.hashlock o)
      (OutgoingOrder.timelock o) false false (block_timestamp c).
Proof.
  unfold createOutgoingOrder, _storeSecretForRelayer, self, outgoing,
    getUserOutgoingOrders,
    MonadHTLC.newContractERC20, MonadHTLC.newContract, MonadHTLC.fundsSent,
    MonadHTLC.futureTimelock.
  sol_unfold. destruct m as [[s hs] w l].
  sol_run; try discriminate;
    intros E; inversion E; subst; clear E; simpl;
    rewrite !mapping_get_insert_eq; rewrite contracts_insert_eq; simpl; bool_prop;
    (repeat split; try lia; try congruence; eauto);
    intros h' Hne; apply mapping_get_insert_ne; congruence.
Qed.

(** X10.  The escrow that [createOutgoingOrder] locks for the maker's tokens
    names the bridge contract both as sender and as receiver.  So after a
    successful creation every [withdraw] and every [refund] of that escrow
    called by an account other than the bridge reverts, with any secret and
    at any time: neither the maker nor the receiver named in the order can
    take the tokens out of MonadHTLC.  The order is recorded as active with
    the caller as maker under a hash that was free, other orders are
    untouched and the hash is appended to the maker's list. *)
Theorem X10_outgoing_escrow_belongs_to_bridge (c c' : Ctx) (tokenIn tokenOut : address)
    (amountIn amountOut : uint256) (ethereumReceiver : address)
    (targetChainId customTimelock : uint256) (m m' : Machine Deployment)
    (h secret : bytes32) :
  createOutgoingOrder c tokenIn tokenOut amountIn amountOut ethereumReceiver
    targetChainId customTimelock m = Ok (h, m') ->
  let o := outgoing m' h in
  let id := OutgoingOrder.htlcContractId o in
  let escrows := mkMachine (snd (storage m')) (world m') (log m') in
  (OutgoingOrder.maker o = msg_sender c /\ OutgoingOrder.isActive o = true /\
   OutgoingOrder.maker (outgoing m h) = 0 /\
   (forall h', h' <> h -> outgoing m' h' = outgoing m h') /\
   getUserOutgoingOrders (fst (storage m')) (msg_sender c) =
     getUserOutgoingOrders (fst (storage m)) (msg_sender c) ++ [h])
  /\ (IHTLC.sender (MonadHTLC.getContract (snd (storage m')) id) = this c /\
      IHTLC.receiver (MonadHTLC.getContract (snd (storage m')) id) = this c /\
      IHTLC.token (MonadHTLC.getContract (snd (storage m')) id) = tokenIn /\
      IHTLC.amount (MonadHTLC.getContract (snd (storage m')) id) = amountIn)
  /\ (msg_sender c' <> this c ->
      is_ok (MonadHTLC.withdraw c' id secret escrows) = false /\
      is_ok (MonadHTLC.refund c' id escrows) = false).
Proof.
  intros E o id escrows.
  apply createOutgoingOrder_escrow in E. fold o in E. fold id in E.
  destruct E as (Hm & Ha & Hfree & Hf & Hu & Hh).
  unfold MonadHTLC.getContract. rewrite Hh. simpl.
  split; [repeat split; auto|]. split; [repeat split; auto|].
  intros Hne. split.
  - apply withdraw_reverts_if. simpl. rewrite Hh. simpl. auto.
  - apply refund_reverts_if. simpl. rewrite Hh. simpl. auto.
Qed.
End OutgoingEscrow.

(** The example order created on Monad: its maker cannot refund the escrow
    after the timelock, nor withdraw from it. *)
Lemma X10_outgoing_escrow_belongs_to_bridge_witness :
  let id := MonadBridge.OutgoingOrder.htlcContractId ex_outgoing_order in
  let escrows := @mkMachine trace_world _ (snd (storage ex_monad_out))
                   (world ex_monad_out) (log ex_monad_out) in
  let maker_late := mkCtx monad_htlc_addr maker_addr 0 (T0 + 7200) 0 in
  is_ok (@MonadHTLC.withdraw toy_hashes trace_world maker_late id 0 escrows) = false /\
  is_ok (MonadHTLC.refund (EX := trace_world) maker_late id escrows) = false.
Proof.
  intros id escrows maker_late.
  assert (Hrun : @MonadBridge.createOutgoingOrder toy_hashes trace_world
                   (mkCtx bridge_addr maker_addr 0 T0 0) tokenB tokenA (10 ^ 18)
                   (98 * 10 ^ 16) receiver_addr 1 7200 ex_monad
                 = Ok (ex_outgoing_hash, ex_monad_out))
    by (vm_compute; reflexivity).
  pose proof (X10_outgoing_escrow_belongs_to_bridge (HS := toy_hashes)
                (EX := trace_world) _ maker_late _ _ _ _ _ _ _ _ _ _ 0 Hrun) as H.
  cbv zeta in H. destruct H as (_ & _ & H).
  apply H. vm_compute. discriminate.
Defined.

(** ** FusionMonadAdapter.sol: the end of an order, and its administration *)

Section AdapterFacts.
Context {HS : Hashes} {EX : Extern} {EthereumHTLC : IHTLC.Impl}.
Import FusionMonadAdapter.

Lemma fulfillOrder_ok (c : Ctx) (h secret : bytes32) (m m' : Machine Deployment) :
  fulfillOrder c h secret m = Ok (tt, m') ->
  let s := fst (storage m) in
  let o := getOrder s h in
  msg_value c = 0 /\ maker o <> 0 /\ isActive o = true /\
  keccak256 [AB32 secret] = hashlock o /\
  getOrder (fst (storage m')) h = set_fulfilled o /\
  (forall h', h' <> h -> getOrder (fst (storage m')) h' = getOrder s h') /\
  exists hm,
    IHTLC.withdraw (htlc_ctx c s 0) (htlcContractId o) secret (escrow_side m)
      = Ok (tt, hm) /\
    snd (storage m') = storage hm /\ world m' = world hm /\
    log m' = log hm ++ [(this c, CrossChainOrderFulfilled h secret (msg_sender c))].
Proof.
  unfold fulfillOrder, self, getOrder, escrow_side. sol_unfold.
  destruct m as [[s hs] w l].
  sol_run; try discriminate.
  match goal with
  | |- context [IHTLC.withdraw ?a ?b ?d ?e] =>
      destruct (IHTLC.withdraw a b d e) as [[[] hm]|] eqn:Hw; simpl
  end; try discriminate.
  intros E; inversion E; subst; clear E; simpl.
  rewrite !mapping_get_insert_eq; bool_prop.
  repeat split; try lia; try congruence; eauto.
  intros h' Hne; apply mapping_get_insert_ne; congruence.
Qed.

Lemma adapter_refund_ok (c : Ctx) (h : bytes32) (m m' : Machine Deployment) :
  refund c h m = Ok (tt, m') ->
  let s := fst (storage m) in
  let o := getOrder s h in
  msg_value c = 0 /\ maker o <> 0 /\ maker o = msg_sender c /\
  isFulfilled o = false /\ timelock o <= block_timestamp c /\
  getOrder (fst (storage m')) h = set_inactive o /\
  (forall h', h' <> h -> getOrder (fst (storage m')) h' = getOrder s h') /\
  exists hm,
    IHTLC.refund (htlc_ctx c s 0) (htlcContractId o) (escrow_side m) = Ok (tt, hm) /\
    snd (storage m') = storage hm /\ world m' = world hm /\
    log m' = log hm ++ [(this c, CrossChainOrderRefunded h (msg_sender c))].
Proof.
  unfold refund, self, getOrder, escrow_side. sol_unfold.
  destruct m as [[s hs] w l].
  sol_run; try discriminate.
  match goal with
  | |- context [IHTLC.refund ?a ?b ?d] =>
      destruct (IHTLC.refund a b d) as [[[] hm]|] eqn:Hw; simpl
  end; try discriminate.
  intros E; inversion E; subst; clear E; simpl.
  rewrite !mapping_get_insert_eq; bool_prop.
  repeat split; try lia; try congruence; eauto.
  intros h' Hne; apply mapping_get_insert_ne; congruence.
Qed.

Lemma fulfillOrder_reverts_if (c : Ctx) (h secret : bytes32) (m : Machine Deployment) :
  isActive (getOrder (fst (storage m)) h) = false ->
  is_ok (fulfillOrder c h secret m) = false.
Proof.
  intros Hin. destruct (fulfillOrder c h secret m) as [[[] m']|] eqn:E; [|reflexivity].
  apply fulfillOrder_ok in E. destruct E as (_ & _ & Ha & _). congruence.
Qed.

Lemma adapter_refund_reverts_if (c : Ctx) (h : bytes32) (m : Machine Deployment) :
  isFulfilled (getOrder (fst (storage m)) h) = true \/
  maker (getOrder (fst (storage m)) h) <> msg_sender c \/
  block_timestamp c < timelock (getOrder (fst (storage m)) h) ->
  is_ok (refund c h m) = false.
Proof.
  intros H. destruct (refund c h m) as [[[] m']|] eqn:E; [|reflexivity].
  apply adapter_refund_ok in E. destruct E as (_ & _ & Hm & Hf & Ht & _).
  destruct H as [H|[H|H]]; [congruence|congruence|lia].
Qed.

(** X11.  [FusionMonadAdapter.fulfillOrder] can be called by anyone who
    knows the secret, and an order is fulfilled at most once.  A successful
    call found the order existing and active and the keccak256 of the secret
    equal to its hashlock; it withdrew the order's escrow from the HTLC
    contract in the adapter's name, marked the order fulfilled and inactive,
    changed no other order and emitted [CrossChainOrderFulfilled] last.
    Afterwards every [fulfillOrder] and every [refund] of that order reverts,
    whoever calls, with whatever secret and whenever. *)
Theorem X11_adapter_order_fulfilled_once (c c' : Ctx) (h secret secret' : bytes32)
    (m m' m2 : Machine Deployment) :
  fulfillOrder c h secret m = Ok (tt, m') ->
  let s := fst (storage m) in
  let o := getOrder s h in
  (msg_value c = 0 /\ maker o <> 0 /\ isActive o = true /\
   keccak256 [AB32 secret] = hashlock o)
  /\ (getOrder (fst (storage m')) h = set_fulfilled o /\
      forall h', h' <> h -> getOrder (fst (storage m')) h' = getOrder s h')
  /\ (exists hm,
        IHTLC.withdraw (htlc_ctx c s 0) (htlcContractId o) secret (escrow_side m)
          = Ok (tt, hm) /\
        snd (storage m') = storage hm /\ world m' = world hm /\
        log m' = log hm ++ [(this c, CrossChainOrderFulfilled h secret (msg_sender c))])
  /\ (getOrder (fst (storage m2)) h = getOrder (fst (storage m')) h ->
      is_ok (fulfillOrder c' h secret' m2) = false /\
      is_ok (refund c' h m2) = false).
Proof.
  intros E s o. apply fulfillOrder_ok in E. fold s in E. fold o in E.
  destruct E as (Hv & Hm & Ha & Hk & Ho & Hf & Hw).
  split; [auto|]. split; [auto|]. split; [exact Hw|].
  intros Hsame. split.
  - apply fulfillOrder_reverts_if. rewrite Hsame, Ho. reflexivity.
  - apply adapter_refund_reverts_if. left. rewrite Hsame, Ho. reflexivity.
Qed.

(** X12.  [FusionMonadAdapter.refund] is for the maker, after the timelock,
    of an order that was not fulfilled.  A successful call found the order
    existing, the caller its maker, the order not fulfilled and the block
    timestamp at or after its timelock; it refunded the order's escrow from
    the HTLC contract, marked the order inactive (leaving it not fulfilled),
    changed no other order and emitted [CrossChainOrderRefunded] last.
    Afterwards every [fulfillOrder] of that order reverts; a [refund] by
    anyone but the maker, or before the timelock, reverts in any state. *)
Theorem X12_adapter_refund_by_maker_after_timelock (c c' : Ctx) (h secret' : bytes32)
    (m m' m2 : Machine Deployment) :
  refund c h m = Ok (tt, m') ->
  let s := fst (storage m) in
  let o := getOrder s h in
  (msg_value c = 0 /\ maker o <> 0 /\ maker o = msg_sender c /\
   isFulfilled o = false /\ timelock o <= block_timestamp c)
  /\ (getOrder (fst (storage m')) h = set_inactive o /\
      forall h', h' <> h -> getOrder (fst (storage m')) h' = getOrder s h')
  /\ (exists hm,
        IHTLC.refund (htlc_ctx c s 0) (htlcContractId o) (escrow_side m) = Ok (tt, hm) /\
        snd (storage m') = storage hm /\ world m' = world hm /\
        log m' = log hm ++ [(this c, CrossChainOrderRefunded h (msg_sender c))])
  /\ (getOrder (fst (storage m2)) h = getOrder (fst (storage m')) h ->
      is_ok (fulfillOrder c' h secret' m2) = false)
  /\ (maker (getOrder (fst (storage m2)) h) <> msg_sender c' \/
      block_timestamp c' < timelock (getOrder (fst (storage m2)) h) ->
      is_ok (refund c' h m2) = false).
Proof.
  intros E s o. apply adapter_refund_ok in E. fold s in E. fold o in E.
  destruct E as (Hv & Hm & Hmk & Hnf & Ht & Ho & Hf & Hr).
  split; [repeat split; auto|]. split; [auto|]. split; [exact Hr|]. split.
  - intros Hsame. apply fulfillOrder_reverts_if. rewrite Hsame, Ho. reflexivity.
  - intros H. apply adapter_refund_reverts_if. tauto.
Qed.
End AdapterFacts.

Section AdapterAdmin.
Context {HS : Hashes} {EX : Extern} {EthereumHTLC : IHTLC.Impl}.
Import FusionMonadAdapter.

(** Decide the call into the escrow contract that the goal waits for. *)
Ltac impl_call :=
  match goal with
  | |- context [IHTLC.withdraw ?a ?b ?d ?e] =>
      destruct (IHTLC.withdraw a b d e) as [[? ?]|] eqn:?; simpl
  | |- context [IHTLC.refund ?a ?b ?d] =>
      destruct (IHTLC.refund a b d) as [[? ?]|] eqn:?; simpl
  | |- context [IHTLC.newContractERC20 ?a ?b ?d ?e ?f ?g ?h] =>
      destruct (IHTLC.newContractERC20 a b d e f g h) as [[? ?]|] eqn:?; simpl
  | |- context [IHTLC.newContract ?a ?b ?d ?e ?f] =>
      destruct (IHTLC.newContract a b d e f) as [[? ?]|] eqn:?; simpl
  end.

Ltac adapter_unfold :=
  unfold call, createCrossChainOrder, fulfillOrder, refund, addSupportedChain,
    removeSupportedChain, updateTimelockParams, pause, onlyOwner,
    _storeSecretForRelayer, self in *.

(** What each call does to the parameters of the adapter. *)
Lemma call_params (c : Ctx) (op : Call) (m m' : Machine Deployment) :
  call c op m = Ok (tt, m') ->
  let s := fst (storage m) in
  let s' := fst (storage m') in
  owner s' = owner s /\ htlcContract s' = htlcContract s /\
  match op with
  | UpdateTimelockParams mn mx df =>
      owner s = msg_sender c /\ mn < mx /\ mn <= df <= mx /\
      minTimelock s' = mn /\ maxTimelock s' = mx /\ defaultTimelock s' = df /\
      supportedChains s' = supportedChains s
  | AddSupportedChain id =>
      owner s = msg_sender c /\
      supportedChains s' = <[id := true]> (supportedChains s) /\
      minTimelock s' = minTimelock s /\ maxTimelock s' = maxTimelock s /\
      defaultTimelock s' = defaultTimelock s
  | RemoveSupportedChain id =>
      owner s = msg_sender c /\
      supportedChains s' = <[id := false]> (supportedChains s) /\
      minTimelock s' = minTimelock s /\ maxTimelock s' = maxTimelock s /\
      defaultTimelock s' = defaultTimelock s
  | _ =>
      supportedChains s' = supportedChains s /\
      minTimelock s' = minTimelock s /\ maxTimelock s' = maxTimelock s /\
      defaultTimelock s' = defaultTimelock s
  end.
Proof.
  destruct op; adapter_unfold; sol_unfold; destruct m as [[s hs] w l];
    sol_run; try discriminate; repeat (impl_call; try discriminate);
    intros E; inversion E; subst; clear E; simpl; bool_prop;
    repeat split; auto; lia.
Qed.

Lemma admin_ok_iff (c : Ctx) (id : uint256) (m : Machine Deployment) :
  (is_ok (addSupportedChain c id m) = true <->
     msg_value c = 0 /\ owner (fst (storage m)) = msg_sender c) /\
  (is_ok (removeSupportedChain c id m) = true <->
     msg_value c = 0 /\ owner (fst (storage m)) = msg_sender c).
Proof.
  adapter_unfold; sol_unfold; destruct m as [[s hs] w l].
  split; sol_run; bool_prop;
    (split; [intros; try discriminate; auto | intros (? & ?); congruence]).
Qed.

Lemma unsupported_chain_reverts (c : Ctx) (tokenIn tokenOut : address)
    (amountIn amountOut : uint256) (monadReceiver : address)
    (targetChainId customTimelock : uint256) (m : Machine Deployment) :
  msg_value c = 0 ->
  mapping_get false (supportedChains (fst (storage m))) targetChainId = false ->
  createCrossChainOrder c tokenIn tokenOut amountIn amountOut monadReceiver
    targetChainId customTimelock m = Revert (Require "Unsupported target chain").
Proof.
  intros Hv Hc. adapter_unfold; sol_unfold; destruct m as [[s hs] w l].
  simpl in *. apply Z.eqb_eq in Hv. rewrite Hv. simpl. rewrite Hc. reflexivity.
Qed.

(** X13.  The timelock parameters of the adapter stay ordered and only the
    owner moves them.  The constructor leaves [minTimelock < maxTimelock] and
    [minTimelock <= defaultTimelock <= maxTimelock] (1 hour, 24 hours, 7
    days) with the deployer as owner.  Every successful call of
    createCrossChainOrder, fulfillOrder, refund, addSupportedChain,
    removeSupportedChain, updateTimelockParams or pause keeps that ordering
    and the owner; a call after which one of the three parameters differs is
    an [updateTimelockParams] made by the owner. *)
Theorem X13_timelock_params_stay_ordered (c : Ctx) (op : Call)
    (m m' : Machine Deployment) :
  call c op m = Ok (tt, m') ->
  let s := fst (storage m) in
  let s' := fst (storage m') in
  (forall c0 a s0, constructor c0 a = Ok s0 ->
     minTimelock s0 < maxTimelock s0 /\
     minTimelock s0 <= defaultTimelock s0 <= maxTimelock s0 /\
     owner s0 = msg_sender c0)
  /\ (minTimelock s < maxTimelock s /\
      minTimelock s <= defaultTimelock s <= maxTimelock s ->
      minTimelock s' < maxTimelock s' /\
      minTimelock s' <= defaultTimelock s' <= maxTimelock s')
  /\ owner s' = owner s
  /\ (minTimelock s' <> minTimelock s \/ maxTimelock s' <> maxTimelock s \/
      defaultTimelock s' <> defaultTimelock s ->
      owner s = msg_sender c /\ exists mn mx df, op = UpdateTimelockParams mn mx df).
Proof.
  intros E s s'. apply call_params in E. fold s in E. fold s' in E.
  destruct E as (Ho & _ & E). split; [|split; [|split; [exact Ho|]]].
  - intros c0 a s0. unfold constructor. destruct (a =? 0); [discriminate|].
    intros E0; inversion E0; subst; simpl. unfold hours, days. lia.
  - destruct op; intros (H1 & H2); try (destruct E as (_ & -> & -> & ->); lia).
    + destruct E as (_ & _ & -> & -> & ->). lia.
    + destruct E as (_ & _ & -> & -> & ->). lia.
    + destruct E as (_ & ? & ? & -> & -> & -> & _). lia.
  - subst s s'.
    destruct op; intros H; try (destruct E as (_ & E1 & E2 & E3); tauto).
    destruct E as (Hown & _). split; [exact Hown|]. eauto.
Qed.

(** X14.  Which target chains the adapter accepts.  The constructor supports
    the chain ids 1 and 11155111 and no other.  [addSupportedChain] and
    [removeSupportedChain] succeed exactly for the owner calling without
    value; they set the entry of the given chain to true, respectively
    false, and leave every other chain as it was.  For a chain whose entry is
    false, [createCrossChainOrder] called without value reverts with
    "Unsupported target chain" whatever the other arguments. *)
Theorem X14_supported_chains (c : Ctx) (id : uint256) (m : Machine Deployment) :
  let s := fst (storage m) in
  let supported (s : Storage) (k : uint256) := mapping_get false (supportedChains s) k in
  (forall c0 a s0 k, constructor c0 a = Ok s0 ->
     (supported s0 k = true <-> k = 1 \/ k = 11155111))
  /\ (is_ok (addSupportedChain c id m) = true <->
        msg_value c = 0 /\ owner s = msg_sender c)
  /\ (is_ok (removeSupportedChain c id m) = true <->
        msg_value c = 0 /\ owner s = msg_sender c)
  /\ (forall m', addSupportedChain c id m = Ok (tt, m') ->
        supported (fst (storage m')) id = true /\
        forall k, k <> id -> supported (fst (storage m')) k = supported s k)
  /\ (forall m', removeSupportedChain c id m = Ok (tt, m') ->
        supported (fst (storage m')) id = false /\
        forall k, k <> id -> supported (fst (storage m')) k = supported s k)
  /\ (forall c' tokenIn tokenOut amountIn amountOut monadReceiver customTimelock,
        msg_value c' = 0 -> supported s id = false ->
        createCrossChainOrder c' tokenIn tokenOut amountIn amountOut monadReceiver
          id customTimelock m = Revert (Require "Unsupported target chain")).
Proof.
  intros s supported. split; [|split; [|split; [|split; [|split]]]].
  - intros c0 a s0 k. unfold constructor. destruct (a =? 0); [discriminate|].
    intros E0; inversion E0; subst; unfold supported; simpl. unfold mapping_get.
    destruct (Z.eq_dec k 11155111) as [->|H1].
    { rewrite lookup_insert_eq. simpl. tauto. }
    rewrite lookup_insert_ne by congruence.
    destruct (Z.eq_dec k 1) as [->|H2].
    { rewrite lookup_insert_eq. simpl. tauto. }
    rewrite lookup_insert_ne by congruence. rewrite lookup_empty. simpl.
    split; [discriminate|tauto].
  - apply admin_ok_iff.
  - apply admin_ok_iff.
  - intros m' E. apply (call_params c (AddSupportedChain id)) in E.
    unfold supported. destruct E as (_ & _ & _ & -> & _). split.
    + apply mapping_get_insert_eq.
    + intros k Hne. apply mapping_get_insert_ne. congruence.
  - intros m' E. apply (call_params c (RemoveSupportedChain id)) in E.
    unfold supported. destruct E as (_ & _ & _ & -> & _). split.
    + apply mapping_get_insert_eq.
    + intros k Hne. apply mapping_get_insert_ne. congruence.
  - intros. apply unsupported_chain_reverts; assumption.
Qed.
End AdapterAdmin.

(** The example order: fulfilled thirty seconds after its creation by an
    account that read the secret from the log; the maker's refund after the
    timelock then reverts. *)
Lemma X11_adapter_order_fulfilled_once_witness :
  let fulfil := @FusionMonadAdapter.fulfillOrder toy_hashes trace_world
                  EthereumHTLC_standin (mkCtx adapter_addr fulfiller_addr 0 (T0 + 30) 0)
                  ex_orderHash ex_leaked_secret ex_ethereum' in
  is_ok fulfil = true /\
  is_ok (@FusionMonadAdapter.refund trace_world EthereumHTLC_standin
           (mkCtx adapter_addr maker_addr 0 (T0 + 86400) 0) ex_orderHash
           (machine_of fulfil ex_ethereum')) = false.
Proof.
  intros fulfil.
  assert (Hrun : fulfil = Ok (tt, machine_of fulfil ex_ethereum'))
    by (vm_compute; reflexivity).
  split; [rewrite Hrun; reflexivity|].
  pose proof (X11_adapter_order_fulfilled_once (HS := toy_hashes) (EX := trace_world)
                (EthereumHTLC := EthereumHTLC_standin) _
                (mkCtx adapter_addr maker_addr 0 (T0 + 86400) 0) _ _ 0 _ _
                (machine_of fulfil ex_ethereum') Hrun) as H.
  cbv zeta in H. destruct H as (_ & _ & _ & H). apply H. reflexivity.
Defined.

(** The example order: refunded by its maker at the timelock; a later
    [fulfillOrder] with the right secret reverts. *)
Lemma X12_adapter_refund_by_maker_after_timelock_witness :
  let refunded := @FusionMonadAdapter.refund trace_world EthereumHTLC_standin
                    (mkCtx adapter_addr maker_addr 0 (T0 + 86400) 0) ex_orderHash
                    ex_ethereum' in
  is_ok refunded = true /\
  is_ok (@FusionMonadAdapter.fulfillOrder toy_hashes trace_world EthereumHTLC_standin
           (mkCtx adapter_addr fulfiller_addr 0 (T0 + 86401) 0) ex_orderHash
           ex_leaked_secret (machine_of refunded ex_ethereum')) = false.
Proof.
  intros refunded.
  assert (Hrun : refunded = Ok (tt, machine_of refunded ex_ethereum'))
    by (vm_compute; reflexivity).
  split; [rewrite Hrun; reflexivity|].
  pose proof (X12_adapter_refund_by_maker_after_timelock (HS := toy_hashes)
                (EX := trace_world) (EthereumHTLC := EthereumHTLC_standin) _
                (mkCtx adapter_addr fulfiller_addr 0 (T0 + 86401) 0) _
                ex_leaked_secret _ _ (machine_of refunded ex_ethereum') Hrun) as H.
  cbv zeta in H. destruct H as (_ & _ & _ & H & _). apply H. reflexivity.
Defined.

(** The owner of the example adapter narrows the timelocks to between two
    hours and two days; the parameters read back are ordered. *)
Lemma X13_timelock_params_stay_ordered_witness :
  let updated := @FusionMonadAdapter.call toy_hashes trace_world EthereumHTLC_standin
                   (mkCtx adapter_addr deployer 0 T0 0)
                   (FusionMonadAdapter.UpdateTimelockParams 7200 172800 43200)
                   ex_ethereum in
  let s' := fst (storage (machine_of updated ex_ethereum)) in
  FusionMonadAdapter.minTimelock s' < FusionMonadAdapter.maxTimelock s' /\
  FusionMonadAdapter.minTimelock s' <= FusionMonadAdapter.defaultTimelock s'
    <= FusionMonadAdapter.maxTimelock s'.
Proof.
  intros updated s'.
  assert (Hrun : updated = Ok (tt, machine_of updated ex_ethereum))
    by (vm_compute; reflexivity).
  pose proof (X13_timelock_params_stay_ordered (HS := toy_hashes) (EX := trace_world)
                (EthereumHTLC := EthereumHTLC_standin) _ _ _ _ Hrun) as H.
  cbv zeta in H. destruct H as (_ & H & _). apply H. vm_compute.
  repeat split; discriminate.
Defined.

(** * Further properties of the services *)

(** ** RelayerService: retries *)

Section RetryFacts.
Context {NW : Network} {S : Type}.
Import RelayerService.


(** Around a function that never throws, [retryWithBackoff] is that
    function: its handler is never entered. *)
Lemma retry_transparent {A} (fn : TS S A) (fuel : nat) (maxRetries currentRetry : Z)
    (s : Service S) :
  (forall s r s', fn s = Done r s' -> exists a, r = Returned a) ->
  retryWithBackoff (Datatypes.S fuel) fn maxRetries currentRetry s = fn s.
Proof.
  intros Hfn. simpl. unfold try_catch.
  destruct (fn s) as [[a|e] s1|] eqn:E; try reflexivity.
  apply Hfn in E. destruct E as [a E]. discriminate E.
Qed.

End RetryFacts.


Section RelayFacts.
Context {NW : Network} {S : Type}.
Import RelayerService.

Lemma warn_not_last (m message : string) (l : Level) (lg : list (Level * string)) :
  l <> warn -> In (warn, m) (lg ++ [(l, message)]) -> In (warn, m) lg.
Proof.
  intros Hne Hin. apply in_app_or in Hin. destruct Hin as [Hin|[Hin|[]]]; [exact Hin|].
  inversion Hin. congruence.
Qed.

Lemma relay_spec (orderHash : bytes32) (tokenIn tokenOut : address)
    (amountIn amountOut : uint256) (hashlock : bytes32) (timelock : uint256)
    (maker monadReceiver : address) (fuel : nat) :
  let tx := TxProcessEthereumOrder orderHash tokenIn tokenOut amountIn amountOut
              hashlock timelock maker monadReceiver in
  forall (s : Service S) r s',
    relayEthereumToMonad fuel orderHash tokenIn tokenOut amountIn amountOut hashlock
      timelock maker monadReceiver s = Done r s' ->
    r = Returned tt /\ fields s' = fields s /\
    (exists k, sent s' = sent s ++ repeat tx (Datatypes.S k)) /\
    (forall m, In (warn, m) (logged s') -> In (warn, m) (logged s)).
Proof.
  intros tx. induction fuel as [|fuel IH]; intros s r s'; [discriminate|].
  simpl. unfold try_catch at 1. unfold andThen at 1 2. unfold logger at 1. simpl.
  unfold submit. simpl. fold tx.
  destruct (send tx (net s)) as [[|] n1]; simpl.
  - unfold logger. intros E. inversion E; subst; simpl.
    repeat split; auto.
    + exists 0%nat. reflexivity.
    + intros m Hin. do 2 (apply warn_not_last in Hin; [|discriminate]). exact Hin.
  - unfold andThen at 1. unfold logger at 1. simpl.
    destruct fuel as [|fuel']; [discriminate|].
    rewrite retry_transparent.
    2:{ intros s0 r0 s0' E0. apply IH in E0. destruct E0 as (-> & _). eauto. }
    intros E. apply IH in E. simpl in E. destruct E as (Hr & Hf & (k & Hsent) & Hlog).
    repeat split; auto.
    + exists (Datatypes.S k). rewrite Hsent, <- app_assoc. reflexivity.
    + intros m Hin. apply Hlog in Hin.
      do 2 (apply warn_not_last in Hin; [|discriminate]). exact Hin.
Qed.

Lemma relay_rejected (orderHash : bytes32) (tokenIn tokenOut : address)
    (amountIn amountOut : uint256) (hashlock : bytes32) (timelock : uint256)
    (maker monadReceiver : address) (fuel : nat) :
  (forall tx n, fst (send tx n) = false) ->
  forall s : Service S,
    relayEthereumToMonad fuel orderHash tokenIn tokenOut amountIn amountOut hashlock
      timelock maker monadReceiver s = OutOfFuel.
Proof.
  intros Hrej. induction fuel as [|fuel IH]; intros s; [reflexivity|].
  simpl. unfold try_catch at 1. unfold andThen at 1 2. unfold logger at 1. simpl.
  unfold submit. simpl.
  match goal with
  | |- context [send ?tx ?n] =>
      pose proof (Hrej tx n) as Hs; destruct (send tx n) as [b n1]; simpl in Hs; subst b
  end.
  simpl. unfold andThen at 1. unfold logger at 1. simpl.
  destruct fuel as [|fuel']; [reflexivity|].
  rewrite retry_transparent; [apply IH|].
  intros s0 r0 s0' E0. rewrite IH in E0. discriminate E0.
Qed.

(** X16.  [relayEthereumToMonad] never throws and never backs off.  A
    relay that finishes has returned, after one or more submissions of the
    same [processEthereumOrder] transaction, and has logged no warning: the
    function handed to [retryWithBackoff] is the relay itself, which catches
    its own failures, so the delay and the retry limit of [retryWithBackoff]
    are never reached.  When the first submission is accepted the relay
    returns after that one submission.  On a network that rejects every
    transaction the relay does not finish, whatever the number of steps it
    is given. *)
Theorem X16_relay_never_gives_up (orderHash : bytes32) (tokenIn tokenOut : address)
    (amountIn amountOut : uint256) (hashlock : bytes32) (timelock : uint256)
    (maker monadReceiver : address) (fuel : nat) (s : Service S) :
  let tx := TxProcessEthereumOrder orderHash tokenIn tokenOut amountIn amountOut
              hashlock timelock maker monadReceiver in
  let relay fuel := relayEthereumToMonad (S := S) fuel orderHash tokenIn tokenOut
                      amountIn amountOut hashlock timelock maker monadReceiver in
  (forall r s', relay fuel s = Done r s' ->
     r = Returned tt /\ fields s' = fields s /\
     (exists k, sent s' = sent s ++ repeat tx (Datatypes.S k)) /\
     (forall m, In (warn, m) (logged s') -> In (warn, m) (logged s)))
  /\ (fst (send tx (net s)) = true ->
      exists s', relay (Datatypes.S fuel) s = Done (Returned tt) s' /\
                 sent s' = sent s ++ [tx])
  /\ ((forall tx n, fst (send tx n) = false) -> relay fuel s = OutOfFuel).
Proof.
  intros tx relay. split; [|split].
  - intros r s'. apply relay_spec.
  - intros Hacc. unfold relay. simpl. unfold try_catch, andThen, logger, submit. simpl.
    fold tx. destruct (send tx (net s)) as [b n1]. simpl in Hacc. subst b.
    eexists. split; reflexivity.
  - intros Hrej. apply relay_rejected. exact Hrej.
Qed.
End RelayFacts.

(** ** EventMonitor: starting, stopping and catching up *)

Section MonitorLifecycle.
Context {NW : Network}.
Import EventMonitor.

Ltac ts_unfold_all :=
  unfold start, stop, initializeEventFilters, initializeLastProcessedBlocks,
    promise_all2, settled_getBlockNumber, set_isRunning in *;
  unfold andThen, try_catch, pure, throw, read, write, logger in *.

(** X17.  Starting and stopping the monitor.  [start] on a running monitor
    only logs a warning: it queries nothing and changes nothing.  On a
    stopped monitor it asks both chains for their block number; when both
    answer it returns with the monitor running and each cursor at the block
    number minus 100, but not below 0; when either query fails it throws, the
    monitor stays stopped and the cursors are not changed.  [stop] always
    returns, leaves the monitor stopped and keeps the cursors.  On a stopped
    monitor an iteration of either chain, and any number of ticks of the
    Monad loop, return at once and change nothing at all: no query, no log
    line, no transaction. *)
Theorem X17_monitor_start_stop (s : Service t) :
  let q1 := getBlockNumber fusionAdapter (net s) in
  let q2 := getBlockNumber monadBridge (snd q1) in
  (isRunning (fields s) = true ->
     exists s', start s = Done (Returned tt) s' /\
                fields s' = fields s /\ net s' = net s /\ sent s' = sent s /\
                logged s' = logged s ++ [(warn, "EventMonitor is already running")])
  /\ (isRunning (fields s) = false ->
      exists r s',
        start s = Done r s' /\ net s' = snd q2 /\ sent s' = sent s /\
        match fst q1, fst q2 with
        | Some ethereumBlock, Some monadBlock =>
            r = Returned tt /\
            fields s' = mk true (mkLastProcessed (Z.max 0 (ethereumBlock - 100))
                                   (Z.max 0 (monadBlock - 100)))
        | _, _ => (exists e, r = Thrown e) /\ fields s' = fields s
        end)
  /\ (exists s',
        stop s = Done (Returned tt) s' /\
        isRunning (fields s') = false /\
        lastProcessedBlock (fields s') = lastProcessedBlock (fields s) /\
        net s' = net s /\ sent s' = sent s)
  /\ (isRunning (fields s) = false ->
      monitorMonadEvents s = Done (Returned tt) s /\
      (forall fuel, monitorEthereumEvents fuel s = Done (Returned tt) s) /\
      (forall ticks, monadMonitoring ticks s = Done (Returned tt) s)).
Proof.
  intros q1 q2. subst q1 q2. destruct s as [[running [e m]] n lg sn]. simpl.
  split; [|split; [|split]].
  - intros ->. ts_unfold_all. simpl. eexists. repeat split; reflexivity.
  - intros ->. ts_unfold_all. simpl.
    destruct (getBlockNumber fusionAdapter n) as [[b1|] n1]; simpl;
      destruct (getBlockNumber monadBridge n1) as [[b2|] n2]; simpl;
      eexists; eexists; repeat split; eauto.
  - ts_unfold_all. simpl. destruct running; simpl; eexists; repeat split; reflexivity.
  - intros ->. split; [reflexivity|]. split; [reflexivity|].
    intros [|ticks]; reflexivity.
Qed.

Lemma monadMonitoring_spec (b : Z) :
  (forall n, fst (getBlockNumber monadBridge n) = Some b) ->
  forall (ticks : nat) (s : Service t),
    isRunning (fields s) = true ->
    exists s',
      monadMonitoring ticks s = Done (Returned tt) s' /\
      isRunning (fields s') = true /\
      ethereum (lastProcessedBlock (fields s')) = ethereum (lastProcessedBlock (fields s)) /\
      monad (lastProcessedBlock (fields s'))
      = (if b - 3 <=? monad (lastProcessedBlock (fields s))
         then monad (lastProcessedBlock (fields s))
         else Z.min (b - 3)
                (monad (lastProcessedBlock (fields s)) + 100 * Z.of_nat ticks)).
Proof.
  intros Htip. induction ticks as [|ticks IH]; intros s Hrun.
  - exists s. simpl. repeat split; auto.
    destruct (b - 3 <=? monad (lastProcessedBlock (fields s))) eqn:E; [reflexivity|].
    apply Z.leb_gt in E. lia.
  - destruct (monitorMonadEvents_spec s) as (s1 & E1 & Hr1 & He1 & Hm1).
    rewrite Hrun in Hr1, Hm1. rewrite Htip in Hm1.
    destruct (IH s1 Hr1) as (s' & E' & Hr' & He' & Hm').
    exists s'. split.
    { simpl. unfold andThen at 1. unfold read. rewrite Hrun. simpl.
      unfold andThen. rewrite E1. exact E'. }
    split; [exact Hr'|]. split; [congruence|].
    rewrite Hm', Hm1. unfold next_cursor, BLOCK_CONFIRMATIONS, MAX_BLOCKS_PER_QUERY.
    destruct (b - 3 <=? monad (lastProcessedBlock (fields s))) eqn:E.
    + rewrite E. reflexivity.
    + apply Z.leb_gt in E.
      destruct (b - 3 <=? Z.min (b - 3)
                            (monad (lastProcessedBlock (fields s)) + 1 + 100 - 1)) eqn:E2;
        [apply Z.leb_le in E2|apply Z.leb_gt in E2]; lia.
Qed.

(** X18.  How the Monad loop catches up.  While the chain stays at height
    [b] and the monitor is running, [ticks] ticks of the loop always return
    and leave the Monad cursor at [min(b - 3, cursor + 100 * ticks)] when
    [b - 3] lies beyond the cursor, and where it was otherwise.  So the cursor
    never passes the newest block with three confirmations, advances by at
    most 100 blocks per tick, and has caught up with a backlog of [n] blocks
    after [n / 100] ticks, rounded up; the Ethereum cursor is not touched and
    the monitor keeps running. *)
Theorem X18_monad_loop_catches_up (b : Z) (ticks : nat) (s : Service t) :
  (forall n, fst (getBlockNumber monadBridge n) = Some b) ->
  isRunning (fields s) = true ->
  let cursor := monad (lastProcessedBlock (fields s)) in
  exists s',
    monadMonitoring ticks s = Done (Returned tt) s' /\
    isRunning (fields s') = true /\
    ethereum (lastProcessedBlock (fields s')) = ethereum (lastProcessedBlock (fields s)) /\
    monad (lastProcessedBlock (fields s'))
    = (if b - 3 <=? cursor then cursor
       else Z.min (b - 3) (cursor + 100 * Z.of_nat ticks)) /\
    cursor <= monad (lastProcessedBlock (fields s')) <= Z.max cursor (b - 3) /\
    (b - 3 - cursor <= 100 * Z.of_nat ticks ->
     monad (lastProcessedBlock (fields s')) = Z.max cursor (b - 3)).
Proof.
  intros Htip Hrun cursor.
  destruct (monadMonitoring_spec b Htip ticks s Hrun) as (s' & E & Hr & He & Hm).
  exists s'. fold cursor in Hm. repeat split; auto; rewrite Hm;
    destruct (b - 3 <=? cursor) eqn:Ec;
    try (apply Z.leb_le in Ec); try (apply Z.leb_gt in Ec); lia.
Qed.
End MonitorLifecycle.

(** A monitor at cursor 900 on a chain that stays at height 1250: after
    two ticks the cursor is at 1100, after four at 1247. *)
Lemma X18_monad_loop_catches_up_witness :
  let s := @ex_monitor_service (steady_net 1250) tt in
  EventMonitor.monad (EventMonitor.lastProcessedBlock
    (fields (final (@EventMonitor.monadMonitoring (steady_net 1250) 2 s) s))) = 1100 /\
  EventMonitor.monad (EventMonitor.lastProcessedBlock
    (fields (final (@EventMonitor.monadMonitoring (steady_net 1250) 4 s) s))) = 1247.
Proof.
  intros s. split.
  - destruct (@X18_monad_loop_catches_up (steady_net 1250) 1250 2 s
                (fun _ => eq_refl) eq_refl) as (s' & E & _ & _ & Hm & _).
    rewrite E. simpl. rewrite Hm. reflexivity.
  - destruct (@X18_monad_loop_catches_up (steady_net 1250) 1250 4 s
                (fun _ => eq_refl) eq_refl) as (s' & E & _ & _ & Hm & _).
    rewrite E. simpl. rewrite Hm. reflexivity.
Defined.

(** ** What the monitors submit *)

Section SendFacts.
Context {NW : Network} {S : Type}.

Ltac sends_none E :=
  inversion E; subst; exists []; simpl; rewrite app_nil_r; auto.

Lemma so_pure {A} kind (a : A) : sends_only kind (pure (S := S) a).
Proof. intros s r s' E. unfold pure in E. sends_none E. Qed.

Lemma so_throw {A} kind (e : string) : sends_only kind (throw (S := S) (A := A) e).
Proof. intros s r s' E. unfold throw in E. sends_none E. Qed.

Lemma so_out_of_fuel {A} kind : sends_only kind (out_of_fuel (S := S) (A := A)).
Proof. intros s r s' E. discriminate E. Qed.

Lemma so_logger kind (l : Level) (message : string) :
  sends_only kind (logger (S := S) l message).
Proof. intros s r s' E. unfold logger in E. sends_none E. Qed.

Lemma so_read kind : sends_only kind (read (S := S)).
Proof. intros s r s' E. unfold read in E. sends_none E. Qed.

Lemma so_write kind (f : S) : sends_only kind (write f).
Proof. intros s r s' E. unfold write in E. sends_none E. Qed.

Lemma so_getBlockNumber kind (c : ContractName) :
  sends_only kind (provider_getBlockNumber (S := S) c).
Proof.
  intros s r s' E. unfold provider_getBlockNumber in E.
  destruct (getBlockNumber c (net s)) as [[b|] n]; sends_none E.
Qed.

Lemma so_queryFilter kind (c : ContractName) (filter : string) (a b : Z) :
  sends_only kind (contract_queryFilter (S := S) c filter a b).
Proof.
  intros s r s' E. unfold contract_queryFilter in E.
  destruct (queryFilter c filter a b (net s)) as [[evs|] n]; sends_none E.
Qed.

Lemma so_settled_queryFilter kind (c : ContractName) (filter : string) (a b : Z) :
  sends_only kind (settled_queryFilter (S := S) c filter a b).
Proof.
  intros s r s' E. unfold settled_queryFilter in E.
  destruct (queryFilter c filter a b (net s)) as [evs n]. sends_none E.
Qed.

Lemma so_submit (kind : TxCall -> bool) (tx : TxCall) :
  kind tx = true -> sends_only kind (submit (S := S) tx).
Proof.
  intros Hk s r s' E. unfold submit in E.
  destruct (send tx (net s)) as [[|] n]; inversion E; subst; exists [tx]; simpl;
    rewrite Hk; auto.
Qed.

Lemma so_andThen {A B} kind (c : TS S A) (k : A -> TS S B) :
  sends_only kind c -> (forall a, sends_only kind (k a)) -> sends_only kind (andThen c k).
Proof.
  intros Hc Hk s r s'. unfold andThen.
  destruct (c s) as [[a|e] s1|] eqn:E; [| |discriminate].
  - intros E2. destruct (Hc _ _ _ E) as (t1 & H1 & F1).
    destruct (Hk a _ _ _ E2) as (t2 & H2 & F2).
    exists (t1 ++ t2). rewrite H2, H1, app_assoc. split; [reflexivity|].
    rewrite forallb_app, F1, F2. reflexivity.
  - intros E2. inversion E2; subst. exact (Hc _ _ _ E).
Qed.

Lemma so_try_catch {A} kind (c : TS S A) (handler : string -> TS S A) :
  sends_only kind c -> (forall e, sends_only kind (handler e)) ->
  sends_only kind (try_catch c handler).
Proof.
  intros Hc Hh s r s'. unfold try_catch.
  destruct (c s) as [[a|e] s1|] eqn:E; [| |discriminate].
  - intros E2. inversion E2; subst. exact (Hc _ _ _ E).
  - intros E2. destruct (Hc _ _ _ E) as (t1 & H1 & F1).
    destruct (Hh e _ _ _ E2) as (t2 & H2 & F2).
    exists (t1 ++ t2). rewrite H2, H1, app_assoc. split; [reflexivity|].
    rewrite forallb_app, F1, F2. reflexivity.
Qed.

Lemma so_for_each {A} kind (xs : list A) (body : A -> TS S unit) :
  (forall x, sends_only kind (body x)) -> sends_only kind (for_each xs body).
Proof.
  intros Hb. induction xs as [|x xs IH]; simpl; [apply so_pure|].
  apply so_andThen; auto.
Qed.

Lemma so_promise_all3 {A} kind (p1 p2 p3 : TS S (option A)) :
  sends_only kind p1 -> sends_only kind p2 -> sends_only kind p3 ->
  sends_only kind (promise_all3 p1 p2 p3).
Proof.
  intros H1 H2 H3. unfold promise_all3.
  apply so_andThen; [exact H1|]. intros r1.
  apply so_andThen; [exact H2|]. intros r2.
  apply so_andThen; [exact H3|]. intros r3.
  destruct r1, r2, r3; try apply so_throw. apply so_pure.
Qed.

Lemma so_relayEthereumToMonad (fuel : nat) (orderHash : bytes32)
    (tokenIn tokenOut : address) (amountIn amountOut : uint256) (hashlock : bytes32)
    (timelock : uint256) (maker monadReceiver : address) :
  sends_only is_relay
    (RelayerService.relayEthereumToMonad (S := S) fuel orderHash tokenIn tokenOut
       amountIn amountOut hashlock timelock maker monadReceiver).
Proof.
  intros s r s' E. apply relay_spec in E. destruct E as (_ & _ & (k & Hsent) & _).
  eexists. split; [exact Hsent|]. clear Hsent.
  induction k as [|k IH]; [reflexivity|]. exact IH.
Qed.
End SendFacts.

Section MonitorSends.
Context {NW : Network}.
Import EventMonitor.

Lemma so_handle_and_log kind (l : Level) (message failure : string) (event : EventLog) :
  sends_only kind (handle_and_log l message failure event).
Proof.
  unfold handle_and_log. apply so_try_catch.
  - destruct event; [apply so_logger|apply so_throw].
  - intros e. apply so_logger.
Qed.

Lemma so_processHTLCEvents kind (htlc : ContractName) (failure : string)
    (fromBlock toBlock : Z) :
  sends_only kind (processHTLCEvents htlc failure fromBlock toBlock).
Proof.
  unfold processHTLCEvents. apply so_try_catch; [|intros e; apply so_logger].
  apply so_andThen.
  { apply so_promise_all3; apply so_settled_queryFilter. }
  intros [[evs1 evs2] evs3].
  repeat (apply so_andThen; [apply so_for_each; intros x; apply so_handle_and_log|];
          intros _).
  apply so_for_each. intros x. apply so_handle_and_log.
Qed.

Lemma so_processMonadBridgeEvents kind (fromBlock toBlock : Z) :
  sends_only kind (processMonadBridgeEvents fromBlock toBlock).
Proof.
  unfold processMonadBridgeEvents. apply so_try_catch; [|intros e; apply so_logger].
  apply so_andThen; [apply so_queryFilter|]. intros evs1.
  apply so_andThen; [apply so_for_each; intros x; apply so_handle_and_log|]. intros _.
  apply so_andThen; [apply so_queryFilter|]. intros evs2.
  apply so_for_each. intros x. apply so_handle_and_log.
Qed.

Lemma so_processFusionAdapterEvents (fuel : nat) (fromBlock toBlock : Z) :
  sends_only is_relay (processFusionAdapterEvents fuel fromBlock toBlock).
Proof.
  unfold processFusionAdapterEvents. apply so_try_catch; [|intros e; apply so_logger].
  apply so_andThen; [apply so_queryFilter|]. intros evs1.
  apply so_andThen.
  { apply so_for_each. intros x. unfold handleCrossChainOrderCreated.
    apply so_try_catch; [|intros e; apply so_logger].
    destruct x as [args b|b]; [|apply so_throw].
    destruct args; try apply so_throw.
    apply so_andThen; [apply so_logger|]. intros _. apply so_relayEthereumToMonad. }
  intros _. apply so_andThen; [apply so_queryFilter|]. intros evs2.
  apply so_andThen; [apply so_for_each; intros x; apply so_handle_and_log|]. intros _.
  apply so_andThen; [apply so_queryFilter|]. intros evs3.
  apply so_for_each. intros x. apply so_handle_and_log.
Qed.

Lemma so_monitorMonadEvents : sends_only no_tx monitorMonadEvents.
Proof.
  unfold monitorMonadEvents. apply so_andThen; [apply so_read|]. intros this.
  destruct (negb (isRunning this)); [apply so_pure|].
  apply so_try_catch; [|intros e; apply so_logger].
  apply so_andThen; [apply so_getBlockNumber|]. intros b.
  apply so_andThen; [apply so_read|]. intros this1.
  destruct (_ <=? _); [apply so_pure|].
  apply so_andThen; [apply so_logger|]. intros _.
  apply so_andThen; [apply so_processMonadBridgeEvents|]. intros _.
  apply so_andThen; [apply so_processHTLCEvents|]. intros _.
  apply so_andThen; [apply so_read|]. intros this2. apply so_write.
Qed.

Lemma so_monitorEthereumEvents (fuel : nat) :
  sends_only is_relay (monitorEthereumEvents fuel).
Proof.
  unfold monitorEthereumEvents. apply so_andThen; [apply so_read|]. intros this.
  destruct (negb (isRunning this)); [apply so_pure|].
  apply so_try_catch; [|intros e; apply so_logger].
  apply so_andThen; [apply so_getBlockNumber|]. intros b.
  apply so_andThen; [apply so_read|]. intros this1.
  destruct (_ <=? _); [apply so_pure|].
  apply so_andThen; [apply so_logger|]. intros _.
  apply so_andThen; [apply so_processFusionAdapterEvents|]. intros _.
  apply so_andThen; [apply so_processHTLCEvents|]. intros _.
  apply so_andThen; [apply so_read|]. intros this2. apply so_write.
Qed.

Lemma no_tx_nil (txs : list TxCall) : forallb no_tx txs = true -> txs = [].
Proof. destruct txs; [reflexivity|discriminate]. Qed.

(** X19.  What the monitors submit.  An iteration of the Monad monitor, and
    any number of ticks of its loop, submit no transaction, whatever the
    queries answer: events of the Monad side, among them
    [OutgoingOrderCreated], are logged and nothing is relayed to Ethereum.
    Every transaction an iteration of the Ethereum monitor submits is a
    [processEthereumOrder] on the bridge; it never withdraws, fulfils or
    refunds. *)
Theorem X19_monitors_only_relay (fuel ticks : nat) (s s' : Service t) (r : outcome unit) :
  (monitorMonadEvents s = Done r s' -> sent s' = sent s)
  /\ (monadMonitoring ticks s = Done r s' -> sent s' = sent s)
  /\ (monitorEthereumEvents fuel s = Done r s' ->
      exists txs, sent s' = sent s ++ txs /\ forallb is_relay txs = true).
Proof.
  split; [|split].
  - intros E. apply so_monitorMonadEvents in E. destruct E as (txs & Hs & Hn).
    apply no_tx_nil in Hn. subst txs. rewrite Hs. apply app_nil_r.
  - assert (Hloop : forall k, sends_only no_tx (monadMonitoring k)).
    { induction k as [|k IH]; simpl; [apply so_pure|].
      apply so_andThen; [apply so_read|]. intros this.
      destruct (negb (isRunning this)); [apply so_pure|].
      apply so_andThen; [apply so_monitorMonadEvents|]. intros _. exact IH. }
    intros E. apply Hloop in E. destruct E as (txs & Hs & Hn).
    apply no_tx_nil in Hn. subst txs. rewrite Hs. apply app_nil_r.
  - apply so_monitorEthereumEvents.
Qed.
End MonitorSends.

(** ** ResolverService: statistics, matching and the table of orders *)

Section ResolverMore.
Context {NW : Network}.
Import ResolverService.

Lemma status_partition (orders : list PendingOrder) :
  length orders =
  (length (List.filter is_pending orders) + length (List.filter is_resolved orders)
   + length (List.filter is_refunded orders))%nat.
Proof.
  induction orders as [|o orders IH]; simpl; [reflexivity|].
  unfold is_pending at 1, is_resolved at 1, is_refunded at 1.
  destruct (status o); simpl; lia.
Qed.

Lemma set_fresh {V} (k : string) (v : V) (m : JsMap.t V) :
  JsMap.get k m = None -> JsMap.set k v m = m ++ [(k, v)].
Proof.
  induction m as [|[k' v'] m IH]; simpl; [reflexivity|].
  destruct (String.eqb k' k); [discriminate|]. intros E. by rewrite IH.
Qed.

(** X20.  The numbers of [getStats] add up: in every state
    [totalOrders = pendingOrders + resolvedOrders + refundedOrders], the
    total being the size of the table and [secretsStored] the size of the
    secret store.  [addPendingOrder] of an order whose hash is not in a table
    of fewer than 1000 entries raises the total and the count of the order's
    status by one and leaves the other counts and [secretsStored] as they
    were. *)
Theorem X20_stats_add_up (order : PendingOrder) (s : Service t) :
  let st := getStats (fields s) in
  let count (f : PendingOrder -> bool) (o : PendingOrder) : Z := if f o then 1 else 0 in
  (ResolverStats.totalOrders st =
     ResolverStats.pendingOrders st + ResolverStats.resolvedOrders st
     + ResolverStats.refundedOrders st /\
   ResolverStats.totalOrders st = JsMap.size (pendingOrders (fields s)) /\
   ResolverStats.secretsStored st = JsMap.size (secretStore (fields s)))
  /\ (JsMap.get (orderHash order) (pendingOrders (fields s)) = None ->
      JsMap.size (pendingOrders (fields s)) < MAX_PENDING_ORDERS ->
      exists s',
        addPendingOrder order s = Done (Returned tt) s' /\
        let st' := getStats (fields s') in
        ResolverStats.totalOrders st' = ResolverStats.totalOrders st + 1 /\
        ResolverStats.pendingOrders st' =
          ResolverStats.pendingOrders st + count is_pending order /\
        ResolverStats.resolvedOrders st' =
          ResolverStats.resolvedOrders st + count is_resolved order /\
        ResolverStats.refundedOrders st' =
          ResolverStats.refundedOrders st + count is_refunded order /\
        ResolverStats.secretsStored st' = ResolverStats.secretsStored st).
Proof.
  intros st count. destruct s as [[po ss] n lg sn]. subst st. simpl. split.
  - unfold getStats, JsMap.values, JsMap.size. simpl.
    rewrite (status_partition (map snd po)) at 1. rewrite length_map. lia.
  - intros Hfresh Hroom. unfold addPendingOrder. ts_unfold. simpl.
    apply Z.leb_gt in Hroom. rewrite Hroom. simpl.
    eexists. split; [reflexivity|]. simpl.
    unfold getStats, JsMap.values, JsMap.size. simpl.
    rewrite (set_fresh _ _ _ Hfresh), map_app, !List.filter_app, !length_app. simpl.
    unfold count. destruct (is_pending order), (is_resolved order), (is_refunded order);
      simpl; repeat split; lia.
Qed.

Lemma matches_sym (a b : PendingOrder) : matches a b = matches b a.
Proof.
  unfold matches.
  rewrite (String.eqb_sym (tokenIn b)), (String.eqb_sym (tokenOut b)),
    (String.eqb_sym (amountOut b)), (String.eqb_sym (amountIn b)).
  destruct (String.eqb (tokenOut a) (tokenIn b)), (String.eqb (tokenIn a) (tokenOut b)),
    (String.eqb (amountIn a) (amountOut b)), (String.eqb (amountOut a) (amountIn b));
    reflexivity.
Qed.

Lemma announce_spec (candidates orders : list PendingOrder) (s : Service t) :
  for_each orders (fun ethOrder =>
    match findMatchingOrder ethOrder candidates with
    | Some matchingMonadOrder => initiateAtomicSwap ethOrder matchingMonadOrder
    | None => pure tt
    end) s
  = Done (Returned tt)
      (mkService (fields s) (net s)
         (logged s ++ map (fun _ => (info, "Initiating atomic swap"))
                        (List.filter (fun o => existsb (matches o) candidates) orders))
         (sent s)).
Proof.
  revert s. induction orders as [|o orders IH]; intros [f n lg sn]; simpl.
  - unfold pure. by rewrite app_nil_r.
  - unfold andThen, findMatchingOrder.
    destruct (List.find (matches o) candidates) as [c|] eqn:Ef.
    + assert (Hex : existsb (matches o) candidates = true).
      { apply List.find_some in Ef. apply existsb_exists. exists c. exact Ef. }
      rewrite Hex. unfold initiateAtomicSwap, logger. simpl. rewrite IH. simpl.
      by rewrite <- app_assoc.
    + assert (Hex : existsb (matches o) candidates = false).
      { apply not_true_is_false. intros H. apply existsb_exists in H.
        destruct H as (c & Hin & Hm).
        pose proof (List.find_none _ _ Ef c Hin) as Hn. congruence. }
      rewrite Hex. unfold pure. rewrite IH. reflexivity.
Qed.

Lemma matchOrders_spec (s : Service t) :
  exists s',
    matchOrders s = Done (Returned tt) s' /\
    fields s' = fields s /\ net s' = net s /\ sent s' = sent s /\
    logged s' =
      logged s ++ [(debug, "Starting order matching process")]
      ++ map (fun _ => (info, "Initiating atomic swap"))
           (List.filter (fun o => existsb (matches o) (getPendingMonadOrders (fields s)))
              (getPendingEthereumOrders (fields s)))
      ++ [(debug, "Order matching process completed")].
Proof.
  unfold matchOrders, try_catch.
  unfold andThen at 1. unfold logger at 1. simpl.
  unfold andThen at 1. unfold read at 1. simpl.
  unfold andThen at 1. unfold read at 1. simpl.
  unfold andThen at 1. rewrite announce_spec. simpl.
  unfold logger. simpl. eexists. split; [reflexivity|]. simpl.
  repeat split; auto. rewrite <- !app_assoc. reflexivity.
Qed.

(** X21.  Matching only announces.  [findMatchingOrder] returns the first
    candidate whose tokens and amounts mirror those of the order, and none
    exactly when no candidate does; the test is symmetric in the two orders
    and reads nothing else of them (not the hashlock, the timelock or the
    chains).  [matchOrders] always returns; it submits no transaction, makes
    no query and changes neither the table nor the secret store.  Between
    its two debug lines it logs one line for each pending Ethereum order, in
    table order, for which some pending Monad order passes the test; a Monad
    order is not set aside once matched, so one Monad order can be announced
    for several Ethereum orders. *)
Theorem X21_matching_only_announces (order : PendingOrder)
    (candidates : list PendingOrder) (s : Service t) :
  let ethOrders := getPendingEthereumOrders (fields s) in
  let monadOrders := getPendingMonadOrders (fields s) in
  (forall c, findMatchingOrder order candidates = Some c ->
     In c candidates /\
     tokenIn c = tokenOut order /\ tokenOut c = tokenIn order /\
     amountOut c = amountIn order /\ amountIn c = amountOut order /\
     exists before after,
       candidates = before ++ c :: after /\
       forall b, In b before -> matches order b = false)
  /\ (findMatchingOrder order candidates = None <->
      forall c, In c candidates -> matches order c = false)
  /\ (forall a b, matches a b = matches b a)
  /\ (exists s',
        matchOrders s = Done (Returned tt) s' /\
        fields s' = fields s /\ net s' = net s /\ sent s' = sent s /\
        logged s' =
          logged s ++ [(debug, "Starting order matching process")]
          ++ map (fun _ => (info, "Initiating atomic swap"))
               (List.filter (fun o => existsb (matches o) monadOrders) ethOrders)
          ++ [(debug, "Order matching process completed")]).
Proof.
  intros ethOrders monadOrders. split; [|split; [|split]].
  - intros c Hfind. unfold findMatchingOrder in Hfind.
    pose proof (List.find_some _ _ Hfind) as [Hin Hm].
    split; [exact Hin|]. unfold matches in Hm.
    apply andb_true_iff in Hm. destruct Hm as [Hm H4].
    apply andb_true_iff in Hm. destruct Hm as [Hm H3].
    apply andb_true_iff in Hm. destruct Hm as [H1 H2].
    apply String.eqb_eq in H1, H2, H3, H4. repeat (split; [assumption|]).
    clear H1 H2 H3 H4 Hin. revert Hfind.
    induction candidates as [|x xs IH]; simpl; [discriminate|].
    destruct (matches order x) eqn:Ex.
    + intros E. inversion E; subst. exists [], xs. split; [reflexivity|]. intros b [].
    + intros E. destruct (IH E) as (before & after & -> & Hb).
      exists (x :: before), after. split; [reflexivity|].
      intros b [<-|Hin]; auto.
  - unfold findMatchingOrder. split.
    + intros Hn c Hin. exact (List.find_none _ _ Hn c Hin).
    + intros Hall. destruct (List.find (matches order) candidates) as [c|] eqn:Ef;
        [|reflexivity].
      apply List.find_some in Ef. destruct Ef as [Hin Hm].
      rewrite (Hall c Hin) in Hm. discriminate.
  - apply matches_sym.
  - apply matchOrders_spec.
Qed.
End ResolverMore.

Section ResolverTable.
Context {NW : Network}.
Import ResolverService.

Lemma keys_set {V} (k : string) (v : V) (m : JsMap.t V) :
  JsMap.keys (JsMap.set k v m)
  = match JsMap.get k m with
    | Some _ => JsMap.keys m
    | None => JsMap.keys m ++ [k]
    end.
Proof.
  unfold JsMap.keys. induction m as [|[k' v'] m IH]; simpl; [reflexivity|].
  destruct (String.eqb k' k) eqn:E; simpl; [reflexivity|].
  rewrite IH. destruct (JsMap.get k m); reflexivity.
Qed.

Lemma NoDup_keys_set {V} (k : string) (v : V) (m : JsMap.t V) :
  List.NoDup (JsMap.keys m) -> List.NoDup (JsMap.keys (JsMap.set k v m)).
Proof.
  unfold JsMap.keys. induction m as [|[k' v'] m IH]; simpl.
  - intros _. constructor; [intros []|constructor].
  - intros Hnd. inversion Hnd as [|? ? Hnot Hrest]; subst.
    destruct (String.eqb k' k) eqn:E; simpl; [exact Hnd|].
    apply String.eqb_neq in E. constructor; [|auto].
    fold (JsMap.keys (JsMap.set k v m)). rewrite keys_set.
    destruct (JsMap.get k m); [exact Hnot|].
    intros Hin. apply in_app_or in Hin. destruct Hin as [Hin|[Hin|[]]]; auto.
Qed.

Lemma NoDup_keys_filter {V} (f : string * V -> bool) (m : JsMap.t V) :
  List.NoDup (JsMap.keys m) -> List.NoDup (JsMap.keys (List.filter f m)).
Proof.
  unfold JsMap.keys. induction m as [|[k v] m IH]; simpl; [auto|].
  intros Hnd. inversion Hnd as [|? ? Hnot Hrest]; subst.
  destruct (f (k, v)); simpl; [|auto]. constructor; [|auto].
  intros Hin. apply Hnot. apply List.in_map_iff in Hin.
  destruct Hin as ([k' v'] & Hk & Hin). simpl in Hk. subst k'.
  apply List.filter_In in Hin. apply List.in_map_iff. exists (k, v'). tauto.
Qed.

Lemma resolve_keys (orderHash secret : string) (s s' : Service t) (r : outcome unit) :
  resolveAtomicSwap orderHash secret s = Done r s' ->
  JsMap.keys (pendingOrders (fields s')) = JsMap.keys (pendingOrders (fields s)).
Proof.
  destruct s as [[po ss] n lg sn].
  unfold resolveAtomicSwap, executeAtomicSwapBothChains, set_secretStore,
    set_pendingOrders.
  ts_unfold. simpl.
  destruct (JsMap.get orderHash po) as [order|]; simpl;
    [|intros E; inversion E; reflexivity].
  destruct (keccak256_utf8 secret) as [expected|]; simpl;
    [|intros E; inversion E; reflexivity].
  destruct (String.eqb expected (hashlock order)); simpl;
    [|intros E; inversion E; reflexivity].
  destruct (is_ethereum (sourceChain order)); simpl; repeat ts_step;
    intros E; inversion E; subst; simpl; try reflexivity; apply keys_alter.
Qed.

Lemma sweep_keys (s s' : Service t) (r : outcome unit) :
  handleTimeoutRefunds s = Done r s' ->
  JsMap.keys (pendingOrders (fields s')) = JsMap.keys (pendingOrders (fields s)).
Proof.
  unfold handleTimeoutRefunds, try_catch, andThen, now, read.
  match goal with
  | |- context [for_each ?l processRefund s] =>
      destruct (refunds_spec l s) as (s1 & Hrun & _ & _ & Hkeys & _); rewrite Hrun
  end.
  destruct (0 <? _); unfold logger, pure; intros E; inversion E; subst; exact Hkeys.
Qed.

(** X22.  The table never holds two records under one order hash.  It is
    empty when the service is constructed, and whenever the order hashes in
    it are distinct they are distinct again after [addPendingOrder],
    [cleanupOldOrders], [resolveAtomicSwap], [handleTimeoutRefunds],
    [processEvents] and [matchOrders], whether the call returned or threw.
    [resolveAtomicSwap], [handleTimeoutRefunds], [processEvents] and
    [matchOrders] do not even change which hashes the table holds, nor their
    order: records leave the table through [cleanupOldOrders] alone. *)
Theorem X22_one_record_per_hash (order : PendingOrder) (orderHash secret : string)
    (events : list HTLCEvent) (s s' : Service t) (r : outcome unit) :
  List.NoDup (JsMap.keys (pendingOrders (fields s))) ->
  let table' := pendingOrders (fields s') in
  pendingOrders init = []
  /\ (addPendingOrder order s = Done r s' \/ cleanupOldOrders s = Done r s' ->
      List.NoDup (JsMap.keys table'))
  /\ (resolveAtomicSwap orderHash secret s = Done r s' \/
      handleTimeoutRefunds s = Done r s' \/
      processEvents events s = Done r s' \/
      matchOrders s = Done r s' ->
      JsMap.keys table' = JsMap.keys (pendingOrders (fields s)) /\
      List.NoDup (JsMap.keys table')).
Proof.
  intros Hnd table'. subst table'. split; [reflexivity|]. split.
  - destruct s as [[po ss] n lg sn]. simpl in Hnd.
    unfold addPendingOrder, cleanupOldOrders. ts_unfold. simpl.
    intros [E|E].
    + destruct (MAX_PENDING_ORDERS <=? JsMap.size po); simpl in E;
        inversion E; subst; simpl; apply NoDup_keys_set; [|exact Hnd].
      apply NoDup_keys_filter. exact Hnd.
    + inversion E; subst; simpl. apply NoDup_keys_filter. exact Hnd.
  - intros H.
    assert (Hk : JsMap.keys (pendingOrders (fields s'))
                 = JsMap.keys (pendingOrders (fields s))).
    { destruct H as [E|[E|[E|E]]].
      - exact (resolve_keys _ _ _ _ _ E).
      - exact (sweep_keys _ _ _ E).
      - destruct (processEvents_spec events s) as (s1 & E1 & Hf & _).
        rewrite E1 in E. inversion E; subst. by rewrite Hf.
      - destruct (matchOrders_spec s) as (s1 & E1 & Hf & _).
        rewrite E1 in E. inversion E; subst. by rewrite Hf. }
    split; [exact Hk|]. rewrite Hk. exact Hnd.
Qed.

(** X23.  [resolveAtomicSwap] is not atomic, and does not look at the
    status of the order.  Given an order under the hash and a secret whose
    hash is its hashlock, the secret is stored first, whatever follows.  The
    fulfilment is then submitted on the source chain of the order and, only
    when that was accepted, on the other chain.  When the first submission
    is rejected the call throws after that one submission; when the second
    is rejected it throws after both, one chain having accepted the
    fulfilment; in both cases the record of the order is left as it was.
    When both are accepted the call returns and the record is marked
    resolved with the secret and the time, also when its status was resolved
    or refunded before. *)
Theorem X23_resolve_not_atomic (key secret : string) (order : PendingOrder)
    (s : Service t) :
  JsMap.get key (pendingOrders (fields s)) = Some order ->
  keccak256_utf8 secret = Some (hashlock order) ->
  let onEthereum := TxFulfillOrder (orderHash order) secret in
  let onMonad := TxFulfillIncomingOrder (orderHash order) secret in
  let first := if is_ethereum (sourceChain order) then onEthereum else onMonad in
  let second := if is_ethereum (sourceChain order) then onMonad else onEthereum in
  let answer1 := send first (net s) in
  let answer2 := send second (snd answer1) in
  exists r s',
    resolveAtomicSwap key secret s = Done r s' /\
    secretStore (fields s') = JsMap.set key secret (secretStore (fields s)) /\
    if fst answer1 then
      sent s' = sent s ++ [first; second] /\
      if fst answer2 then
        r = Returned tt /\
        pendingOrders (fields s')
        = JsMap.alter (mark_resolved secret (Date_now (snd answer2))) key
            (pendingOrders (fields s)) /\
        JsMap.get key (pendingOrders (fields s'))
        = Some (mark_resolved secret (Date_now (snd answer2)) order)
      else
        r = Thrown "transaction failed" /\
        pendingOrders (fields s') = pendingOrders (fields s)
    else
      r = Thrown "transaction failed" /\
      sent s' = sent s ++ [first] /\
      pendingOrders (fields s') = pendingOrders (fields s).
Proof.
  intros Hget Hk onEthereum onMonad first second answer1 answer2.
  subst answer2 answer1 first second onEthereum onMonad.
  destruct s as [[po ss] n lg sn]. simpl in *.
  unfold resolveAtomicSwap, executeAtomicSwapBothChains, set_secretStore,
    set_pendingOrders.
  ts_unfold. simpl. rewrite Hget. simpl. rewrite Hk. simpl.
  rewrite String.eqb_refl. simpl.
  destruct (is_ethereum (sourceChain order)); simpl; repeat ts_step;
    eexists; eexists; (split; [reflexivity|]); simpl;
    repeat split; try reflexivity; try (rewrite <- app_assoc; reflexivity);
    rewrite get_alter_eq, Hget; reflexivity.
Qed.
End ResolverTable.

(** The example table after one more order was added: its hashes are
    distinct. *)
Lemma X22_one_record_per_hash_witness :
  let s := ex_resolver_service ex_early in
  List.NoDup (JsMap.keys (ResolverService.pendingOrders
    (fields (final (@ResolverService.addPendingOrder calm_net (ex_pending "0x02") s) s)))).
Proof.
  intros s.
  assert (Hnd : List.NoDup (JsMap.keys (ResolverService.pendingOrders (fields s)))).
  { simpl. constructor; [intros []|constructor]. }
  assert (Hrun : @ResolverService.addPendingOrder calm_net (ex_pending "0x02") s
                 = Done (Returned tt)
                     (final (@ResolverService.addPendingOrder calm_net
                               (ex_pending "0x02") s) s))
    by (vm_compute; reflexivity).
  destruct (@X22_one_record_per_hash calm_net (ex_pending "0x02") "" "" [] s
              (final (@ResolverService.addPendingOrder calm_net (ex_pending "0x02") s) s)
              (Returned tt) Hnd)
    as (_ & H & _).
  apply H. left. exact Hrun.
Defined.

(** The example order resolved with its secret on a network that accepts
    both fulfilments: first on Ethereum, then on Monad. *)
Lemma X23_resolve_not_atomic_witness :
  let s := ex_resolver_service ex_early in
  let s' := final (@ResolverService.resolveAtomicSwap calm_net "0x01" "s3cret" s) s in
  sent s' = [TxFulfillOrder "0x01" "s3cret"; TxFulfillIncomingOrder "0x01" "s3cret"] /\
  ResolverService.secretStore (fields s') = [("0x01", "s3cret")].
Proof.
  intros s s'.
  destruct (@X23_resolve_not_atomic calm_net "0x01" "s3cret" (ex_pending "0x01") s
              eq_refl eq_refl) as (r & s1 & Hrun & Hss & Hsent & _).
  subst s'. rewrite Hrun. simpl. split; [exact Hsent|exact Hss].
Defined.

(** ** MonadBridge.sol: what no call does to an order *)

Section BridgeInvariant.
Context {HS : Hashes} {EX : Extern}.
Import MonadBridge.

Lemma bridge_call_frame (c : Ctx) (op : Call) (m m' : Machine Deployment) :
  call c op m = Ok (tt, m') ->
  let s := fst (storage m) in
  let s' := fst (storage m') in
  owner s' = owner s /\ authorizedRelayers s' = authorizedRelayers s /\
  htlcContract s' = htlcContract s /\
  match op with
  | ProcessEthereumOrder h tokenIn tokenOut amountIn amountOut hashlock timelock
      ethereumMaker monadReceiver =>
      outgoingOrders s' = outgoingOrders s /\
      IncomingOrder.ethereumOrderHash (incoming m h) = 0 /\
      incomingOrders s' =
        <[h := IncomingOrder.mk h tokenIn tokenOut amountIn amountOut hashlock timelock
                 ethereumMaker monadReceiver false false (block_timestamp c) 0 0]>
          (incomingOrders s)
  | FulfillIncomingOrder h secret =>
      outgoingOrders s' = outgoingOrders s /\
      exists id,
        incomingOrders s' =
          <[h := set_fulfilled (incoming m h) (msg_sender c) id]> (incomingOrders s)
  | CreateOutgoingOrder _ _ _ _ _ _ _ =>
      incomingOrders s' = incomingOrders s /\
      exists h o,
        OutgoingOrder.maker (outgoing m h) = 0 /\
        outgoingOrders s' = <[h := o]> (outgoingOrders s)
  | UpdateTimelockParams _ _ _ =>
      incomingOrders s' = incomingOrders s /\ outgoingOrders s' = outgoingOrders s
  end.
Proof.
  destruct op;
    unfold call, processEthereumOrder, fulfillIncomingOrder, createOutgoingOrder,
      updateTimelockParams, onlyAuthorizedRelayer, onlyOwner, _storeSecretForRelayer,
      self, incoming, outgoing,
      MonadHTLC.newContractERC20, MonadHTLC.newContract, MonadHTLC.fundsSent,
      MonadHTLC.futureTimelock;
    sol_unfold; destruct m as [[s hs] w l];
    sol_run; try discriminate;
    intros E; inversion E; subst; clear E; simpl; bool_prop;
    repeat split; eauto.
Qed.

(** X24.  No call closes an order on the bridge.  After any successful
    processEthereumOrder, fulfillIncomingOrder, createOutgoingOrder or
    updateTimelockParams: the refunded flag of an incoming order is set only
    if it was set before, so no call ever sets it; a mirrored incoming order
    that is fulfilled stays fulfilled; the order hash, tokens, amounts, hashlock, timelock,
    maker, receiver and creation time of a mirrored incoming order are what
    they were; and an outgoing order that exists is exactly what it was, so
    it stays active for ever.  Owner, authorized relayers and the HTLC
    contract address are not changed either. *)
Theorem X24_bridge_never_closes_an_order (c : Ctx) (op : Call)
    (m m' : Machine Deployment) (h : bytes32) :
  call c op m = Ok (tt, m') ->
  let o := incoming m h in
  let o' := incoming m' h in
  (IncomingOrder.refunded o' = true -> IncomingOrder.refunded o = true)
  /\ (IncomingOrder.ethereumOrderHash o <> 0 -> IncomingOrder.fulfilled o = true ->
      IncomingOrder.fulfilled o' = true)
  /\ (IncomingOrder.ethereumOrderHash o <> 0 ->
      IncomingOrder.ethereumOrderHash o' = IncomingOrder.ethereumOrderHash o /\
      IncomingOrder.tokenIn o' = IncomingOrder.tokenIn o /\
      IncomingOrder.tokenOut o' = IncomingOrder.tokenOut o /\
      IncomingOrder.amountIn o' = IncomingOrder.amountIn o /\
      IncomingOrder.amountOut o' = IncomingOrder.amountOut o /\
      IncomingOrder.hashlock o' = IncomingOrder.hashlock o /\
      IncomingOrder.timelock o' = IncomingOrder.timelock o /\
      IncomingOrder.ethereumMaker o' = IncomingOrder.ethereumMaker o /\
      IncomingOrder.monadReceiver o' = IncomingOrder.monadReceiver o /\
      IncomingOrder.createdAt o' = IncomingOrder.createdAt o)
  /\ (OutgoingOrder.maker (outgoing m h) <> 0 -> outgoing m' h = outgoing m h)
  /\ (owner (fst (storage m')) = owner (fst (storage m)) /\
      authorizedRelayers (fst (storage m')) = authorizedRelayers (fst (storage m)) /\
      htlcContract (fst (storage m')) = htlcContract (fst (storage m))).
Proof.
  intros E o o'. apply bridge_call_frame in E.
  destruct E as (Ho & Ha & Hh & E). subst o o'. unfold incoming, outgoing in *.
  split; [|split; [|split; [|split; [|auto]]]]; destruct op.
  - destruct E as (_ & _ & ->). destruct (Z.eq_dec ethereumOrderHash h) as [->|Hne].
    + rewrite mapping_get_insert_eq. discriminate.
    + rewrite mapping_get_insert_ne by exact Hne. auto.
  - destruct E as (_ & id & ->). destruct (Z.eq_dec ethereumOrderHash h) as [->|Hne].
    + rewrite mapping_get_insert_eq. auto.
    + rewrite mapping_get_insert_ne by exact Hne. auto.
  - destruct E as (-> & _). auto.
  - destruct E as (-> & _). auto.
  - destruct E as (_ & Hz & ->). destruct (Z.eq_dec ethereumOrderHash h) as [->|Hne].
    + intros Hex. contradiction.
    + rewrite mapping_get_insert_ne by exact Hne. auto.
  - destruct E as (_ & id & ->). destruct (Z.eq_dec ethereumOrderHash h) as [->|Hne].
    + rewrite mapping_get_insert_eq. auto.
    + rewrite mapping_get_insert_ne by exact Hne. auto.
  - destruct E as (-> & _). auto.
  - destruct E as (-> & _). auto.
  - destruct E as (_ & Hz & ->). destruct (Z.eq_dec ethereumOrderHash h) as [->|Hne].
    + intros Hex. contradiction.
    + rewrite mapping_get_insert_ne by exact Hne. repeat split; reflexivity.
  - destruct E as (_ & id & ->). destruct (Z.eq_dec ethereumOrderHash h) as [->|Hne].
    + rewrite mapping_get_insert_eq. intros _. repeat split; reflexivity.
    + rewrite mapping_get_insert_ne by exact Hne. repeat split; reflexivity.
  - destruct E as (-> & _). repeat split; reflexivity.
  - destruct E as (-> & _). repeat split; reflexivity.
  - destruct E as (-> & _). auto.
  - destruct E as (-> & _). auto.
  - destruct E as (_ & h0 & o0 & Hfree & ->). intros Hex.
    destruct (Z.eq_dec h0 h) as [->|Hne]; [contradiction|].
    apply mapping_get_insert_ne. exact Hne.
  - destruct E as (_ & ->). auto.
Qed.
End BridgeInvariant.

(** The example fulfilment keeps the timelock and the receiver of the
    mirrored order. *)
Lemma X24_bridge_never_closes_an_order_witness :
  MonadBridge.IncomingOrder.timelock (MonadBridge.incoming ex_monad2 ex_orderHash)
  = MonadBridge.IncomingOrder.timelock (MonadBridge.incoming ex_monad1 ex_orderHash) /\
  MonadBridge.IncomingOrder.monadReceiver (MonadBridge.incoming ex_monad2 ex_orderHash)
  = MonadBridge.IncomingOrder.monadReceiver (MonadBridge.incoming ex_monad1 ex_orderHash).
Proof.
  assert (Hrun : @MonadBridge.call toy_hashes trace_world fulfiller_ctx
                   (MonadBridge.FulfillIncomingOrder ex_orderHash ex_leaked_secret)
                   ex_monad1 = Ok (tt, ex_monad2))
    by (vm_compute; reflexivity).
  pose proof (X24_bridge_never_closes_an_order (HS := toy_hashes) (EX := trace_world)
                _ _ _ _ ex_orderHash Hrun) as H.
  cbv zeta in H. destruct H as (_ & _ & H & _).
  destruct H as (_ & _ & _ & _ & _ & _ & Ht & _ & Hr & _);
    [vm_compute; discriminate|].
  split; [exact Ht|exact Hr].
Defined.

(** ** FusionMonadAdapter.sol: the books after an order is created *)

Section AdapterCreation.
Context {HS : Hashes} {EX : Extern} {EthereumHTLC : IHTLC.Impl}.
Import FusionMonadAdapter.

Lemma createCrossChainOrder_books (c : Ctx) (tokenIn tokenOut : address)
    (amountIn amountOut : uint256) (monadReceiver : address)
    (targetChainId customTimelock : uint256) (m m' : Machine Deployment)
    (h : bytes32) :
  createCrossChainOrder c tokenIn tokenOut amountIn amountOut monadReceiver
    targetChainId customTimelock m = Ok (h, m') ->
  let s := fst (storage m) in
  let s' := fst (storage m') in
  let d := if customTimelock =? 0 then defaultTimelock s else customTimelock in
  let secret :=
    keccak256 [AAddr (msg_sender c); AUint (block_timestamp c);
               AUint (block_difficulty c); AUint amountIn; AUint amountOut] in
  let hashlock := keccak256 [AB32 secret] in
  let deadline := block_timestamp c + d in
  h = keccak256 [AAddr (msg_sender c); AAddr tokenIn; AAddr tokenOut; AUint amountIn;
                 AUint amountOut; AB32 hashlock; AUint deadline; AUint targetChainId;
                 AAddr monadReceiver] /\
  maker (getOrder s h) = 0 /\
  (exists id w1 w2 hm,
     getOrder s' h =
       mkCrossChainOrder h tokenIn tokenOut amountIn amountOut hashlock deadline
         (msg_sender c) monadReceiver targetChainId true false (block_timestamp c) id /\
     ext_call (Erc20TransferFrom tokenIn (this c) (msg_sender c) (this c) amountIn)
       (world m) = Some w1 /\
     ext_call (Erc20Approve tokenIn (this c) (htlcContract s) amountIn) w1 = Some w2 /\
     IHTLC.newContractERC20 (htlc_ctx c s 0) (this c) hashlock deadline tokenIn amountIn
       (mkMachine (snd (storage m)) w2 (log m)) = Ok (id, hm) /\
     snd (storage m') = storage hm /\ world m' = world hm) /\
  (forall h', h' <> h -> getOrder s' h' = getOrder s h') /\
  getUserOrders s' (msg_sender c) = getUserOrders s (msg_sender c) ++ [h] /\
  (forall u, u <> msg_sender c -> getUserOrders s' u = getUserOrders s u).
Proof.
  intros E. pose proof (createCrossChainOrder_ok _ _ _ _ _ _ _ _ _ _ _ E) as (_ & Htok & _).
  revert E. unfold createCrossChainOrder, _storeSecretForRelayer, self, getOrder,
    getUserOrders.
  sol_unfold. destruct m as [[s hs] w l]. simpl.
  apply Z.eqb_neq in Htok. rewrite Htok. simpl.
  sol_run; try discriminate.
  all: match goal with
       | |- context [IHTLC.newContractERC20 ?a ?b ?d ?e ?f ?g ?h] =>
           destruct (IHTLC.newContractERC20 a b d e f g h) as [[id hm]|] eqn:Hnew; simpl
       end; try discriminate.
  all: intros E; inversion E; subst; clear E; simpl.
  all: rewrite !mapping_get_insert_eq; bool_prop.
  all: split; [reflexivity|]; split; [assumption|].
  all: split; [do 4 eexists; repeat split; eauto|].
  all: split; [intros h' Hne; apply mapping_get_insert_ne; congruence|].
  all: split; [reflexivity|].
  all: intros u Hne; apply mapping_get_insert_ne; congruence.
Qed.

(** X25.  The books of the adapter after [createCrossChainOrder].  On
    success the returned hash is the keccak256 of maker, tokens, amounts,
    hashlock, deadline, target chain and receiver, where the deadline is the
    block timestamp plus the effective timelock; no order existed under it.
    The input tokens were first pulled from the maker into the adapter, then
    the HTLC contract was approved for them, then an ERC20 escrow was created
    in the HTLC contract by the adapter with the adapter itself as receiver.
    The order read back holds the arguments, the maker, the deadline, the
    escrow id, [isActive = true] and [isFulfilled = false]; every other order
    is unchanged; the hash is appended to the maker's list and no other list
    changes.  Repeating the call in the same block, by the same maker with
    the same arguments, reverts for as long as that order is stored and the
    default timelock is what it was. *)
Theorem X25_adapter_creation_books (c : Ctx) (tokenIn tokenOut : address)
    (amountIn amountOut : uint256) (monadReceiver : address)
    (targetChainId customTimelock : uint256) (m m' m2 : Machine Deployment)
    (h : bytes32) :
  createCrossChainOrder c tokenIn tokenOut amountIn amountOut monadReceiver
    targetChainId customTimelock m = Ok (h, m') ->
  let s := fst (storage m) in
  let s' := fst (storage m') in
  let d := if customTimelock =? 0 then defaultTimelock s else customTimelock in
  let secret :=
    keccak256 [AAddr (msg_sender c); AUint (block_timestamp c);
               AUint (block_difficulty c); AUint amountIn; AUint amountOut] in
  let hashlock := keccak256 [AB32 secret] in
  let deadline := block_timestamp c + d in
  (h = keccak256 [AAddr (msg_sender c); AAddr tokenIn; AAddr tokenOut; AUint amountIn;
                  AUint amountOut; AB32 hashlock; AUint deadline; AUint targetChainId;
                  AAddr monadReceiver] /\
   maker (getOrder s h) = 0)
  /\ (exists id w1 w2 hm,
        getOrder s' h =
          mkCrossChainOrder h tokenIn tokenOut amountIn amountOut hashlock deadline
            (msg_sender c) monadReceiver targetChainId true false (block_timestamp c) id /\
        ext_call (Erc20TransferFrom tokenIn (this c) (msg_sender c) (this c) amountIn)
          (world m) = Some w1 /\
        ext_call (Erc20Approve tokenIn (this c) (htlcContract s) amountIn) w1 = Some w2 /\
        IHTLC.newContractERC20 (htlc_ctx c s 0) (this c) hashlock deadline tokenIn
          amountIn (mkMachine (snd (storage m)) w2 (log m)) = Ok (id, hm) /\
        snd (storage m') = storage hm /\ world m' = world hm)
  /\ ((forall h', h' <> h -> getOrder s' h' = getOrder s h') /\
      getUserOrders s' (msg_sender c) = getUserOrders s (msg_sender c) ++ [h] /\
      (forall u, u <> msg_sender c -> getUserOrders s' u = getUserOrders s u))
  /\ (msg_sender c <> 0 ->
      getOrder (fst (storage m2)) h = getOrder s' h ->
      defaultTimelock (fst (storage m2)) = defaultTimelock s ->
      is_ok (createCrossChainOrder c tokenIn tokenOut amountIn amountOut monadReceiver
               targetChainId customTimelock m2) = false).
Proof.
  intros E s s' d secret hashlock deadline.
  pose proof (createCrossChainOrder_books _ _ _ _ _ _ _ _ _ _ _ E) as
    (Hh & Hfree & Hrec & Hothers & Hlist & Hlists).
  fold s s' in Hh, Hfree, Hrec, Hothers, Hlist, Hlists.
  fold d in Hh, Hrec. fold secret in Hh, Hrec. fold hashlock in Hh, Hrec.
  fold deadline in Hh, Hrec.
  split; [auto|]. split; [exact Hrec|]. split; [auto|].
  intros Hsender Hsame Hdef.
  destruct (createCrossChainOrder c tokenIn tokenOut amountIn amountOut monadReceiver
              targetChainId customTimelock m2) as [[h2 m3]|] eqn:E2; [|reflexivity].
  exfalso. apply createCrossChainOrder_books in E2.
  destruct E2 as (Hh2 & Hfree2 & _). rewrite Hdef in Hh2.
  fold s d in Hh2. fold secret in Hh2. fold hashlock in Hh2. fold deadline in Hh2.
  rewrite <- Hh in Hh2. subst h2. rewrite Hsame in Hfree2.
  destruct Hrec as (id & _ & _ & _ & Hrec & _). rewrite Hrec in Hfree2.
  simpl in Hfree2. contradiction.
Qed.
End AdapterCreation.

(** The example order: read back with the maker and active, and a second
    creation in the same block reverts. *)
Lemma X25_adapter_creation_books_witness :
  FusionMonadAdapter.maker ex_source_order = maker_addr /\
  FusionMonadAdapter.isActive ex_source_order = true /\
  is_ok (@FusionMonadAdapter.createCrossChainOrder toy_hashes trace_world
           EthereumHTLC_standin maker_ctx tokenA tokenB (10 ^ 18) (98 * 10 ^ 16)
           receiver_addr 1 0 ex_ethereum') = false.
Proof.
  assert (Hsrc : ex_source = Ok (ex_orderHash, ex_ethereum'))
    by (vm_compute; reflexivity).
  pose proof (@X25_adapter_creation_books toy_hashes trace_world EthereumHTLC_standin
                maker_ctx tokenA tokenB (10 ^ 18) (98 * 10 ^ 16) receiver_addr 1 0
                ex_ethereum ex_ethereum' ex_ethereum' ex_orderHash Hsrc) as H.
  cbv zeta in H. destruct H as (_ & (id & w1 & w2 & hm & Hrec & _) & _ & Hdup).
  unfold ex_source_order. fold (FusionMonadAdapter.getOrder (fst (storage ex_ethereum'))
                                  ex_orderHash).
  rewrite Hrec. simpl. split; [reflexivity|]. split; [reflexivity|].
  apply Hdup; [vm_compute; discriminate|reflexivity|reflexivity].
Defined.

(** ** ResolverService: what the sweep marks without a refund *)

Section SweepByChain.
Context {NW : Network}.
Import ResolverService.



End SweepByChain.


(** ** HTLC.sol: what is locked is what is paid *)

Section HTLCConservation.
Context {HS : Hashes} {EX : Extern}.

Lemma lock_ok (c : Ctx) (m m' : Machine HTLC.Storage) :
  HTLC.lock c m = Ok (tt, m') ->
  let s := storage m in
  HTLC.token s = 0 /\ HTLC.state s = HTLC.Empty /\ msg_value c <> 0 /\
  ext_call (EthSend (msg_sender c) (this c) (msg_value c)) (world m) = Some (world m') /\
  storage m' = HTLC.set_locked s (msg_value c) HTLC.Locked /\
  log m' = log m ++ [(this c, EvLocked (msg_sender c) (HTLC.receiver s) (msg_value c) 0)].
Proof.
  unfold HTLC.lock. sol_unfold. destruct m as [s w l].
  sol_run; try discriminate; intros E; inversion E; subst; clear E; simpl;
    bool_prop;
    repeat match goal with
           | H : HTLC.State_eqb _ _ = true |- _ => apply State_eqb_eq in H
           | H : HTLC.State_eqb _ _ = false |- _ => apply State_eqb_neq in H
           end;
    repeat split; auto; congruence.
Qed.

Lemma lockERC20_ok (c : Ctx) (amount : uint256) (m m' : Machine HTLC.Storage) :
  HTLC.lockERC20 c amount m = Ok (tt, m') ->
  let s := storage m in
  msg_value c = 0 /\ HTLC.token s <> 0 /\ HTLC.state s = HTLC.Empty /\ amount <> 0 /\
  ext_call (Erc20TransferFrom (HTLC.token s) (this c) (msg_sender c) (this c) amount)
    (world m) = Some (world m') /\
  storage m' = HTLC.set_locked s amount HTLC.Locked /\
  log m' = log m ++ [(this c, EvLocked (msg_sender c) (HTLC.receiver s) amount
                                (HTLC.token s))].
Proof.
  unfold HTLC.lockERC20. sol_unfold. destruct m as [s w l].
  sol_run; try discriminate; intros E; inversion E; subst; clear E; simpl;
    bool_prop;
    repeat match goal with
           | H : HTLC.State_eqb _ _ = true |- _ => apply State_eqb_eq in H
           | H : HTLC.State_eqb _ _ = false |- _ => apply State_eqb_neq in H
           end;
    repeat split; auto; congruence.
Qed.

(** X27.  An HTLC.sol escrow pays out what was locked, to the receiver or
    to the deployer.  A successful [lock] found a native-asset escrow in
    state Empty and a non-zero value, which arrived from the caller; a
    successful [lockERC20] found a token escrow in state Empty and a non-zero
    amount, which was transferred from the caller.  Neither tests who the
    caller is.  From the state either leaves, a successful [claim] pays
    exactly that amount of that asset to the receiver and a successful
    [refund] pays exactly that amount to the sender fixed at deployment, who
    need not be the account that locked. *)
Theorem X27_htlc_pays_what_was_locked (c0 c1 : Ctx) (op : HTLC.Call) (secret : bytes32)
    (m0 m1 m1' m2 : Machine HTLC.Storage) :
  HTLC.call c0 op m0 = Ok (tt, m1) ->
  HTLC.state (storage m0) = HTLC.Empty ->
  storage m1' = storage m1 ->
  let s := storage m0 in
  exists amount,
    ((op = HTLC.Lock /\ HTLC.token s = 0 /\ amount = msg_value c0 /\
      ext_call (EthSend (msg_sender c0) (this c0) amount) (world m0) = Some (world m1)) \/
     (op = HTLC.LockERC20 amount /\ HTLC.token s <> 0 /\ msg_value c0 = 0 /\
      ext_call (Erc20TransferFrom (HTLC.token s) (this c0) (msg_sender c0) (this c0)
                  amount) (world m0) = Some (world m1)))
    /\ amount <> 0
    /\ HTLC.lockedAmount (storage m1) = amount
    /\ (HTLC.claim c1 secret m1' = Ok (tt, m2) ->
        ext_call (HTLC.payout c1 s (HTLC.receiver s) amount) (world m1')
          = Some (world m2))
    /\ (HTLC.refund c1 m1' = Ok (tt, m2) ->
        ext_call (HTLC.payout c1 s (HTLC.sender s) amount) (world m1')
          = Some (world m2)).
Proof.
  intros Hcall Hempty Hsame s.
  assert (Hpay : forall to a, HTLC.payout c1 (storage m1') to a = HTLC.payout c1 s to a
                 /\ HTLC.receiver (storage m1') = HTLC.receiver s
                 /\ HTLC.sender (storage m1') = HTLC.sender s).
  { intros to a. apply call_ok_step in Hcall. destruct Hcall as ((Hs & Hr & _ & _ & Ht) & _).
    rewrite Hsame. unfold HTLC.payout. rewrite Ht. auto. }
  destruct op.
  - simpl in Hcall. apply lock_ok in Hcall. destruct Hcall as (Ht & _ & Hv & Hext & Hst & _).
    exists (msg_value c0). split; [left; auto|]. split; [exact Hv|].
    split; [rewrite Hst; reflexivity|]. split.
    + intros E. apply claim_ok_effect in E. destruct E as (_ & _ & E & _).
      rewrite Hsame, Hst in E. simpl in E.
      destruct (Hpay (HTLC.receiver s) (msg_value c0)) as (Hp & _).
      rewrite Hsame, Hst in Hp. rewrite <- Hp. exact E.
    + intros E. apply refund_ok_effect in E. destruct E as (_ & _ & E & _).
      rewrite Hsame, Hst in E. simpl in E.
      destruct (Hpay (HTLC.sender s) (msg_value c0)) as (Hp & _).
      rewrite Hsame, Hst in Hp. rewrite <- Hp. exact E.
  - simpl in Hcall. apply lockERC20_ok in Hcall.
    destruct Hcall as (Hv & Ht & _ & Ha & Hext & Hst & _).
    exists amount. split; [right; auto|]. split; [exact Ha|].
    split; [rewrite Hst; reflexivity|]. split.
    + intros E. apply claim_ok_effect in E. destruct E as (_ & _ & E & _).
      rewrite Hsame, Hst in E. simpl in E.
      destruct (Hpay (HTLC.receiver s) amount) as (Hp & _).
      rewrite Hsame, Hst in Hp. rewrite <- Hp. exact E.
    + intros E. apply refund_ok_effect in E. destruct E as (_ & _ & E & _).
      rewrite Hsame, Hst in E. simpl in E.
      destruct (Hpay (HTLC.sender s) amount) as (Hp & _).
      rewrite Hsame, Hst in Hp. rewrite <- Hp. exact E.
  - apply call_ok_step in Hcall. simpl in Hcall.
    destruct Hcall as (_ & [(_ & _ & _ & [H|[a H]])|[(H & _)|(H & _)]]);
      try discriminate H; congruence.
  - apply call_ok_step in Hcall. simpl in Hcall.
    destruct Hcall as (_ & [(_ & _ & _ & [H|[a H]])|[(H & _)|(H & _)]]);
      try discriminate H; congruence.
Qed.
End HTLCConservation.

(** A stranger locks one native unit in the example escrow; the claim pays
    one unit to the receiver. *)
Lemma X27_htlc_pays_what_was_locked_witness :
  let empty := @mkMachine trace_world _
                 (HTLC.mkStorage 0xA11CE 0xB0B (@sha256 toy_hashes [AB32 ex_secret])
                    1700086400 0 0 HTLC.Empty) [] [] in
  let locked := machine_of (@HTLC.lock trace_world (mkCtx 0xC0DE 0xBAD (10 ^ 18) 1700000000 0)
                              empty) empty in
  let claimed := machine_of (@HTLC.claim toy_hashes trace_world ex_late_stranger ex_secret
                               locked) locked in
  world claimed = world locked ++ [EthSend 0xC0DE 0xB0B (10 ^ 18)].
Proof.
  intros empty locked claimed.
  assert (Hlock : @HTLC.call toy_hashes trace_world (mkCtx 0xC0DE 0xBAD (10 ^ 18) 1700000000 0)
                    HTLC.Lock empty = Ok (tt, locked)) by (vm_compute; reflexivity).
  assert (Hclaim : @HTLC.claim toy_hashes trace_world ex_late_stranger ex_secret locked
                   = Ok (tt, claimed)) by (vm_compute; reflexivity).
  destruct (@X27_htlc_pays_what_was_locked toy_hashes trace_world _ ex_late_stranger _
              ex_secret empty locked locked claimed Hlock eq_refl eq_refl)
    as (amount & [(_ & _ & Ha & _)|(Hop & _)] & _ & _ & Hc & _); [|discriminate Hop].
  specialize (Hc Hclaim). subst amount. vm_compute in Hc. inversion Hc as [Hw].
  vm_compute. reflexivity.
Defined.

(** ** EventMonitor: the three HTLC queries stand or fall together *)

Section HTLCQueries.
Context {NW : Network}.
Import EventMonitor.

Lemma handle_and_log_all (l : Level) (message failure : string) (events : list EventLog)
    (s : Service t) :
  for_each events (handle_and_log l message failure) s
  = Done (Returned tt)
      (mkService (fields s) (net s)
         (logged s ++ map (handled_line l message failure) events) (sent s)).
Proof.
  revert s. induction events as [|ev events IH]; intros [f n lg sn]; simpl.
  - unfold pure. by rewrite app_nil_r.
  - unfold andThen, handle_and_log, try_catch.
    destruct ev; unfold logger, throw; simpl; rewrite IH; simpl;
      by rewrite <- app_assoc.
Qed.

(** X28.  The three HTLC queries of a window stand or fall together.
    [processEthereumHTLCEvents] and [processMonadHTLCEvents] always return,
    keep the fields and submit nothing.  They issue the queries for
    HTLCCreated, HTLCWithdrawn and HTLCRefunded, all three, and when one of
    them is rejected no event of the window is handled, also not those the
    other two queries returned: the only trace is one error line.  When all
    three answer, the logs are handled in the order created, withdrawn,
    refunded, each leaving one line: its message, or an error line when its
    arguments cannot be read. *)
Theorem X28_htlc_queries_all_or_nothing (htlc : ContractName) (failure : string)
    (fromBlock toBlock : Z) (s : Service t) :
  let q1 := queryFilter htlc "HTLCCreated" fromBlock toBlock (net s) in
  let q2 := queryFilter htlc "HTLCWithdrawn" fromBlock toBlock (snd q1) in
  let q3 := queryFilter htlc "HTLCRefunded" fromBlock toBlock (snd q2) in
  exists s',
    processHTLCEvents htlc failure fromBlock toBlock s = Done (Returned tt) s' /\
    fields s' = fields s /\ sent s' = sent s /\ net s' = snd q3 /\
    logged s' =
      logged s ++
      match fst q1, fst q2, fst q3 with
      | Some createdEvents, Some withdrawnEvents, Some refundedEvents =>
          map (handled_line debug "HTLC Created" "Failed to handle HTLC Created event")
            createdEvents
          ++ map (handled_line info "HTLC Withdrawn"
                    "Failed to handle HTLC Withdrawn event") withdrawnEvents
          ++ map (handled_line info "HTLC Refunded"
                    "Failed to handle HTLC Refunded event") refundedEvents
      | _, _, _ => [(error, failure)]
      end.
Proof.
  intros q1 q2 q3. subst q3 q2 q1. destruct s as [f n lg sn].
  unfold processHTLCEvents, promise_all3, settled_queryFilter, try_catch.
  unfold andThen at 1 2 3 4. simpl.
  destruct (queryFilter htlc "HTLCCreated" fromBlock toBlock n) as [r1 n1]; simpl.
  destruct (queryFilter htlc "HTLCWithdrawn" fromBlock toBlock n1) as [r2 n2]; simpl.
  destruct (queryFilter htlc "HTLCRefunded" fromBlock toBlock n2) as [r3 n3]; simpl.
  destruct r1 as [e1|], r2 as [e2|], r3 as [e3|]; simpl;
    try (unfold throw, logger; simpl; eexists; repeat split; reflexivity).
  unfold pure. simpl. unfold andThen, handleHTLCCreated, handleHTLCWithdrawn,
    handleHTLCRefunded.
  rewrite handle_and_log_all. simpl. rewrite handle_and_log_all. simpl.
  rewrite handle_and_log_all. simpl.
  eexists. split; [reflexivity|]. simpl. repeat split; auto.
  rewrite <- !app_assoc. reflexivity.
Qed.
End HTLCQueries.
